(** * Offer curation: a shallow embedding of [offer_curation.ts]

    The development follows the source file top to bottom: the JSON values
    the script manipulates and the JavaScript coercions it relies on, the
    Record Structurer ([extractImageDetails], [renderSections],
    [structureActivity]), the Prompt Builder, the Response Reconciler
    ([parseJsonResponse], [gradeOffer]), the batch runner ([gradeOffers]) and
    the entry point ([main]).  Strings are sequences of code units below
    256.  A conversion to a string or a number throws on some objects; the
    coercions below give the value when the conversion returns and
    [stringable] tells when it does.  Theorems come after all
    definitions. *)

From Stdlib Require Import Bool Arith Lia List ZArith QArith.
From Stdlib Require Import Strings.Ascii Strings.String.
From Stdlib Require Import Sorting.Permutation Sorting.Sorted.
From Stdlib Require OrderedTypeEx.
Import ListNotations.

Close Scope Q_scope.
Set Warnings "-register-all".
Open Scope string_scope.
Open Scope bool_scope.

(* ================================================================== *)
(** ** JavaScript values *)

(** A JavaScript number.  Finite doubles are dyadic rationals, so every
    finite double is an inhabitant of [Fin]; comparison, [Math.min],
    [Math.max] and [Math.trunc] are exact on doubles and are computed on
    the rational.  The two zeros are identified. *)
Inductive number : Type :=
| NaN
| PosInf
| NegInf
| Fin (q : Q).

(** [type JsonValue = string | number | boolean | null | JsonValue[] |
    { [key: string]: JsonValue }].  An object is the list of its own
    properties in insertion order. *)
Inductive JsonValue : Type :=
| JNull
| JBool (b : bool)
| JNum (n : number)
| JStr (s : string)
| JArr (items : list JsonValue)
| JObj (fields : list (string * JsonValue)).

(** A value that may be [undefined]: [None] is [undefined]. *)
Definition value := option JsonValue.

(** The parts of the JavaScript runtime that the script calls and that are
    not defined by the script: number formatting, string-to-number
    conversion, the JSON parser ([None] when [JSON.parse] throws) and the
    collation order of [String.prototype.localeCompare]. *)
Class Runtime : Type := {
  Number_toString : number -> string;
  StringToNumber : string -> number;
  JSON_parse : string -> option JsonValue;
  localeCompare : string -> string -> comparison
}.

(* ------------------------------------------------------------------ *)
(** *** Strings *)

Definition nonEmpty (s : string) : bool :=
  match s with EmptyString => false | String _ _ => true end.

(** White space removed by [String.prototype.trim], for code units below
    256: TAB, LF, VT, FF, CR, SP and NBSP. *)
Definition isWhiteSpace (c : ascii) : bool :=
  let n := nat_of_ascii c in
  ((9 <=? n)%nat && (n <=? 13)%nat) || (n =? 32)%nat || (n =? 160)%nat.

Fixpoint trimStart (s : string) : string :=
  match s with
  | EmptyString => EmptyString
  | String c s' => if isWhiteSpace c then trimStart s' else s
  end.

Fixpoint trimEnd (s : string) : string :=
  match s with
  | EmptyString => EmptyString
  | String c s' =>
      let r := trimEnd s' in
      if isWhiteSpace c && negb (nonEmpty r) then EmptyString else String c r
  end.

Definition trim (s : string) : string := trimEnd (trimStart s).

Definition startsWith (s p : string) : bool := prefix p s.

(** [Array.prototype.join]. *)
Definition join (sep : string) (l : list string) : string := concat sep l.

(** [String.prototype.slice(0, n)]. *)
Definition slice0 (n : nat) (s : string) : string := substring 0 n s.

(** [String.prototype.toUpperCase] on the ASCII letters.  The runtime
    also maps some code units above 127, to characters or pairs that hold
    none of the letters C, U, R, A, T, E, D; they are left in place here,
    which does not change whether the result is the curated sentinel. *)
Definition upperChar (c : ascii) : ascii :=
  let n := nat_of_ascii c in
  if (97 <=? n)%nat && (n <=? 122)%nat then ascii_of_nat (n - 32) else c.

Fixpoint toUpperCase (s : string) : string :=
  match s with
  | EmptyString => EmptyString
  | String c s' => String (upperChar c) (toUpperCase s')
  end.

Definition quote : string := String (ascii_of_nat 34) EmptyString.
Definition newline : string := String (ascii_of_nat 10) EmptyString.

(* ------------------------------------------------------------------ *)
(** *** Truthiness, [typeof] and property access *)

Definition Qis_zero (q : Q) : bool := (Qnum q =? 0)%Z.

Definition numberTruthy (n : number) : bool :=
  match n with
  | NaN => false
  | Fin q => negb (Qis_zero q)
  | PosInf | NegInf => true
  end.

(** [Boolean(v)] for a defined value. *)
Definition truthy (v : JsonValue) : bool :=
  match v with
  | JNull => false
  | JBool b => b
  | JNum n => numberTruthy n
  | JStr s => nonEmpty s
  | JArr _ | JObj _ => true
  end.

(** [Boolean(v)] for a possibly undefined value. *)
Definition truthyV (v : value) : bool :=
  match v with None => false | Some x => truthy x end.

(** [v && typeof v === 'object']: arrays and objects. *)
Definition isObjectLike (v : JsonValue) : bool :=
  match v with JArr _ | JObj _ => true | _ => false end.

Fixpoint assoc (k : string) (fields : list (string * JsonValue)) : value :=
  match fields with
  | [] => None
  | (k', v) :: rest => if String.eqb k k' then Some v else assoc k rest
  end.

(** [v.k] for the property names the script reads.  None of them is an
    index, [length] or a prototype member, so only objects answer.  On
    [null] the access throws; every use below is behind a guard that
    excludes [null]. *)
Definition prop (v : JsonValue) (k : string) : value :=
  match v with
  | JObj fields => assoc k fields
  | _ => None
  end.

(** [typeof v.k === 'string' ? v.k : undefined]. *)
Definition stringProp (v : JsonValue) (k : string) : option string :=
  match prop v k with Some (JStr s) => Some s | _ => None end.

(** [typeof v.k === 'number' ? v.k : undefined]. *)
Definition numberProp (v : JsonValue) (k : string) : option number :=
  match prop v k with Some (JNum n) => Some n | _ => None end.

(** [a || b] on possibly undefined values. *)
Definition orElse (a b : value) : value := if truthyV a then a else b.

(** [s || d] for an optional string. *)
Definition strOr (s : option string) (d : string) : string :=
  match s with
  | Some x => if nonEmpty x then x else d
  | None => d
  end.

(* ------------------------------------------------------------------ *)
(** *** Coercions *)

Section Coercions.
Context {R : Runtime}.

(** [String(v)] for a defined value. *)
Fixpoint toStr (v : JsonValue) : string :=
  match v with
  | JNull => "null"
  | JBool true => "true"
  | JBool false => "false"
  | JNum n => Number_toString n
  | JStr s => s
  | JArr items =>
      join "," (map (fun x => match x with JNull => "" | _ => toStr x end)
                    items)
  | JObj _ => "[object Object]"
  end.

(** [Number(v)]. *)
Definition toNumber (v : value) : number :=
  match v with
  | None => NaN
  | Some JNull => Fin 0
  | Some (JBool true) => Fin 1
  | Some (JBool false) => Fin 0
  | Some (JNum n) => n
  | Some (JStr s) => StringToNumber s
  | Some (JArr items) => StringToNumber (toStr (JArr items))
  | Some (JObj _) => NaN
  end.

(** [String(v)], [v.toString()], a template literal and [Number(v)] throw
    a [TypeError] on an object with a property of its own named
    [toString], whose value is JSON data and cannot be called, and on an
    array that holds such an object at any depth.  [toStr] and [toNumber]
    give the value when the conversion returns; [stringable] tells whether
    it does. *)
Fixpoint stringable (v : JsonValue) : bool :=
  match v with
  | JObj fields =>
      match assoc "toString" fields with Some _ => false | None => true end
  | JArr items => forallb stringable items
  | _ => true
  end.

(** Escaping of one code unit inside a JSON string literal. *)
Definition escapeChar (c : ascii) : string :=
  let n := nat_of_ascii c in
  if (n =? 34)%nat then "\" ++ quote
  else if (n =? 92)%nat then "\\"
  else if (n =? 8)%nat then "\b"
  else if (n =? 12)%nat then "\f"
  else if (n =? 10)%nat then "\n"
  else if (n =? 13)%nat then "\r"
  else if (n =? 9)%nat then "\t"
  else if (n <? 32)%nat then
    "\u00" ++ (if (n <? 16)%nat then "0" else "1")
           ++ String (nth (n mod 16)
                          (list_ascii_of_string "0123456789abcdef")
                          "0"%char)
                     EmptyString
  else String c EmptyString.

Fixpoint escapeString (s : string) : string :=
  match s with
  | EmptyString => EmptyString
  | String c s' => escapeChar c ++ escapeString s'
  end.

Definition quoteJson (s : string) : string :=
  quote ++ escapeString s ++ quote.

(** [JSON.stringify(v)] without indentation. *)
Fixpoint JSON_stringify (v : JsonValue) : string :=
  match v with
  | JNull => "null"
  | JBool true => "true"
  | JBool false => "false"
  | JNum (Fin q) => Number_toString (Fin q)
  | JNum _ => "null"
  | JStr s => quoteJson s
  | JArr items => "[" ++ join "," (map JSON_stringify items) ++ "]"
  | JObj fields =>
      "{" ++ join "," (map (fun kv => quoteJson (fst kv) ++ ":"
                                        ++ JSON_stringify (snd kv))
                           fields)
          ++ "}"
  end.

End Coercions.

(* ================================================================== *)
(** ** Data model *)

Record ImageDetail : Type := {
  url : option string;
  type : option string;
  alt : option string;
  description : option string;
  width : option number;
  height : option number;
  source : option string
}.

Record PackageSummary : Type := {
  package_id : value;
  package_name : option string;
  sections_markdown : string
}.

Record StructuredOffer : Type := {
  source_path : string;
  activity_id : value;
  title : option string;
  subtitle : option string;
  what_we_love : option string;
  location : value;
  address : value;
  category : option string;
  category_detail : JsonValue;
  description_markdown : string;
  packages : list PackageSummary;
  images : list string;
  image_details : list ImageDetail;
  city : option string;
  country : option string;
  status : JsonValue;
  raw : JsonValue
}.

(** The field [activity_id] of the source's [GradingResult] is
    [result_activity_id] here, since [StructuredOffer] owns the short name. *)
Record GradingResult : Type := {
  result_activity_id : JsonValue;
  score : option number;
  reason : string;
  categories : list string;
  target_audiences : list string;
  hero_image_index : option Z;
  hero_image_url : option string;
  hero_image_reason : string;
  response_id : option string
}.

(* ================================================================== *)
(** ** Record Structurer *)

(** The object literal pushed for an entry [o] whose host URL is [u]. *)
Definition imageDetailOf (o : JsonValue) (u src : string) : ImageDetail :=
  {| url := Some u;
     type := stringProp o "image_type";
     alt := stringProp o "image_alt";
     description := stringProp o "image_desc";
     width := numberProp o "width";
     height := numberProp o "height";
     source := Some src |}.

(** What one entry contributes under the provenance tag [src]: nothing
    unless [image_url_host] is a non-empty string. *)
Definition hostDetail (o : JsonValue) (src : string) : list ImageDetail :=
  match stringProp o "image_url_host" with
  | Some u => if nonEmpty u then [imageDetailOf o u src] else []
  | None => []
  end.

(** The inner loop over [primary.images]. *)
Definition nestedDetails (nested : value) : list ImageDetail :=
  match nested with
  | Some (JArr items) =>
      flat_map (fun item =>
                  if isObjectLike item then hostDetail item "nested" else [])
               items
  | _ => []
  end.

(** The array [details] once the outer loop has finished. *)
Definition candidateDetails (images : value) : list ImageDetail :=
  match images with
  | Some (JArr entries) =>
      flat_map (fun image =>
                  if isObjectLike image
                  then (hostDetail image "primary"
                          ++ nestedDetails (prop image "images"))%list
                  else [])
               entries
  | _ => []
  end.

Definition seenHas (seen : list string) (u : string) : bool :=
  existsb (String.eqb u) seen.

(** The de-duplication loop; [seen] is the [Set] of URLs met so far. *)
Fixpoint uniqueDetails (seen : list string) (details : list ImageDetail)
  : list ImageDetail :=
  match details with
  | [] => []
  | detail :: rest =>
      match url detail with
      | Some u =>
          if negb (nonEmpty u) || seenHas seen u
          then uniqueDetails seen rest
          else detail :: uniqueDetails (u :: seen) rest
      | None => uniqueDetails seen rest
      end
  end.

Definition extractImageDetails (images : value) : list ImageDetail :=
  uniqueDetails [] (candidateDetails images).

Section Structurer.
Context {R : Runtime}.

(** [(v || '').toString().trim()]. *)
Definition trimmedText (v : value) : string :=
  match v with
  | Some x => if truthy x then trim (toStr x) else ""
  | None => ""
  end.

(** One iteration of the loop over [groups]. *)
Definition groupBlock (group : JsonValue) : list string :=
  if truthy group then
    let groupName := trimmedText (prop group "group_name") in
    let content := trimmedText (prop group "content") in
    if negb (nonEmpty content) then []
    else if nonEmpty groupName
         then ["### " ++ groupName ++ newline ++ content]
         else [content]
  else [].

Definition arrayOrEmpty (v : value) : list JsonValue :=
  match v with Some (JArr items) => items | _ => [] end.

(** One iteration of the loop over [sectionInfo]. *)
Definition sectionChunk (section : JsonValue) : list string :=
  if isObjectLike section then
    let sectionName := trimmedText (prop section "section_name") in
    let groups := arrayOrEmpty (prop section "groups") in
    let groupBlocks := flat_map groupBlock groups in
    let body := join (newline ++ newline) (filter nonEmpty groupBlocks) in
    if negb (nonEmpty body) then []
    else if nonEmpty sectionName
         then ["## " ++ sectionName ++ newline ++ body]
         else [body]
  else [].

Definition renderSections (sectionInfo : value) : string :=
  match sectionInfo with
  | Some (JArr sections) =>
      let chunks := flat_map sectionChunk sections in
      join (newline ++ newline) (filter nonEmpty chunks)
  | _ => ""
  end.

(** [(v || '').toString()] throws. *)
Definition textThrows (v : value) : bool :=
  match v with
  | Some x => truthy x && negb (stringable x)
  | None => false
  end.

(** The loops of [renderSections] throw: the name of a section visited,
    or the name or the content of one of its groups, cannot be turned
    into a string.  Both texts of a group are read before its content is
    tested. *)
Definition groupThrows (group : JsonValue) : bool :=
  truthy group
  && (textThrows (prop group "group_name")
      || textThrows (prop group "content")).

Definition sectionThrows (section : JsonValue) : bool :=
  isObjectLike section
  && (textThrows (prop section "section_name")
      || existsb groupThrows (arrayOrEmpty (prop section "groups"))).

Definition renderSectionsThrows (sectionInfo : value) : bool :=
  existsb sectionThrows (arrayOrEmpty sectionInfo).

Definition packageSummaryOf (item : JsonValue) : list PackageSummary :=
  if isObjectLike item then
    [{| package_id := prop item "package_id";
        package_name := stringProp item "package_name";
        sections_markdown := renderSections (prop item "section_info") |}]
  else [].

(** [details.map((detail) => detail.url).filter(Boolean)]. *)
Definition definedUrls (details : list ImageDetail) : list string :=
  flat_map (fun detail =>
              match url detail with
              | Some u => if nonEmpty u then [u] else []
              | None => []
              end)
           details.

Definition structureActivity (activity : JsonValue) (sourcePath : string)
  : StructuredOffer :=
  let packagesRaw := arrayOrEmpty (prop activity "package_list") in
  let packages := flat_map packageSummaryOf packagesRaw in
  let cityInfo := arrayOrEmpty (prop activity "city_info") in
  let primaryCity :=
    match orElse (hd_error cityInfo) (Some (JObj [])) with
    | Some c => c
    | None => JObj []
    end in
  let categoryInfo :=
    match orElse (prop activity "category_info") (Some (JObj [])) with
    | Some c => c
    | None => JObj []
    end in
  let status :=
    match orElse (orElse (orElse (prop activity "status")
                                 (prop activity "curation_status"))
                         (prop categoryInfo "curation_status"))
                 (Some JNull) with
    | Some s => s
    | None => JNull
    end in
  let imageDetails := extractImageDetails (prop activity "images") in
  {| source_path := sourcePath;
     activity_id := prop activity "activity_id";
     title := stringProp activity "title";
     subtitle := stringProp activity "subtitle";
     what_we_love := stringProp activity "what_we_love";
     location := prop activity "location";
     address := prop activity "address_desc_multilang";
     category := stringProp categoryInfo "sub_category_name";
     category_detail := categoryInfo;
     description_markdown := renderSections (prop activity "section_info");
     packages := packages;
     images := definedUrls imageDetails;
     image_details := imageDetails;
     city := stringProp primaryCity "city_name";
     country := stringProp primaryCity "country_name";
     status := status;
     raw := activity |}.

(** [structureActivity] throws: one of its calls of [renderSections]
    does, for a package or for the activity.  Nothing else in it converts
    a value. *)
Definition structureActivityThrows (activity : JsonValue) : bool :=
  existsb (fun item =>
             isObjectLike item
             && renderSectionsThrows (prop item "section_info"))
          (arrayOrEmpty (prop activity "package_list"))
  || renderSectionsThrows (prop activity "section_info").

End Structurer.

(* ================================================================== *)
(** ** Prompt Builder *)

Definition MAX_IMAGES_TO_REVIEW : nat := 8.
Definition MODEL_NAME : string := "gpt-5".
Definition REASONING_EFFORT : string := "medium".
Definition MAX_OUTPUT_TOKENS : Z := 5000.

(** [l.map((x, index) => f(x, index))], counting from [start]. *)
Fixpoint mapIndexed {A B : Type} (f : A -> nat -> B) (start : nat) (l : list A)
  : list B :=
  match l with
  | [] => []
  | x :: rest => f x start :: mapIndexed f (S start) rest
  end.

(** [l.slice(0, n)]. *)
Definition sliceFirst {A : Type} (n : nat) (l : list A) : list A := firstn n l.

Section PromptBuilder.
Context {R : Runtime}.

(** A non-negative integer inside a template literal. *)
Definition natStr (n : nat) : string :=
  Number_toString (Fin (inject_Z (Z.of_nat n))).

(** [`${v ?? d}`]. *)
Definition strNullish (v : value) (d : string) : string :=
  match v with
  | None | Some JNull => d
  | Some x => toStr x
  end.

Definition summarisePackages (packages : list PackageSummary) : string :=
  match packages with
  | [] => "No packages available."
  | _ =>
      join (newline ++ newline)
        (mapIndexed
           (fun pkg index =>
              let name := strOr (package_name pkg)
                                ("Package " ++ natStr (index + 1)) in
              let details := strOr (Some (sections_markdown pkg))
                                   "No details supplied." in
              "Package: " ++ name ++ newline ++ details)
           0 packages)
  end.

(** The line pushed for one listed image. *)
Definition imageLine (image : ImageDetail) (index : nat) : string :=
  let altText := strOr (Some (trim (strOr (alt image) ""))) "N/A" in
  let description0 := trim (strOr (description image) "") in
  let description1 :=
    if (120 <? String.length description0)%nat
    then slice0 117 description0 ++ "..."
    else description0 in
  let displayDescription := strOr (Some description1) "N/A" in
  let type := strOr (type image) "UNKNOWN" in
  let url := strOr (url image) "N/A" in
  "[" ++ natStr (index + 1) ++ "] type=" ++ type ++ " alt=" ++ altText
      ++ " desc=" ++ displayDescription ++ " url=" ++ url.

(** The lines that follow the header of the image list. *)
Definition imageLines (offer : StructuredOffer) : list string :=
  let imageDetails := sliceFirst MAX_IMAGES_TO_REVIEW (image_details offer) in
  match imageDetails with
  | [] => ["No images available."]
  | _ =>
      "Image metadata includes Klook's image_type to help avoid stylised banners."
        :: "Always reference these numbers when returning hero_image_index and use the exact URL shown."
        :: mapIndexed imageLine 0 imageDetails
  end.

Definition buildOfferPrompt (offer : StructuredOffer) : string :=
  let lines :=
    ["Activity ID: " ++ strNullish (activity_id offer) "N/A";
     "Title: " ++ strOr (title offer) "N/A";
     "Subtitle: " ++ strOr (subtitle offer) "N/A";
     "What we love: " ++ strOr (what_we_love offer) "N/A";
     "Location (lat,long): " ++ strNullish (location offer) "N/A";
     "Address: " ++ strNullish (address offer) "N/A";
     "City: " ++ strOr (city offer) "N/A";
     "Country: " ++ strOr (country offer) "N/A";
     "Current category: " ++ strOr (category offer) "N/A";
     "";
     "Offer description markdown:";
     strOr (Some (description_markdown offer)) "No description supplied.";
     "";
     "Packages:";
     summarisePackages (packages offer);
     "";
     "Images provided (max " ++ natStr MAX_IMAGES_TO_REVIEW
                             ++ " considered):"] in
  join newline (lines ++ imageLines offer)%list.

End PromptBuilder.

(* ================================================================== *)
(** ** Grading Client Adapter *)

(** How a call ends: with a value, or with a thrown error (the error
    object, as JSON data with its [message] and [response] properties). *)
Inductive completion (A : Type) : Type :=
| Returned (a : A)
| Thrown (error : JsonValue).
Arguments Returned {A} a.
Arguments Thrown {A} error.

Record RequestMetadata : Type := {
  meta_activity_id : string;
  meta_activity_title : string;
  meta_activity_url : string;
  meta_activity_category : string
}.

(** The argument of [client.responses.create]; the [instructions] field is
    the constant [SYSTEM_PROMPT] in every call and is left out. *)
Record Request : Type := {
  request_model : string;
  request_text : string;
  request_images : list string;
  request_effort : string;
  request_max_output_tokens : Z;
  request_metadata : RequestMetadata
}.

(** The remote grading service, as [client.responses.create] sees it. *)
Definition Client := Request -> completion JsonValue.

Definition errorWithMessage (message : string) : JsonValue :=
  JObj [("message", JStr message)].

(** [v?.k]. *)
Definition optProp (v : value) (k : string) : value :=
  match v with
  | None | Some JNull => None
  | Some x => prop x k
  end.

(** [for (const x of v)]: the items visited, or [None] when [v] is not
    iterable and the loop throws a [TypeError]. *)
Definition iterate (v : JsonValue) : option (list JsonValue) :=
  match v with
  | JArr items => Some items
  | JStr s => Some (map (fun c => JStr (String c EmptyString))
                        (list_ascii_of_string s))
  | _ => None
  end.

(* ================================================================== *)
(** ** Response Reconciler *)

(** The first match of [/\{[\s\S]*\}/]: from the first opening brace to
    the last closing brace after it. *)
Fixpoint uptoLastBrace (s : string) : option string :=
  match s with
  | EmptyString => None
  | String c s' =>
      match uptoLastBrace s' with
      | Some r => Some (String c r)
      | None => if Ascii.eqb c "}" then Some (String c EmptyString) else None
      end
  end.

Fixpoint braceMatch (text : string) : option string :=
  match text with
  | EmptyString => None
  | String c rest =>
      if Ascii.eqb c "{" then
        match uptoLastBrace rest with
        | Some r => Some (String c r)
        | None => None
        end
      else braceMatch rest
  end.

Definition isDigit (c : ascii) : bool :=
  let n := nat_of_ascii c in (48 <=? n)%nat && (n <=? 57)%nat.

Fixpoint leadingDigits (s : string) : list Z :=
  match s with
  | EmptyString => []
  | String c s' =>
      if isDigit c then (Z.of_nat (nat_of_ascii c) - 48)%Z :: leadingDigits s'
      else []
  end.

Definition digitsValue (ds : list Z) : Z :=
  fold_left (fun acc d => (10 * acc + d)%Z) ds 0%Z.

(** [Number.parseInt(s, 10)], [None] for [NaN].  The integer is exact; the
    runtime rounds it to a double beyond 2^53, where it exceeds every
    array length either way. *)
Definition parseInt10 (s : string) : option Z :=
  let t := trimStart s in
  let '(negative, body) :=
    match t with
    | String c r =>
        if Ascii.eqb c "-" then (true, r)
        else if Ascii.eqb c "+" then (false, r)
        else (false, t)
    | EmptyString => (false, t)
    end in
  match leadingDigits body with
  | [] => None
  | ds => Some (if negative then (- digitsValue ds)%Z else digitsValue ds)
  end.

(** [Math.trunc] of a finite number. *)
Definition mathTrunc (q : Q) : Z := Z.quot (Qnum q) (Zpos (Qden q)).

Definition Qltb (a b : Q) : bool := negb (Qle_bool b a).

(** [a < b] on numbers; [false] as soon as one side is [NaN]. *)
Definition numLtb (a b : number) : bool :=
  match a, b with
  | NaN, _ | _, NaN => false
  | _, NegInf => false
  | NegInf, _ => true
  | PosInf, _ => false
  | _, PosInf => true
  | Fin x, Fin y => Qltb x y
  end.

Definition isNaN (n : number) : bool :=
  match n with NaN => true | _ => false end.

Definition mathMax (a b : number) : number :=
  if isNaN a || isNaN b then NaN else if numLtb a b then b else a.

Definition mathMin (a b : number) : number :=
  if isNaN a || isNaN b then NaN else if numLtb b a then b else a.

(** Truthiness of a [string | null]. *)
Definition truthyS (s : option string) : bool :=
  match s with Some x => nonEmpty x | None => false end.

(** [l[i]] for an integer [i]. *)
Definition elementAt {A : Type} (l : list A) (i : Z) : option A :=
  if (0 <=? i)%Z then nth_error l (Z.to_nat i) else None.

(** [l.findIndex(p)], [None] for [-1]. *)
Fixpoint findIndex {A : Type} (p : A -> bool) (l : list A) : option nat :=
  match l with
  | [] => None
  | x :: rest =>
      if p x then Some 0%nat
      else match findIndex p rest with
           | Some i => Some (S i)
           | None => None
           end
  end.

Definition urlIs (u : string) (item : ImageDetail) : bool :=
  match url item with Some v => String.eqb v u | None => false end.

Section Reconciler.
Context {R : Runtime}.

(** The texts of the [output_text] entries of one [content] list. *)
Definition outputTexts (contents : list JsonValue) : list string :=
  flat_map (fun content =>
              match optProp (Some content) "type",
                    optProp (Some content) "text" with
              | Some (JStr t), Some (JStr txt) =>
                  if String.eqb t "output_text" then [txt] else []
              | _, _ => []
              end)
           contents.

(** The loop over [outputItems]; [None] when some [content] is not
    iterable. *)
Fixpoint collectChunks (items : list JsonValue) : option (list string) :=
  match items with
  | [] => Some []
  | item :: rest =>
      let contents :=
        match orElse (optProp (Some item) "content") (Some (JArr [])) with
        | Some c => c
        | None => JArr []
        end in
      match iterate contents with
      | None => None
      | Some cs =>
          match collectChunks rest with
          | Some chunks => Some (outputTexts cs ++ chunks)%list
          | None => None
          end
      end
  end.

(** The response is taken in its JSON form, which [toJSON] returns. *)
Definition collectResponseText (response : JsonValue) : completion string :=
  let payload := response in
  let outputItems :=
    match orElse (optProp (Some payload) "output") (Some (JArr [])) with
    | Some o => o
    | None => JArr []
    end in
  match iterate outputItems with
  | None => Thrown (errorWithMessage "outputItems is not iterable")
  | Some items =>
      match collectChunks items with
      | None => Thrown (errorWithMessage "contents is not iterable")
      | Some chunks => Returned (trim (join "" chunks))
      end
  end.

Definition parseFailure (text : string) : JsonValue :=
  JObj [("score", JNull); ("reason", JStr ("Failed to parse JSON: " ++ text))].

Definition parseJsonResponse (text : string) : JsonValue :=
  if negb (nonEmpty text) then
    JObj [("score", JNull); ("reason", JStr "Empty response from model.")]
  else
    match JSON_parse text with
    | Some v => v
    | None =>
        match braceMatch text with
        | Some m =>
            match JSON_parse m with
            | Some v => v
            | None => parseFailure text
            end
        | None => parseFailure text
        end
    end.

Definition normaliseStringList (v : value) : list string :=
  match v with
  | Some (JArr items) =>
      filter nonEmpty
        (flat_map (fun item =>
                     match item with JNull => [] | _ => [toStr item] end)
                  items)
  | None | Some JNull => []
  | Some (JStr EmptyString) => []
  | Some x => [toStr x]
  end.

(** Lines 592-599: the index the reply carries, coerced. *)
Definition heroImageIndexOf (heroImageIndexRaw : value) : option Z :=
  match heroImageIndexRaw with
  | Some (JNum (Fin q)) => Some (mathTrunc q)
  | Some (JStr s) => if nonEmpty (trim s) then parseInt10 (trim s) else None
  | _ => None
  end.

(** Lines 601-604: the URL the reply carries, trimmed. *)
Definition heroImageUrlOf (raw : value) : option string :=
  match raw with
  | Some x =>
      if truthy x then
        let u := trim (toStr x) in
        if nonEmpty u then Some u else None
      else None
  | None => None
  end.

(** [candidateImages[i - 1]?.url]. *)
Definition candidateUrl (candidateImages : list ImageDetail) (i : Z)
  : option string :=
  match elementAt candidateImages (i - 1) with
  | Some d => url d
  | None => None
  end.

(** Lines 606-631: index and URL reconciled against the offer's list. *)
Definition reconcileHero (candidateImages : list ImageDetail)
    (heroImageIndex0 : option Z) (heroImageUrl0 : option string)
  : option Z * option string :=
  let '(heroImageIndex1, heroImageUrl1) :=
    match heroImageIndex0 with
    | Some i =>
        if (1 <=? i)%Z && (i <=? Z.of_nat (List.length candidateImages))%Z
        then
          let candidate := candidateUrl candidateImages i in
          (Some i, if truthyS candidate then candidate else heroImageUrl0)
        else (None, heroImageUrl0)
    | None => (None, heroImageUrl0)
    end in
  let heroImageUrl2 :=
    match heroImageUrl1 with
    | Some u =>
        if nonEmpty u && startsWith u "attachment://" then None else Some u
    | None => None
    end in
  let heroImageUrl3 :=
    match heroImageIndex1 with
    | Some i =>
        if negb (truthyS heroImageUrl2) then
          let candidate := candidateUrl candidateImages i in
          if truthyS candidate then candidate else heroImageUrl2
        else heroImageUrl2
    | None => heroImageUrl2
    end in
  let heroImageIndex3 :=
    match heroImageUrl3, heroImageIndex1 with
    | Some u, None =>
        if nonEmpty u then
          match findIndex (urlIs u) candidateImages with
          | Some idx => Some (Z.of_nat idx + 1)%Z
          | None => None
          end
        else None
    | _, _ => heroImageIndex1
    end in
  (heroImageIndex3, heroImageUrl3).

(** Lines 633-638. *)
Definition heroImageReasonOf (v : value) : string :=
  match v with
  | None | Some JNull => ""
  | Some (JStr s) => trim s
  | Some x => JSON_stringify x
  end.

(** Lines 640-645. *)
Definition scoreOf (scoreRaw : value) : option number :=
  let numericScore := toNumber scoreRaw in
  if negb (isNaN numericScore)
  then Some (mathMin (Fin 5) (mathMax (Fin 0) numericScore))
  else None.

(** Lines 647-648. *)
Definition reasonOf (parsed : JsonValue) : string :=
  let reasonValue :=
    match prop parsed "reason" with
    | None | Some JNull => parsed
    | Some r => r
    end in
  match reasonValue with
  | JStr s => s
  | other => JSON_stringify other
  end.

(** [v ?? null]. *)
Definition nullish (v : value) : JsonValue :=
  match v with Some x => x | None => JNull end.

(** Lines 589-660: everything after the [try] block.  Reading a property
    of [null] throws. *)
Definition reconcile (offer : StructuredOffer) (responseId : option string)
    (parsed : JsonValue) : completion GradingResult :=
  match parsed with
  | JNull =>
      Thrown (errorWithMessage
                "Cannot read properties of null (reading 'categories')")
  | _ =>
      let candidateImages := image_details offer in
      let '(heroImageIndex, heroImageUrl) :=
        reconcileHero candidateImages
          (heroImageIndexOf (prop parsed "hero_image_index"))
          (heroImageUrlOf (prop parsed "hero_image_url")) in
      Returned
        {| result_activity_id := nullish (activity_id offer);
           score := scoreOf (prop parsed "score");
           reason := reasonOf parsed;
           categories := normaliseStringList (prop parsed "categories");
           target_audiences :=
             normaliseStringList (prop parsed "target_audiences");
           hero_image_index := heroImageIndex;
           hero_image_url := heroImageUrl;
           hero_image_reason :=
             heroImageReasonOf (prop parsed "hero_image_reason");
           response_id := responseId |}
  end.

(** Lines 542-546: the images attached to the request. *)
Definition imagePayload (offer : StructuredOffer) : list string :=
  definedUrls (sliceFirst MAX_IMAGES_TO_REVIEW (image_details offer)).

Definition requestOf (offer : StructuredOffer) : Request :=
  {| request_model := MODEL_NAME;
     request_text := buildOfferPrompt offer;
     request_images := imagePayload offer;
     request_effort := REASONING_EFFORT;
     request_max_output_tokens := MAX_OUTPUT_TOKENS;
     request_metadata :=
       {| meta_activity_id := strNullish (activity_id offer) "";
          meta_activity_title := strOr (title offer) "";
          meta_activity_url :=
            "https://www.klook.com/en-AU/activity/"
              ++ strNullish (activity_id offer) "";
          meta_activity_category := strOr (category offer) "" |} |}.

(** [error?.response?.data || error?.response?.body || error?.message
    || error]. *)
Definition errorDetails (error : JsonValue) : JsonValue :=
  match orElse (orElse (orElse (optProp (optProp (Some error) "response")
                                        "data")
                               (optProp (optProp (Some error) "response")
                                        "body"))
                       (optProp (Some error) "message"))
               (Some error) with
  | Some d => d
  | None => error
  end.

(** The result returned from the [catch] block. *)
Definition callFailed (offer : StructuredOffer) (error : JsonValue)
  : GradingResult :=
  {| result_activity_id := nullish (activity_id offer);
     score := None;
     reason := "Model call failed: " ++ JSON_stringify (errorDetails error);
     categories := [];
     target_audiences := [];
     hero_image_index := None;
     hero_image_url := None;
     hero_image_reason := "";
     response_id := None |}.

(** [typeof response?.id === 'string' ? response.id : null]. *)
Definition responseIdOf (response : JsonValue) : option string :=
  match optProp (Some response) "id" with
  | Some (JStr id) => Some id
  | _ => None
  end.

(** [getClient] is what the call [getClient()] of line 539 does: it
    returns the client or throws the error of [loadApiKey].  The call
    stands before the [try] block, so its error rejects [gradeOffer];
    errors of the request and of reading the response are caught. *)
Definition gradeOffer (getClient : completion Client) (offer : StructuredOffer)
  : completion GradingResult :=
  match getClient with
  | Thrown error => Thrown error
  | Returned client =>
      match client (requestOf offer) with
      | Thrown error => Returned (callFailed offer error)
      | Returned response =>
          let responseId := responseIdOf response in
          match collectResponseText response with
          | Thrown error => Returned (callFailed offer error)
          | Returned responseText =>
              reconcile offer responseId (parseJsonResponse responseText)
          end
      end
  end.

(** The requests sent by calling [gradeOffer] on each of [offers] in
    turn: one per offer, or none when there is no client. *)
Definition requestsFor (getClient : completion Client)
    (offers : list StructuredOffer) : list Request :=
  match getClient with
  | Returned _ => map requestOf offers
  | Thrown _ => []
  end.

End Reconciler.

(* ================================================================== *)
(** ** Grading Orchestrator *)

(** [Array.prototype.sort(cmp)]: stable, and ordered by [cmp] whenever
    [cmp] is a consistent comparator. *)
Fixpoint insertSorted {A : Type} (cmp : A -> A -> comparison) (x : A)
    (l : list A) : list A :=
  match l with
  | [] => [x]
  | y :: rest =>
      match cmp x y with
      | Gt => y :: insertSorted cmp x rest
      | _ => x :: l
      end
  end.

Fixpoint arraySort {A : Type} (cmp : A -> A -> comparison) (l : list A)
  : list A :=
  match l with
  | [] => []
  | x :: rest => insertSorted cmp x (arraySort cmp rest)
  end.

(** [Math.max(1, Number.isFinite(concurrency) ? Math.trunc(concurrency) : 1)]. *)
Definition limiterOf (concurrency : number) : nat :=
  match concurrency with
  | Fin q => Z.to_nat (Z.max 1 (mathTrunc q))
  | _ => 1%nat
  end.

(** The state shared by the workers: the [queue], the offers whose call is
    awaited (one per worker still running), the [results] pushed so far,
    the requests issued so far, and the error [Promise.all] rejected
    with, if a worker has thrown. *)
Record Pool : Type := {
  queue : list StructuredOffer;
  inFlight : list StructuredOffer;
  results : list GradingResult;
  issued : list Request;
  rejection : option JsonValue
}.

Section Orchestrator.
Context {R : Runtime}.

(** [String(r.activity_id ?? '')]. *)
Definition idString (r : GradingResult) : string :=
  strNullish (Some (result_activity_id r)) "".

(** The comparator passed to [results.sort]. *)
Definition compareResults (a b : GradingResult) : comparison :=
  let idA := idString a in
  let idB := idString b in
  if String.eqb idA idB then localeCompare (reason a) (reason b)
  else localeCompare idA idB.

Variable getClient : completion Client.

(** The workers as launched: each takes one offer off the queue and calls
    [gradeOffer], which runs up to its request, before the first
    suspension. *)
Definition launch (limiter : nat) (offers : list StructuredOffer) : Pool :=
  {| queue := skipn limiter offers;
     inFlight := firstn limiter offers;
     results := [];
     issued := requestsFor getClient (firstn limiter offers);
     rejection := None |}.

(** The awaited call of the [k]-th running worker completes.  When it
    returned, the worker pushes the result and shifts the next offer off
    the queue, or ends when the queue is empty.  When it threw, the worker
    ends there: [Promise.all] rejects with the error if it has not yet
    rejected, and the other workers run on. *)
Definition completeOne (k : nat) (st : Pool) : Pool :=
  match nth_error (inFlight st) k with
  | None => st
  | Some offer =>
      match gradeOffer getClient offer with
      | Thrown error =>
          {| queue := queue st;
             inFlight := (firstn k (inFlight st)
                            ++ skipn (S k) (inFlight st))%list;
             results := results st;
             issued := issued st;
             rejection := match rejection st with
                          | Some first => Some first
                          | None => Some error
                          end |}
      | Returned result =>
          match queue st with
          | next :: rest =>
              {| queue := rest;
                 inFlight := (firstn k (inFlight st)
                                ++ next :: skipn (S k) (inFlight st))%list;
                 results := (results st ++ [result])%list;
                 issued := (issued st ++ requestsFor getClient [next])%list;
                 rejection := rejection st |}
          | [] =>
              {| queue := [];
                 inFlight := (firstn k (inFlight st)
                                ++ skipn (S k) (inFlight st))%list;
                 results := (results st ++ [result])%list;
                 issued := issued st;
                 rejection := rejection st |}
          end
      end
  end.

(** The pool run until no call is awaited.  [schedule] is the completion
    order: its head, reduced modulo the number of running workers, names
    the call that completes next. *)
Fixpoint drain (fuel : nat) (schedule : list nat) (st : Pool) : Pool :=
  match fuel with
  | O => st
  | S fuel' =>
      match inFlight st with
      | [] => st
      | _ :: _ =>
          let k := (hd 0%nat schedule mod List.length (inFlight st))%nat in
          drain fuel' (tl schedule) (completeOne k st)
      end
  end.

(** What a batch run leaves behind: how [gradeOffers] ended, and the
    requests sent by the time every worker has ended.  The script does
    not exit on a rejection, so the workers left run on after it. *)
Record BatchRun : Type := {
  outcome : completion (list GradingResult);
  requests : list Request
}.

Definition gradeOffers (schedule : list nat) (offers : list StructuredOffer)
    (concurrency : number) : BatchRun :=
  match offers with
  | [] => {| outcome := Returned []; requests := [] |}
  | _ :: _ =>
      let limiter := limiterOf concurrency in
      let final :=
        drain (List.length offers) schedule (launch limiter offers) in
      {| outcome :=
           match rejection final with
           | Some error => Thrown error
           | None => Returned (arraySort compareResults (results final))
           end;
         requests := issued final |}
  end.

End Orchestrator.

(* ================================================================== *)
(** ** Tabular Exporter *)

(** A cell before escaping: [string | null | number]. *)
Inductive CsvCell : Type :=
| CellString (s : string)
| CellNumber (n : number)
| CellNull.

Definition CSV_COLUMNS : list string :=
  ["activity_id"; "activity_url"; "hero_image_index"; "hero_image_url";
   "hero_image_reason"; "categories"; "target_audiences"; "score"; "reason";
   "log_url"].

Fixpoint stringExists (p : ascii -> bool) (s : string) : bool :=
  match s with
  | EmptyString => false
  | String c s' => p c || stringExists p s'
  end.

(** The [replace] call of [escapeCsvValue]: every double quote is doubled. *)
Fixpoint doubleQuotes (s : string) : string :=
  match s with
  | EmptyString => EmptyString
  | String c s' =>
      if (nat_of_ascii c =? 34)%nat
      then quote ++ quote ++ doubleQuotes s'
      else String c (doubleQuotes s')
  end.

Section Exporter.
Context {R : Runtime}.

Definition escapeCsvValue (cell : CsvCell) : string :=
  let stringValue :=
    match cell with
    | CellNull => ""
    | CellString s => s
    | CellNumber n => Number_toString n
    end in
  if stringExists (fun c => let n := nat_of_ascii c in
                            (n =? 34)%nat || (n =? 44)%nat || (n =? 10)%nat)
                  stringValue
  then quote ++ doubleQuotes stringValue ++ quote
  else stringValue.

Definition cellOfString (s : option string) : CsvCell :=
  match s with Some x => CellString x | None => CellNull end.

Definition buildCsvRow (result : GradingResult) : string :=
  let activityId :=
    match result_activity_id result with
    | JNull => ""
    | v => toStr v
    end in
  let activityUrl :=
    if nonEmpty activityId
    then "https://www.klook.com/en-AU/activity/" ++ activityId
    else "" in
  let logUrl :=
    match response_id result with
    | Some id =>
        if nonEmpty id then "https://platform.openai.com/logs/" ++ id else ""
    | None => ""
    end in
  let ordered :=
    [CellString activityId;
     CellString activityUrl;
     match hero_image_index result with
     | Some i => CellNumber (Fin (inject_Z i))
     | None => CellNull
     end;
     cellOfString (hero_image_url result);
     CellString (hero_image_reason result);
     CellString (join "; " (categories result));
     CellString (join "; " (target_audiences result));
     match score result with
     | Some n => CellNumber n
     | None => CellNull
     end;
     CellString (reason result);
     CellString logUrl] in
  join "," (map escapeCsvValue ordered).

(** The text handed to [writeFile]. *)
Definition csvText (results : list GradingResult) : string :=
  join newline (join "," CSV_COLUMNS :: map buildCsvRow results).

End Exporter.

(* ================================================================== *)
(** ** Environment discovery *)

Definition OPENAI_API_KEY_ENV : string := "OPENAI_API_KEY".
Definition ENV_PRIORITIES : list string := [".env"; ".openai_api_key"].

(** [content.split(/\r?\n/)]: the lines of a text; a line feed ends a
    line, and so does a carriage return directly followed by one. *)
Fixpoint splitLines (s : string) : list string :=
  match s with
  | EmptyString => [EmptyString]
  | String c s' =>
      let pushed :=
        match splitLines s' with
        | line :: lines => String c line :: lines
        | [] => [String c EmptyString]
        end in
      if (nat_of_ascii c =? 10)%nat then EmptyString :: splitLines s'
      else if (nat_of_ascii c =? 13)%nat then
        match s' with
        | String d s'' =>
            if (nat_of_ascii d =? 10)%nat then EmptyString :: splitLines s''
            else pushed
        | EmptyString => pushed
        end
      else pushed
  end.

Definition isEquals (c : ascii) : bool := (nat_of_ascii c =? 61)%nat.

(** The text before the first equals sign, and the text after it. *)
Fixpoint beforeEquals (s : string) : string :=
  match s with
  | EmptyString => EmptyString
  | String c s' => if isEquals c then EmptyString else String c (beforeEquals s')
  end.

Fixpoint afterEquals (s : string) : string :=
  match s with
  | EmptyString => EmptyString
  | String c s' => if isEquals c then s' else afterEquals s'
  end.

(** [s.replace(/^"|"$/g, '')]: a double quote at the start goes, and so
    does one at the end of what is left. *)
Fixpoint dropLastQuote (s : string) : string :=
  match s with
  | EmptyString => EmptyString
  | String c s' =>
      match s' with
      | EmptyString =>
          if (nat_of_ascii c =? 34)%nat then EmptyString else s
      | String _ _ => String c (dropLastQuote s')
      end
  end.

Definition stripQuotes (s : string) : string :=
  match s with
  | EmptyString => EmptyString
  | String c s' =>
      if (nat_of_ascii c =? 34)%nat then dropLastQuote s' else dropLastQuote s
  end.

(** One iteration of the loop of [loadApiKeyFromFile]: the value the
    function returns at this line, or [None] when the loop goes on.  The
    two pieces are those of [line.split('=', 2)]. *)
Definition keyLineValue (rawLine : string) : option string :=
  let line := trim rawLine in
  if negb (nonEmpty line) || startsWith line "#"
     || negb (stringExists isEquals line)
  then None
  else
    let key := beforeEquals line in
    let value := beforeEquals (afterEquals line) in
    if String.eqb (trim key) OPENAI_API_KEY_ENV
    then Some (stripQuotes (trim value))
    else None.

Fixpoint firstKeyLine (lines : list string) : option string :=
  match lines with
  | [] => None
  | rawLine :: rest =>
      match keyLineValue rawLine with
      | Some value => Some value
      | None => firstKeyLine rest
      end
  end.

(** [content] is what [readFileSync] returns, [None] when it throws. *)
Definition loadApiKeyFromFile (content : option string) : option string :=
  match content with
  | Some text => firstKeyLine (splitLines text)
  | None => None
  end.

(** The loop of [loadApiKey] over the candidate files. *)
Fixpoint firstFileKey (readFile : string -> option string)
    (candidates : list string) : option string :=
  match candidates with
  | [] => None
  | candidate :: rest =>
      if truthyS (loadApiKeyFromFile (readFile candidate))
      then loadApiKeyFromFile (readFile candidate)
      else firstFileKey readFile rest
  end.

(** [envValue] is [process.env.OPENAI_API_KEY]; [readFile] reads a
    candidate file of the script's directory. *)
Definition loadApiKey (envValue : option string)
    (readFile : string -> option string) : completion string :=
  if truthyS envValue && truthyS (option_map trim envValue)
  then Returned (match envValue with Some e => trim e | None => EmptyString end)
  else
    match firstFileKey readFile ENV_PRIORITIES with
    | Some key => Returned key
    | None =>
        Thrown (errorWithMessage
                  "OpenAI API key not found. Set OPENAI_API_KEY, or define it inside a local .env/.openai_api_key file.")
    end.

(** [getClient()]: the client is made from the key on first use and
    kept; while no key is found every call looks again and throws.
    [newClient] is [new OpenAI({ apiKey })].  The environment is taken not
    to change during a run, so every call ends the same way. *)
Definition getClient (envValue : option string)
    (readFile : string -> option string) (newClient : string -> Client)
  : completion Client :=
  match loadApiKey envValue readFile with
  | Returned apiKey => Returned (newClient apiKey)
  | Thrown error => Thrown error
  end.

(* ================================================================== *)
(** ** Entry point *)

(** What one execution of [main] does: how it ends, the requests sent to
    the grading service, and the export written, if any. *)
Record MainRun : Type := {
  ending : completion unit;
  sent : list Request;
  exported : option string
}.

Section Main.
Context {R : Runtime}.

(** The loop of [loadOffers] over the JSON files of the directory, each
    given by its path and its contents.  The [try] block of an iteration
    holds the parse and the call of [structureActivity]: when either
    throws, the file is skipped. *)
Definition loadOffers (files : list (string * string))
  : list StructuredOffer :=
  flat_map (fun file =>
              match JSON_parse (snd file) with
              | Some payload =>
                  match optProp (Some payload) "activity" with
                  | Some activity =>
                      if truthy activity
                         && negb (structureActivityThrows activity)
                      then [structureActivity activity (fst file)]
                      else []
                  | None => []
                  end
              | None => []
              end)
           files.

(** [String(offer.status || '').toUpperCase()]. *)
Definition statusLabel (offer : StructuredOffer) : string :=
  toUpperCase (if truthy (status offer) then toStr (status offer) else "").

(** The predicate of [offers.filter] in [main]. *)
Definition requiresGrading (offer : StructuredOffer) : bool :=
  negb (String.eqb (statusLabel offer) "CURATED").

(** [main] from the loaded offers on. *)
Definition curate (getClient : completion Client) (schedule : list nat)
    (concurrency : number) (offers : list StructuredOffer) : MainRun :=
  let offersToGrade := filter requiresGrading offers in
  match offersToGrade with
  | [] => {| ending := Returned tt; sent := []; exported := None |}
  | _ :: _ =>
      let run := gradeOffers getClient schedule offersToGrade concurrency in
      match outcome run with
      | Thrown error =>
          {| ending := Thrown error; sent := requests run; exported := None |}
      | Returned results =>
          {| ending := Returned tt;
             sent := requests run;
             exported := Some (csvText results) |}
      end
  end.

(** [envValue], [readFile] and [newClient] are what [getClient] finds;
    [concurrency] is the constant [CONCURRENCY]. *)
Definition main (envValue : option string)
    (readFile : string -> option string) (newClient : string -> Client)
    (schedule : list nat) (concurrency : number)
    (files : list (string * string)) : MainRun :=
  curate (getClient envValue readFile newClient) schedule concurrency
    (loadOffers files).

End Main.

(* ================================================================== *)
(** ** A runtime to evaluate on *)

(** The definitions above are parametric in the [Runtime].  The instance
    below fixes one, so that they can be run on concrete inputs: numbers
    print in decimal, [StringToNumber] reads signed decimal literals,
    [JSON.parse] knows the bare literals and [localeCompare] is the
    code-unit order. *)
Module Sample.

Definition digitChar (d : Z) : ascii :=
  ascii_of_nat (48 + Z.to_nat d).

Fixpoint natDigits (fuel : nat) (n : Z) (acc : string) : string :=
  match fuel with
  | O => acc
  | S fuel' =>
      let acc' := String (digitChar (n mod 10)) acc in
      if (n <? 10)%Z then acc' else natDigits fuel' (n / 10) acc'
  end.

(** Decimal digits of a non-negative integer. *)
Definition decimal (n : Z) : string :=
  natDigits (S (Z.to_nat (Z.log2 n))) n EmptyString.

(** Digits after the decimal point of [r / d], at most [fuel] of them. *)
Fixpoint fraction (fuel : nat) (r d : Z) : string :=
  match fuel with
  | O => EmptyString
  | S fuel' =>
      if (r =? 0)%Z then EmptyString
      else String (digitChar ((10 * r) / d))
                  (fraction fuel' ((10 * r) mod d) d)
  end.

Definition numberToString (n : number) : string :=
  match n with
  | NaN => "NaN"
  | PosInf => "Infinity"
  | NegInf => "-Infinity"
  | Fin q =>
      let d := Zpos (Qden q) in
      let a := Z.abs (Qnum q) in
      let whole := decimal (a / d) in
      let frac := fraction 17 (a mod d) d in
      (if (Qnum q <? 0)%Z then "-" else "")
        ++ whole ++ (if nonEmpty frac then "." ++ frac else "")
  end.

Fixpoint allDigits (s : string) : bool :=
  match s with
  | EmptyString => true
  | String c s' => isDigit c && allDigits s'
  end.

Fixpoint splitAtDot (s : string) : string * option string :=
  match s with
  | EmptyString => (EmptyString, None)
  | String c s' =>
      if Ascii.eqb c "." then (EmptyString, Some s')
      else let '(a, b) := splitAtDot s' in (String c a, b)
  end.

Definition stringToNumber (s : string) : number :=
  let t := trim s in
  match t with
  | EmptyString => Fin 0
  | String c r =>
      let '(negative, body) :=
        if Ascii.eqb c "-" then (true, r)
        else if Ascii.eqb c "+" then (false, r)
        else (false, t) in
      let '(whole, frac) := splitAtDot body in
      let fracDigits :=
        match frac with Some f => f | None => EmptyString end in
      if allDigits whole && allDigits fracDigits
         && nonEmpty (whole ++ fracDigits)
      then
        let m := digitsValue (leadingDigits (whole ++ fracDigits)) in
        let den := Pos.pow 10 (Pos.of_succ_nat (String.length fracDigits)) in
        Fin (Qred (Qmake (10 * (if negative then - m else m)) den))
      else NaN
  end.

Definition jsonParse (text : string) : option JsonValue :=
  let t := trim text in
  if String.eqb t "null" then Some JNull
  else if String.eqb t "true" then Some (JBool true)
  else if String.eqb t "false" then Some (JBool false)
  else if String.eqb t "{}" then Some (JObj [])
  else if String.eqb t "[]" then Some (JArr [])
  else if nonEmpty t && allDigits t then Some (JNum (stringToNumber t))
  else None.

Definition runtime : Runtime :=
  {| Number_toString := numberToString;
     StringToNumber := stringToNumber;
     JSON_parse := jsonParse;
     localeCompare := String.compare |}.

(** Sample data: a raw record with [n] images, a service response and a
    parsed reply. *)
Definition imageUrl (k : nat) : string :=
  "https://img.example/" ++ decimal (Z.of_nat k) ++ ".jpg".

Definition imageEntry (u : string) : JsonValue :=
  JObj [("image_url_host", JStr u); ("image_type", JStr "PHOTO")].

Definition activityWith (id : Z) (entries : list JsonValue) : JsonValue :=
  JObj [("activity_id", JNum (Fin (inject_Z id)));
        ("title", JStr "Harbour cruise");
        ("images", JArr entries)].

Definition activity (n : nat) : JsonValue :=
  activityWith 101 (map (fun k => imageEntry (imageUrl k)) (seq 1 n)).

(** A response of the service whose only output text is [text]. *)
Definition response (id text : string) : JsonValue :=
  JObj [("id", JStr id);
        ("output",
         JArr [JObj [("type", JStr "message");
                     ("content",
                      JArr [JObj [("type", JStr "output_text");
                                  ("text", JStr text)]])]])].

(** Two copies of one activity that differ in their title only, and a
    service that answers both with the same sentence, which is not JSON. *)
Definition titled (title : string) : JsonValue :=
  JObj [("activity_id", JNum (Fin 101)); ("title", JStr title)].

Definition busyClient : Client :=
  fun request =>
    Returned
      (response (if String.eqb (meta_activity_title (request_metadata request))
                               "Harbour cruise"
                 then "resp_a" else "resp_b")
                "Service busy, try later.").

Definition reply (index url : value) : JsonValue :=
  JObj ([("score", JNum (Fin 4)); ("reason", JStr "Clear title.")]
          ++ match index with
             | Some i => [("hero_image_index", i)]
             | None => []
             end
          ++ match url with
             | Some u => [("hero_image_url", u)]
             | None => []
             end)%list.

End Sample.

(* ================================================================== *)
(** ** Vocabulary of the statements *)

(** [Subseq l1 l2]: [l1] is [l2] with some elements removed, the others
    kept in order. *)
Inductive Subseq {A : Type} : list A -> list A -> Prop :=
| Subseq_nil : Subseq [] []
| Subseq_skip : forall x l1 l2, Subseq l1 l2 -> Subseq l1 (x :: l2)
| Subseq_keep : forall x l1 l2, Subseq l1 l2 -> Subseq (x :: l1) (x :: l2).

(** An image detail that carries a non-empty URL. *)
Definition hasUrl (d : ImageDetail) : Prop :=
  exists u, url d = Some u /\ u <> "".

(** The URL uses the attachment-reference scheme. *)
Definition isAttachment (u : string) : bool := startsWith u "attachment://".

(** The index is one the reconciler accepts for the list [l]. *)
Definition inRange {A : Type} (i : Z) (l : list A) : Prop :=
  (1 <= i <= Z.of_nat (List.length l))%Z.

(** The entry of [l] at the 1-based position [i]. *)
Definition atPosition {A : Type} (l : list A) (i : Z) : option A :=
  elementAt l (i - 1).

(** What is left of a URL once attachment references are discarded. *)
Definition dropAttachment (u : option string) : option string :=
  match u with
  | Some x => if nonEmpty x && isAttachment x then None else Some x
  | None => None
  end.

(** The 1-based position of the first entry of [l] whose URL is [u]. *)
Definition firstPosition (l : list ImageDetail) (u : string) : option Z :=
  match findIndex (urlIs u) l with
  | Some k => Some (Z.of_nat k + 1)%Z
  | None => None
  end.

(** A section tree as the description of the renderer has it: sections
    with a name and groups, groups with a name and a content. *)
Record GroupText : Type := { groupName : string; groupContent : string }.
Record SectionText : Type := {
  sectionName : string;
  sectionGroups : list GroupText
}.

Definition blankLine : string := newline ++ newline.

(** The rendering as described: groups with empty content are dropped, a
    named group gets a level-3 heading, groups are joined by a blank line,
    sections with an empty body are dropped, a named section gets a
    level-2 heading, sections are joined by a blank line. *)
Definition describedGroup (g : GroupText) : string :=
  if nonEmpty (groupName g)
  then "### " ++ groupName g ++ newline ++ groupContent g
  else groupContent g.

Definition describedBody (s : SectionText) : string :=
  join blankLine
    (map describedGroup
         (filter (fun g => nonEmpty (groupContent g)) (sectionGroups s))).

Definition describedSection (s : SectionText) : string :=
  if nonEmpty (sectionName s)
  then "## " ++ sectionName s ++ newline ++ describedBody s
  else describedBody s.

Definition describedRendering (sections : list SectionText) : string :=
  join blankLine
    (map describedSection
         (filter (fun s => nonEmpty (describedBody s)) sections)).

(** Lower-casing of the ASCII letters, and equality up to letter case. *)
Definition lowerChar (c : ascii) : ascii :=
  let n := nat_of_ascii c in
  if (65 <=? n)%nat && (n <=? 90)%nat then ascii_of_nat (n + 32) else c.

Fixpoint sameIgnoringCase (s t : string) : bool :=
  match s, t with
  | EmptyString, EmptyString => true
  | String c s', String d t' =>
      Ascii.eqb (lowerChar c) (lowerChar d) && sameIgnoringCase s' t'
  | _, _ => false
  end.

Section Views.
Context {R : Runtime}.

(** [String(v || '')]: the text a field holds, as given. *)
Definition textAsGiven (v : value) : string :=
  match v with
  | Some x => if truthy x then toStr x else ""
  | None => ""
  end.

(** The section tree a raw [section_info] value denotes; [text] reads
    the names and contents. *)
Definition groupsOf (text : value -> string) (section : JsonValue)
  : list GroupText :=
  map (fun g => {| groupName := text (prop g "group_name");
                   groupContent := text (prop g "content") |})
      (filter truthy (arrayOrEmpty (prop section "groups"))).

Definition sectionsOf (text : value -> string) (sectionInfo : value)
  : list SectionText :=
  map (fun s => {| sectionName := text (prop s "section_name");
                   sectionGroups := groupsOf text s |})
      (filter isObjectLike (arrayOrEmpty sectionInfo)).

(** The status label of an offer: [String(offer.status || '')]. *)
Definition statusText (offer : StructuredOffer) : string :=
  textAsGiven (Some (status offer)).

(** The result of grading [offer], when [gradeOffer] returns one. *)
Definition gradedAs (getClient : completion Client) (offer : StructuredOffer)
    (r : GradingResult) : Prop :=
  gradeOffer getClient offer = Returned r.

End Views.

(** [a] is not sorted after [b] by the comparator [cmp]. *)
Definition notAfter {A : Type} (cmp : A -> A -> comparison) (a b : A) : Prop :=
  cmp a b <> Gt.

Section OrderVocabulary.
Context {R : Runtime}.

(** The sort key of a result: identifier string and reason text. *)
Definition sortKey (r : GradingResult) : string * string :=
  (idString r, reason r).

(** [a] may stand before [b] in the sorted output: its identifier string
    collates first, or the identifiers are the same string and its reason
    does not collate after the reason of [b]. *)
Definition mayPrecede (a b : GradingResult) : Prop :=
  (idString a <> idString b /\ localeCompare (idString a) (idString b) = Lt)
  \/ (idString a = idString b
      /\ localeCompare (reason a) (reason b) <> Gt).

(** The comparator ties no two distinct results of the list: it returns
    0 for two of them only when they are the same result. *)
Definition tiesNone (l : list GradingResult) : Prop :=
  forall a b, In a l -> In b l -> compareResults a b = Eq -> a = b.

(** Identifier strings of the list that collate as equal are equal. *)
Definition idsToldApart (l : list GradingResult) : Prop :=
  forall a b, In a l -> In b l ->
    localeCompare (idString a) (idString b) = Eq -> idString a = idString b.

(** The comparator returns 0 for the two results. *)
Definition tiedWith (a b : GradingResult) : bool :=
  match compareResults a b with Eq => true | _ => false end.

(** What holds of the pool at every moment of a batch of [limiter]
    workers over [offers]: the first [n] offers have been shifted off the
    queue, in that order, and the rest is queued; a request went out for
    each offer shifted, in that order, if there is a client; the offers
    shifted split into those done, whose results were pushed in that
    order, those whose call threw and those awaited; the batch has
    rejected exactly when a call threw, with the error of one of them;
    and while offers are queued every worker that has not thrown awaits
    a call. *)
Definition poolInvariant (getClient : completion Client) (limiter : nat)
    (offers : list StructuredOffer) (st : Pool) : Prop :=
  exists (done failed : list StructuredOffer) (n : nat),
    Forall2 (gradedAs getClient) done (results st)
    /\ Forall (fun o => exists e, gradeOffer getClient o = Thrown e) failed
    /\ Permutation (done ++ failed ++ inFlight st)%list (firstn n offers)
    /\ queue st = skipn n offers
    /\ issued st = requestsFor getClient (firstn n offers)
    /\ (rejection st = None <-> failed = [])
    /\ (forall e, rejection st = Some e ->
          exists o, In o failed /\ gradeOffer getClient o = Thrown e)
    /\ (queue st <> [] ->
        (List.length (inFlight st) + List.length failed = limiter)%nat)
    /\ (List.length (inFlight st) + List.length failed <= limiter)%nat
    /\ (Nat.min limiter (List.length offers) <= n)%nat.

End OrderVocabulary.

(** The laws of a collation: strings are ordered as their collation keys
    are, so a string ties with itself, the two directions of a comparison
    agree, the order is transitive, and strings that tie compare alike
    with every other string.  Distinct strings may tie. *)
Class LocaleOrder (R : Runtime) : Prop := {
  localeCompare_refl : forall x, localeCompare x x = Eq;
  localeCompare_antisym :
    forall x y, localeCompare y x = CompOpp (localeCompare x y);
  localeCompare_trans :
    forall x y z, localeCompare x y = Lt -> localeCompare y z = Lt ->
                  localeCompare x z = Lt;
  localeCompare_tie :
    forall x y z, localeCompare x y = Eq ->
                  localeCompare x z = localeCompare y z
}.

(* ================================================================== *)
(** ** Vocabulary of the further statements *)

(** No code unit of [s] satisfies [p]. *)
Definition noneOf (p : ascii -> bool) (s : string) : Prop :=
  stringExists p s = false.

Definition isOpenBrace (c : ascii) : bool := Ascii.eqb c "{".
Definition isCloseBrace (c : ascii) : bool := Ascii.eqb c "}".
Definition isLineFeed (c : ascii) : bool := (nat_of_ascii c =? 10)%nat.

(** A reader of delimited text: cells end at a comma and records at a line
    feed, except inside double quotes, where a doubled quote stands for
    one quote. *)
Inductive CsvMode : Type :=
| Plain
| Quoted
| QuoteSeen.

(** The cell being read, the cells that follow it in its record and the
    records after that one. *)
Fixpoint scanCsv (mode : CsvMode) (s : string)
  : string * list string * list (list string) :=
  match s with
  | EmptyString => (EmptyString, [], [])
  | String c s' =>
      let n := nat_of_ascii c in
      match mode with
      | Quoted =>
          if (n =? 34)%nat then scanCsv QuoteSeen s'
          else
            let '(cell, cells, records) := scanCsv Quoted s' in
            (String c cell, cells, records)
      | QuoteSeen =>
          if (n =? 34)%nat then
            let '(cell, cells, records) := scanCsv Quoted s' in
            (String c cell, cells, records)
          else if (n =? 44)%nat then
            let '(cell, cells, records) := scanCsv Plain s' in
            (EmptyString, cell :: cells, records)
          else if (n =? 10)%nat then
            let '(cell, cells, records) := scanCsv Plain s' in
            (EmptyString, [], (cell :: cells) :: records)
          else
            let '(cell, cells, records) := scanCsv Plain s' in
            (String c cell, cells, records)
      | Plain =>
          if (n =? 34)%nat then scanCsv Quoted s'
          else if (n =? 44)%nat then
            let '(cell, cells, records) := scanCsv Plain s' in
            (EmptyString, cell :: cells, records)
          else if (n =? 10)%nat then
            let '(cell, cells, records) := scanCsv Plain s' in
            (EmptyString, [], (cell :: cells) :: records)
          else
            let '(cell, cells, records) := scanCsv Plain s' in
            (String c cell, cells, records)
      end
  end.

(** The text [s] put in front of the cell being read. *)
Definition pushText (s : string)
    (t : string * list string * list (list string))
  : string * list string * list (list string) :=
  let '(cell, cells, records) := t in (s ++ cell, cells, records).

(** The code units that make [escapeCsvValue] quote a cell. *)
Definition csvSpecial (c : ascii) : bool :=
  let n := nat_of_ascii c in
  (n =? 34)%nat || (n =? 44)%nat || (n =? 10)%nat.

(** A rest of text that does not begin with a double quote. *)
Definition noQuoteAhead (rest : string) : Prop :=
  match rest with
  | EmptyString => True
  | String c _ => (nat_of_ascii c =? 34)%nat = false
  end.

(** A record as [buildCsvRow] writes it. *)
Definition rowText {R : Runtime} (cells : list CsvCell) : string :=
  join "," (map escapeCsvValue cells).

Definition readCsv (text : string) : list (list string) :=
  let '(cell, cells, records) := scanCsv Plain text in
  (cell :: cells) :: records.



Section FurtherVocabulary.
Context {R : Runtime}.

(** [String(value)] of a cell, before escaping. *)
Definition cellText (cell : CsvCell) : string :=
  match cell with
  | CellNull => ""
  | CellString s => s
  | CellNumber n => Number_toString n
  end.

(** The array [ordered] of [buildCsvRow]. *)
Definition orderedCells (result : GradingResult) : list CsvCell :=
  let activityId :=
    match result_activity_id result with
    | JNull => ""
    | v => toStr v
    end in
  let activityUrl :=
    if nonEmpty activityId
    then "https://www.klook.com/en-AU/activity/" ++ activityId
    else "" in
  let logUrl :=
    match response_id result with
    | Some id =>
        if nonEmpty id then "https://platform.openai.com/logs/" ++ id else ""
    | None => ""
    end in
  [CellString activityId;
   CellString activityUrl;
   match hero_image_index result with
   | Some i => CellNumber (Fin (inject_Z i))
   | None => CellNull
   end;
   cellOfString (hero_image_url result);
   CellString (hero_image_reason result);
   CellString (join "; " (categories result));
   CellString (join "; " (target_audiences result));
   match score result with
   | Some n => CellNumber n
   | None => CellNull
   end;
   CellString (reason result);
   CellString logUrl].

(** The first truthy of [activity.status], [activity.curation_status] and
    [category_info.curation_status], if any. *)
Definition firstStatus (activity : JsonValue) : value :=
  let categoryInfo :=
    match orElse (prop activity "category_info") (Some (JObj [])) with
    | Some c => c
    | None => JObj []
    end in
  if truthyV (prop activity "status") then prop activity "status"
  else if truthyV (prop activity "curation_status")
       then prop activity "curation_status"
       else if truthyV (prop categoryInfo "curation_status")
            then prop categoryInfo "curation_status"
            else None.

(** The file can be loaded: its text parses and holds a truthy
    [activity] on which [structureActivity] does not throw. *)
Definition loadedActivity (content : string) : option JsonValue :=
  match JSON_parse content with
  | Some payload =>
      match optProp (Some payload) "activity" with
      | Some activity =>
          if truthy activity && negb (structureActivityThrows activity)
          then Some activity
          else None
      | None => None
      end
  | None => None
  end.

End FurtherVocabulary.

(* ================================================================== *)
(** * Theorems *)

(* ================================================================== *)
(** ** Worked examples *)

(** The reconciler on a five-image offer, one example per rule. *)
Example reconcile_index_and_matching_url :
  reconcileHero (extractImageDetails (prop (Sample.activity 5) "images"))
                (Some 3%Z) (Some (Sample.imageUrl 3))
  = (Some 3%Z, Some (Sample.imageUrl 3)).
Proof. reflexivity. Qed.

Example reconcile_index_and_wrong_url :
  reconcileHero (extractImageDetails (prop (Sample.activity 5) "images"))
                (Some 3%Z) (Some "https://elsewhere/x.jpg")
  = (Some 3%Z, Some (Sample.imageUrl 3)).
Proof. reflexivity. Qed.

Example reconcile_index_out_of_range :
  reconcileHero (extractImageDetails (prop (Sample.activity 5) "images"))
                (Some 9%Z) (Some "https://elsewhere/x.jpg")
  = (None, Some "https://elsewhere/x.jpg").
Proof. reflexivity. Qed.

Example reconcile_url_only :
  reconcileHero (extractImageDetails (prop (Sample.activity 5) "images"))
                None (Some (Sample.imageUrl 2))
  = (Some 2%Z, Some (Sample.imageUrl 2)).
Proof. reflexivity. Qed.

Example reconcile_attachment_only :
  reconcileHero (extractImageDetails (prop (Sample.activity 5) "images"))
                None (Some "attachment://file-7")
  = (None, None).
Proof. reflexivity. Qed.

(** A nested image that repeats the URL of a primary one is dropped, and
    an entry without a host URL contributes only its nested images. *)
Example extract_primary_before_nested :
  map url
      (extractImageDetails
         (Some (JArr [JObj [("image_url_host", JStr "https://a");
                            ("images",
                             JArr [JObj [("image_url_host", JStr "https://b")];
                                   JObj [("image_url_host", JStr "https://a")]])];
                      JObj [("images",
                             JArr [JObj [("image_url_host", JStr "")];
                                   JObj [("image_url_host", JStr "https://c")]])];
                      JStr "https://d"])))
  = [Some "https://a"; Some "https://b"; Some "https://c"].
Proof. reflexivity. Qed.

Example render_two_sections :
  renderSections (R := Sample.runtime)
    (Some (JArr [JObj [("section_name", JStr " Overview ");
                       ("groups",
                        JArr [JObj [("group_name", JStr "What to expect");
                                    ("content", JStr "A calm evening sail.")];
                              JObj [("content", JStr "")];
                              JObj [("content", JStr "Bring a jacket.")]])];
                 JObj [("section_name", JStr "Empty");
                       ("groups", JArr [])];
                 JObj [("groups",
                        JArr [JObj [("content", JStr "Meet at pier 4.")]])]]))
  = "## Overview" ++ newline
      ++ "### What to expect" ++ newline ++ "A calm evening sail."
      ++ blankLine ++ "Bring a jacket."
      ++ blankLine ++ "Meet at pier 4.".
Proof. reflexivity. Qed.

Example parse_int_examples :
  parseInt10 "3" = Some 3%Z
  /\ parseInt10 "-2nd" = Some (-2)%Z
  /\ parseInt10 "third" = None
  /\ heroImageIndexOf (Some (JNum (Fin (7 # 2)))) = Some 3%Z
  /\ heroImageIndexOf (Some (JStr " 4 ")) = Some 4%Z
  /\ heroImageIndexOf (Some (JNum PosInf)) = None
  /\ heroImageIndexOf (Some JNull) = None.
Proof. repeat split. Qed.

Example brace_match_examples :
  braceMatch "Here you go: {a} and {b}. Bye" = Some "{a} and {b}"
  /\ braceMatch "no closing { brace" = None
  /\ braceMatch "} before {" = None.
Proof. repeat split. Qed.

(** A reply without text is graded as an empty response, and a response
    whose [output] cannot be iterated as a failed call. *)
Example grade_empty_reply :
  exists r,
    gradeOffer (R := Sample.runtime) (Returned (fun _ => Returned (JObj [])))
               (structureActivity (R := Sample.runtime)
                  (Sample.activity 1) "offers/101.json")
    = Returned r
    /\ reason r = "Empty response from model."
    /\ response_id r = None.
Proof. eexists. split; [vm_compute; reflexivity | split; reflexivity]. Qed.

Example grade_failed_call :
  exists r,
    gradeOffer (R := Sample.runtime)
               (Returned
                  (fun _ => Thrown (errorWithMessage "Connection error.")))
               (structureActivity (R := Sample.runtime)
                  (Sample.activity 1) "offers/101.json")
    = Returned r
    /\ score r = None
    /\ reason r = "Model call failed: " ++ quote ++ "Connection error." ++ quote
    /\ response_id r = None.
Proof.
  eexists. split; [vm_compute; reflexivity | repeat split; reflexivity].
Qed.

(** A cell with a comma and a double quote is wrapped and its quote
    doubled; a plain cell is left as it is. *)
Example escape_csv_examples :
  escapeCsvValue (R := Sample.runtime)
    (CellString ("Good, but " ++ quote ++ "busy" ++ quote))
  = quote ++ "Good, but " ++ quote ++ quote ++ "busy" ++ quote ++ quote ++ quote
  /\ escapeCsvValue (R := Sample.runtime) (CellString "Plain reason")
     = "Plain reason"
  /\ escapeCsvValue (R := Sample.runtime) CellNull = ""
  /\ escapeCsvValue (R := Sample.runtime) (CellNumber (Fin (9 # 2))) = "4.5".
Proof. repeat split. Qed.

(* ================================================================== *)
(** ** Basic facts *)

Lemma nonEmpty_true (s : string) : nonEmpty s = true <-> s <> "".
Proof. destruct s; simpl; split; intros; congruence. Qed.

Lemma nonEmpty_false (s : string) : nonEmpty s = false <-> s = "".
Proof. destruct s; simpl; split; intros; congruence. Qed.

Lemma truthyS_true (o : option string) :
  truthyS o = true <-> exists u, o = Some u /\ u <> "".
Proof.
  destruct o as [u|]; simpl.
  - rewrite nonEmpty_true. split.
    + intros H. exists u. auto.
    + intros [v [E H]]. congruence.
  - split; [discriminate | intros [v [E _]]; discriminate].
Qed.

Lemma hasUrl_truthy (d : ImageDetail) : hasUrl d <-> truthyS (url d) = true.
Proof. unfold hasUrl. symmetry. apply truthyS_true. Qed.

Lemma seenHas_In (seen : list string) (u : string) :
  seenHas seen u = true <-> In u seen.
Proof.
  unfold seenHas. rewrite existsb_exists. split.
  - intros [x [Hin Heq]]. apply String.eqb_eq in Heq. now subst.
  - intros Hin. exists u. split; [assumption | apply String.eqb_refl].
Qed.

Lemma seenHas_notIn (seen : list string) (u : string) :
  seenHas seen u = false <-> ~ In u seen.
Proof.
  rewrite <- seenHas_In. destruct (seenHas seen u); split; congruence.
Qed.

(* ================================================================== *)
(** ** Image Resolver *)

Section ImageResolver.

Lemma hostDetail_hasUrl (o : JsonValue) (src : string) :
  Forall hasUrl (hostDetail o src).
Proof.
  unfold hostDetail. destruct (stringProp o "image_url_host") as [u|]; auto.
  destruct (nonEmpty u) eqn:E; auto.
  constructor; auto. exists u. split; [reflexivity | now apply nonEmpty_true].
Qed.

Lemma nestedDetails_hasUrl (nested : value) :
  Forall hasUrl (nestedDetails nested).
Proof.
  unfold nestedDetails. destruct nested as [[]|]; auto.
  induction items as [|item items IH]; simpl; auto.
  apply Forall_app. split; auto.
  destruct (isObjectLike item); auto using hostDetail_hasUrl.
Qed.

Lemma candidateDetails_hasUrl (images : value) :
  Forall hasUrl (candidateDetails images).
Proof.
  unfold candidateDetails. destruct images as [[]|]; auto.
  induction items as [|image items IH]; simpl; auto.
  apply Forall_app. split; auto.
  destruct (isObjectLike image); auto.
  apply Forall_app. split; auto using hostDetail_hasUrl, nestedDetails_hasUrl.
Qed.

(** What the loop does with one detail, by cases on its URL. *)
Lemma uniqueDetails_cons (seen : list string) (d : ImageDetail)
      (rest : list ImageDetail) :
  (exists u, url d = Some u /\ u <> "" /\ ~ In u seen
             /\ uniqueDetails seen (d :: rest)
                = d :: uniqueDetails (u :: seen) rest)
  \/ ((forall u, url d = Some u -> u = "" \/ In u seen)
      /\ uniqueDetails seen (d :: rest) = uniqueDetails seen rest).
Proof.
  simpl. destruct (url d) as [u|] eqn:Hu.
  - destruct (nonEmpty u) eqn:Hne; simpl.
    + destruct (seenHas seen u) eqn:Hs.
      * right. split; auto. intros v Hv. inversion Hv; subst.
        right. now apply seenHas_In.
      * left. exists u. repeat split; auto.
        -- now apply nonEmpty_true.
        -- now apply seenHas_notIn.
    + right. split; auto. intros v Hv. inversion Hv; subst.
      left. now apply nonEmpty_false.
  - right. split; auto. discriminate.
Qed.

Lemma uniqueDetails_In (l : list ImageDetail) :
  forall seen d, In d (uniqueDetails seen l) ->
    In d l /\ exists u, url d = Some u /\ u <> "" /\ ~ In u seen.
Proof.
  induction l as [|c rest IH]; intros seen d Hin; [contradiction|].
  destruct (uniqueDetails_cons seen c rest)
    as [[u [Hu [Hne [Hns Heq]]]] | [_ Heq]]; rewrite Heq in Hin.
  - destruct Hin as [<- | Hin].
    + split; [now left | exists u; auto].
    + apply IH in Hin. destruct Hin as [Hin [v [Hv [Hvne Hvs]]]].
      split; [now right|]. exists v. repeat split; auto.
      intros Hc. apply Hvs. now right.
  - apply IH in Hin. destruct Hin as [Hin Hex]. split; [now right | assumption].
Qed.

Lemma definedUrls_In (l : list ImageDetail) (u : string) :
  In u (definedUrls l) <-> u <> "" /\ exists d, In d l /\ url d = Some u.
Proof.
  unfold definedUrls. rewrite in_flat_map. split.
  - intros [d [Hin Hu]]. destruct (url d) as [v|] eqn:Hv; [|contradiction].
    destruct (nonEmpty v) eqn:Hne; [|contradiction].
    destruct Hu as [<- | []]. split; [now apply nonEmpty_true|].
    exists d. auto.
  - intros [Hne [d [Hin Hu]]]. exists d. split; auto.
    rewrite Hu. apply nonEmpty_true in Hne. rewrite Hne. now left.
Qed.

Lemma definedUrls_hasUrl (l : list ImageDetail) :
  Forall hasUrl l -> map Some (definedUrls l) = map url l.
Proof.
  induction 1 as [|d l [u [Hu Hne]] _ IH]; [reflexivity|].
  unfold definedUrls in *. simpl. rewrite Hu.
  apply nonEmpty_true in Hne. rewrite Hne. simpl. now rewrite IH.
Qed.

Lemma uniqueDetails_hasUrl (seen : list string) (l : list ImageDetail) :
  Forall hasUrl (uniqueDetails seen l).
Proof.
  apply Forall_forall. intros d Hin. apply uniqueDetails_In in Hin.
  destruct Hin as [_ [u [Hu [Hne _]]]]. exists u. auto.
Qed.

Lemma uniqueDetails_NoDup (l : list ImageDetail) :
  forall seen, NoDup (definedUrls (uniqueDetails seen l)).
Proof.
  induction l as [|c rest IH]; intros seen; [constructor|].
  destruct (uniqueDetails_cons seen c rest)
    as [[u [Hu [Hne [Hns Heq]]]] | [_ Heq]]; rewrite Heq; auto.
  unfold definedUrls. simpl. rewrite Hu.
  apply nonEmpty_true in Hne. rewrite Hne. simpl.
  constructor; [|apply IH].
  intros Hin. apply definedUrls_In in Hin.
  destruct Hin as [_ [d [Hd Hdu]]]. apply uniqueDetails_In in Hd.
  destruct Hd as [_ [v [Hv [_ Hvs]]]]. apply Hvs.
  left. congruence.
Qed.

Lemma uniqueDetails_complete (l : list ImageDetail) :
  forall seen c u, In c l -> url c = Some u -> u <> "" -> ~ In u seen ->
    In u (definedUrls (uniqueDetails seen l)).
Proof.
  induction l as [|c0 rest IH]; intros seen c u Hin Hu Hne Hns;
    [contradiction|].
  destruct (uniqueDetails_cons seen c0 rest)
    as [[u0 [Hu0 [Hne0 [Hns0 Heq]]]] | [Hskip Heq]]; rewrite Heq.
  - destruct (string_dec u u0) as [-> | Hdiff].
    + apply definedUrls_In. split; auto. exists c0. split; [now left | auto].
    + destruct Hin as [<- | Hin]; [congruence|].
      apply definedUrls_In. split; auto.
      assert (Hr : In u (definedUrls (uniqueDetails (u0 :: seen) rest))).
      { apply (IH _ c); auto. intros [E | Hc]; [congruence | auto]. }
      apply definedUrls_In in Hr. destruct Hr as [_ [d [Hd Hdu]]].
      exists d. split; [now right | auto].
  - destruct Hin as [<- | Hin].
    + destruct (Hskip u Hu); contradiction.
    + apply (IH _ c); auto.
Qed.

Lemma uniqueDetails_first (l : list ImageDetail) :
  forall seen d, In d (uniqueDetails seen l) ->
    exists l1 l2, l = (l1 ++ d :: l2)%list
                  /\ forall c, In c l1 -> url c <> url d.
Proof.
  induction l as [|c0 rest IH]; intros seen d Hin; [contradiction|].
  destruct (uniqueDetails_cons seen c0 rest)
    as [[u0 [Hu0 [Hne0 [Hns0 Heq]]]] | [Hskip Heq]]; rewrite Heq in Hin.
  - destruct Hin as [<- | Hin].
    + exists [], rest. split; [reflexivity | contradiction].
    + pose proof (uniqueDetails_In _ _ _ Hin) as [_ [v [Hv [_ Hvs]]]].
      destruct (IH _ _ Hin) as [l1 [l2 [-> Hl1]]].
      exists (c0 :: l1), l2. split; [reflexivity|].
      intros c [<- | Hc]; auto.
      rewrite Hu0, Hv. intros E. apply Hvs. left. congruence.
  - pose proof (uniqueDetails_In _ _ _ Hin) as [_ [v [Hv [Hvne Hvs]]]].
    destruct (IH _ _ Hin) as [l1 [l2 [-> Hl1]]].
    exists (c0 :: l1), l2. split; [reflexivity|].
    intros c [<- | Hc]; auto.
    rewrite Hv. intros E. destruct (Hskip v E); contradiction.
Qed.

Lemma uniqueDetails_Subseq (l : list ImageDetail) :
  forall seen, Subseq (uniqueDetails seen l) l.
Proof.
  induction l as [|c0 rest IH]; intros seen; [constructor|].
  destruct (uniqueDetails_cons seen c0 rest)
    as [[u0 [_ [_ [_ Heq]]]] | [_ Heq]]; rewrite Heq.
  - apply Subseq_keep, IH.
  - apply Subseq_skip, IH.
Qed.

End ImageResolver.

(** The image list of a structured offer: every detail has a URL and no
    URL occurs twice. *)
Lemma structured_details_hasUrl
    (R : Runtime) (activity : JsonValue) (sourcePath : string) :
  Forall hasUrl (image_details (structureActivity activity sourcePath)).
Proof. apply uniqueDetails_hasUrl. Qed.

Lemma structured_urls_NoDup
    (R : Runtime) (activity : JsonValue) (sourcePath : string) :
  NoDup (definedUrls (image_details (structureActivity activity sourcePath))).
Proof. apply uniqueDetails_NoDup. Qed.

(** C6. For every raw record with a top-level activity, the structured
    offer's [images] and [image_details] list the same URLs in the same
    order and with the same length; no URL occurs twice and none is empty or
    missing; the URLs are exactly those of the candidate details found in
    the record, each detail kept is the first candidate with its URL, and
    the candidates' order is preserved. *)
Theorem structureActivity_images_deduplicated
    (R : Runtime) (activity : JsonValue) (sourcePath : string) :
  let offer := structureActivity activity sourcePath in
  let candidates := candidateDetails (prop activity "images") in
  map url (image_details offer) = map Some (images offer)
  /\ List.length (images offer) = List.length (image_details offer)
  /\ NoDup (images offer)
  /\ Forall (fun u => u <> "") (images offer)
  /\ Forall hasUrl (image_details offer)
  /\ (forall u, In u (images offer)
                <-> exists c, In c candidates /\ url c = Some u)
  /\ (forall d, In d (image_details offer) ->
        exists l1 l2, candidates = (l1 ++ d :: l2)%list
                      /\ forall c, In c l1 -> url c <> url d)
  /\ Subseq (image_details offer) candidates.
Proof.
  simpl. unfold extractImageDetails.
  set (candidates := candidateDetails (prop activity "images")).
  pose proof (uniqueDetails_hasUrl [] candidates) as Hurls.
  pose proof (definedUrls_hasUrl _ Hurls) as Hmap.
  split; [now symmetry|].
  split; [rewrite <- (length_map Some), Hmap; apply length_map|].
  split; [apply uniqueDetails_NoDup|].
  split.
  { apply Forall_forall. intros u Hin. now apply definedUrls_In in Hin. }
  split; [assumption|].
  split.
  { intros u. split.
    - intros Hin. apply definedUrls_In in Hin.
      destruct Hin as [_ [d [Hd Hu]]]. apply uniqueDetails_In in Hd.
      exists d. tauto.
    - intros [c [Hc Hu]].
      pose proof (candidateDetails_hasUrl (prop activity "images")) as Hall.
      rewrite Forall_forall in Hall. destruct (Hall c Hc) as [v [Hv Hne]].
      apply (uniqueDetails_complete _ [] c); auto. congruence. }
  split; [intros d; apply uniqueDetails_first | apply uniqueDetails_Subseq].
Qed.

(* ================================================================== *)
(** ** Hero image reconciliation *)

Section HeroImage.

Lemma inRange_test {A : Type} (i : Z) (l : list A) :
  (1 <=? i)%Z && (i <=? Z.of_nat (List.length l))%Z = true <-> inRange i l.
Proof.
  unfold inRange. rewrite andb_true_iff, !Z.leb_le. tauto.
Qed.

Lemma atPosition_nth {A : Type} (l : list A) (k : nat) :
  atPosition l (Z.of_nat k + 1) = nth_error l k.
Proof.
  unfold atPosition, elementAt.
  replace (Z.of_nat k + 1 - 1)%Z with (Z.of_nat k) by lia.
  destruct (0 <=? Z.of_nat k)%Z eqn:E; [now rewrite Nat2Z.id|].
  apply Z.leb_gt in E. lia.
Qed.

Lemma atPosition_inRange {A : Type} (l : list A) (i : Z) (x : A) :
  atPosition l i = Some x -> inRange i l.
Proof.
  unfold atPosition, elementAt, inRange.
  destruct (0 <=? i - 1)%Z eqn:E; [|discriminate].
  apply Z.leb_le in E. intros H.
  assert (Hlt : (Z.to_nat (i - 1) < List.length l)%nat).
  { apply nth_error_Some. congruence. }
  lia.
Qed.

Lemma inRange_atPosition {A : Type} (l : list A) (i : Z) :
  inRange i l -> exists x, atPosition l i = Some x.
Proof.
  unfold atPosition, elementAt, inRange. intros [H1 H2].
  destruct (0 <=? i - 1)%Z eqn:E; [|apply Z.leb_gt in E; lia].
  destruct (nth_error l (Z.to_nat (i - 1))) as [x|] eqn:Hn; [eauto|].
  apply nth_error_None in Hn. lia.
Qed.

Lemma atPosition_In {A : Type} (l : list A) (i : Z) (x : A) :
  atPosition l i = Some x -> In x l.
Proof.
  unfold atPosition, elementAt.
  destruct (0 <=? i - 1)%Z; [apply nth_error_In | discriminate].
Qed.

Lemma urlIs_true (u : string) (d : ImageDetail) :
  urlIs u d = true <-> url d = Some u.
Proof.
  unfold urlIs. destruct (url d) as [v|].
  - rewrite String.eqb_eq. split; congruence.
  - split; discriminate.
Qed.

Lemma findIndex_Some {A : Type} (p : A -> bool) (l : list A) :
  forall k, findIndex p l = Some k <->
    (exists x, nth_error l k = Some x /\ p x = true)
    /\ (forall j y, (j < k)%nat -> nth_error l j = Some y -> p y = false).
Proof.
  induction l as [|a l IH]; intros k; simpl.
  - split; [discriminate|]. intros [[x [H _]] _]. destruct k; discriminate.
  - destruct (p a) eqn:Hpa.
    + split.
      * intros E. inversion E; subst. split; [exists a; auto|].
        intros j y Hj. lia.
      * intros [[x [Hx Hpx]] Hmin]. destruct k as [|k]; [reflexivity|].
        specialize (Hmin 0%nat a (Nat.lt_0_succ k) eq_refl). congruence.
    + destruct (findIndex p l) as [i|] eqn:Hf.
      * split.
        -- intros E. inversion E; subst.
           destruct (proj1 (IH i) eq_refl) as [Hex Hmin].
           split; [exact Hex|]. intros [|j] y Hj Hy.
           ++ simpl in Hy. congruence.
           ++ apply (Hmin j); [lia | exact Hy].
        -- intros [[x [Hx Hpx]] Hmin]. destruct k as [|k].
           ++ simpl in Hx. congruence.
           ++ f_equal. assert (E : Some i = Some k); [|congruence].
              apply IH. split; [exists x; auto|].
              intros j y Hj Hy. apply (Hmin (S j)); [lia | exact Hy].
      * split; [discriminate|].
        intros [[x [Hx Hpx]] Hmin]. destruct k as [|k].
        -- simpl in Hx. congruence.
        -- assert (E : None = Some k); [|discriminate].
           apply IH. split; [exists x; auto|].
           intros j y Hj Hy. apply (Hmin (S j)); [lia | exact Hy].
Qed.

Lemma findIndex_None {A : Type} (p : A -> bool) (l : list A) :
  findIndex p l = None <-> forall x, In x l -> p x = false.
Proof.
  induction l as [|a l IH]; simpl.
  - split; [intros _ x [] | reflexivity].
  - destruct (p a) eqn:Hpa.
    + split; [discriminate|]. intros H. specialize (H a (or_introl eq_refl)).
      congruence.
    + destruct (findIndex p l) eqn:Hf.
      * split; [discriminate|]. intros H.
        assert (E : @None nat = None) by reflexivity.
        assert (Hn : forall x, In x l -> p x = false) by (intros; apply H; now right).
        apply IH in Hn. discriminate.
      * split; [|reflexivity]. intros _ x [<- | Hx]; auto.
        now apply (proj1 IH).
Qed.

(** [firstPosition] names the first entry with that URL. *)
Lemma firstPosition_Some (l : list ImageDetail) (u : string) (p : Z) :
  firstPosition l u = Some p <->
    (exists d, atPosition l p = Some d /\ url d = Some u)
    /\ (forall q c, (1 <= q < p)%Z -> atPosition l q = Some c ->
                    url c <> Some u).
Proof.
  unfold firstPosition. split.
  - destruct (findIndex (urlIs u) l) as [k|] eqn:Hf; [|discriminate].
    intros E. inversion E; subst. apply findIndex_Some in Hf.
    destruct Hf as [[d [Hd Hu]] Hmin]. split.
    + exists d. rewrite atPosition_nth. split; [assumption | now apply urlIs_true].
    + intros q c Hq Hc.
      replace q with (Z.of_nat (Z.to_nat (q - 1)) + 1)%Z in Hc by lia.
      rewrite atPosition_nth in Hc.
      assert (Hfalse : urlIs u c = false) by (apply (Hmin (Z.to_nat (q - 1))); [lia | assumption]).
      intros Hu'. apply urlIs_true in Hu'. congruence.
  - intros [[d [Hd Hu]] Hmin].
    pose proof (atPosition_inRange _ _ _ Hd) as [Hp1 Hp2].
    assert (Hfind : findIndex (urlIs u) l = Some (Z.to_nat (p - 1))).
    { apply findIndex_Some. split.
      - exists d. split; [|now apply urlIs_true].
        rewrite <- atPosition_nth. now replace (Z.of_nat (Z.to_nat (p - 1)) + 1)%Z with p by lia.
      - intros j y Hj Hy. destruct (urlIs u y) eqn:Hy'; [|reflexivity].
        apply urlIs_true in Hy'. exfalso.
        apply (Hmin (Z.of_nat j + 1)%Z y); [lia | now rewrite atPosition_nth | assumption]. }
    rewrite Hfind. f_equal. lia.
Qed.

Lemma firstPosition_None (l : list ImageDetail) (u : string) :
  firstPosition l u = None <-> forall d, In d l -> url d <> Some u.
Proof.
  unfold firstPosition. destruct (findIndex (urlIs u) l) eqn:Hf.
  - split; [discriminate|]. intros H.
    apply findIndex_Some in Hf. destruct Hf as [[d [Hd Hu]] _].
    apply nth_error_In in Hd. apply urlIs_true in Hu. now apply H in Hd.
  - split; [|reflexivity]. intros _ d Hd Hu.
    rewrite findIndex_None in Hf. apply Hf in Hd. apply urlIs_true in Hu.
    congruence.
Qed.

(** The reconciler on an index it accepts. *)
Lemma reconcileHero_valid (l : list ImageDetail) (i : Z)
      (url0 : option string) (d : ImageDetail) :
  atPosition l i = Some d ->
  reconcileHero l (Some i) url0
  = (Some i, if truthyS (url d) then url d else dropAttachment url0).
Proof.
  intros Hd. pose proof (atPosition_inRange _ _ _ Hd) as Hr.
  apply inRange_test in Hr. unfold reconcileHero, candidateUrl. rewrite Hr.
  unfold atPosition in Hd. rewrite Hd.
  destruct (truthyS (url d)) eqn:Ht.
  - apply truthyS_true in Ht. destruct Ht as [u [Hu Hne]].
    rewrite Hu. apply nonEmpty_true in Hne. rewrite Hne. simpl.
    destruct (startsWith u "attachment://"); simpl; rewrite ?Hne; reflexivity.
  - unfold dropAttachment, isAttachment. destruct url0 as [u|]; simpl.
    + destruct (nonEmpty u) eqn:Hne; simpl.
      * destruct (startsWith u "attachment://"); simpl; rewrite ?Hne; simpl;
          reflexivity.
      * rewrite ?Hne. simpl. reflexivity.
    + reflexivity.
Qed.

(** The reconciler when the reply has no index it accepts. *)
Lemma reconcileHero_invalid (l : list ImageDetail) (idx0 : option Z)
      (url0 : option string) :
  (forall i, idx0 = Some i -> ~ inRange i l) ->
  reconcileHero l idx0 url0
  = (match dropAttachment url0 with
     | Some u => if nonEmpty u then firstPosition l u else None
     | None => None
     end, dropAttachment url0).
Proof.
  intros Hno. unfold reconcileHero.
  destruct idx0 as [i|].
  - destruct ((1 <=? i)%Z && (i <=? Z.of_nat (List.length l))%Z) eqn:Hr.
    + apply inRange_test in Hr. now apply (Hno i) in Hr.
    + unfold dropAttachment, isAttachment, firstPosition.
      destruct url0 as [u|]; [|reflexivity].
      destruct (nonEmpty u && startsWith u "attachment://"); [reflexivity|].
      destruct (nonEmpty u); [|reflexivity].
      destruct (findIndex (urlIs u) l); reflexivity.
  - unfold dropAttachment, isAttachment, firstPosition.
    destruct url0 as [u|]; [|reflexivity].
    destruct (nonEmpty u && startsWith u "attachment://"); [reflexivity|].
    destruct (nonEmpty u); [|reflexivity].
    destruct (findIndex (urlIs u) l); reflexivity.
Qed.

End HeroImage.

Section Reconciliation.
Context {R : Runtime}.

Lemma reconcile_Returned (offer : StructuredOffer) (rid : option string)
      (parsed : JsonValue) (r : GradingResult) :
  reconcile offer rid parsed = Returned r ->
  parsed <> JNull
  /\ (hero_image_index r, hero_image_url r)
     = reconcileHero (image_details offer)
         (heroImageIndexOf (prop parsed "hero_image_index"))
         (heroImageUrlOf (prop parsed "hero_image_url"))
  /\ score r = scoreOf (prop parsed "score")
  /\ reason r = reasonOf parsed
  /\ response_id r = rid
  /\ result_activity_id r = nullish (activity_id offer).
Proof.
  unfold reconcile. intros H.
  destruct (reconcileHero (image_details offer)
              (heroImageIndexOf (prop parsed "hero_image_index"))
              (heroImageUrlOf (prop parsed "hero_image_url"))) as [i u].
  destruct parsed; try discriminate; inversion H; subst; simpl;
    repeat split; discriminate.
Qed.

Lemma reconcile_defined (offer : StructuredOffer) (rid : option string)
      (parsed : JsonValue) :
  parsed <> JNull -> exists r, reconcile offer rid parsed = Returned r.
Proof.
  unfold reconcile. intros H.
  destruct (reconcileHero (image_details offer)
              (heroImageIndexOf (prop parsed "hero_image_index"))
              (heroImageUrlOf (prop parsed "hero_image_url"))) as [i u].
  destruct parsed; try congruence; eauto.
Qed.

Lemma heroImageUrlOf_nonEmpty (raw : value) (u : string) :
  heroImageUrlOf raw = Some u -> nonEmpty u = true.
Proof.
  unfold heroImageUrlOf. destruct raw as [x|]; [|discriminate].
  destruct (truthy x); [|discriminate].
  destruct (nonEmpty (trim (toStr x))) eqn:E; [|discriminate].
  intros H. inversion H; subst. exact E.
Qed.

Lemma isAttachment_nonEmpty (u : string) :
  isAttachment u = true -> nonEmpty u = true.
Proof. destruct u; [discriminate | reflexivity]. Qed.

Lemma dropAttachment_clean (o : option string) (u : string) :
  dropAttachment o = Some u -> o = Some u /\ isAttachment u = false.
Proof.
  unfold dropAttachment. destruct o as [x|]; [|discriminate].
  destruct (nonEmpty x && isAttachment x) eqn:E; [discriminate|].
  intros H. inversion H; subst. split; [reflexivity|].
  destruct (isAttachment u) eqn:Ha; [|reflexivity].
  rewrite (isAttachment_nonEmpty _ Ha) in E. discriminate.
Qed.

Lemma dropAttachment_keeps (u : string) :
  isAttachment u = false -> dropAttachment (Some u) = Some u.
Proof.
  intros H. unfold dropAttachment. rewrite H, andb_false_r. reflexivity.
Qed.

Lemma dropAttachment_drops (u : string) :
  isAttachment u = true -> dropAttachment (Some u) = None.
Proof.
  intros H. unfold dropAttachment.
  now rewrite H, (isAttachment_nonEmpty _ H).
Qed.

End Reconciliation.

(** Positions in a structured offer's image list are told apart by URL. *)
Lemma structured_position_unique
    (R : Runtime) (activity : JsonValue) (sourcePath : string)
    (p q : Z) (d c : ImageDetail) :
  let l := image_details (structureActivity activity sourcePath) in
  atPosition l p = Some d -> atPosition l q = Some c -> url c = url d ->
  q = p.
Proof.
  intros l Hp Hq Hu.
  assert (Hnd' : NoDup (map url l)).
  { unfold l.
    rewrite <- (definedUrls_hasUrl _ (structured_details_hasUrl R activity sourcePath)).
    apply Finite.Injective_map_NoDup;
      [|apply structured_urls_NoDup].
    intros x y E. now inversion E. }
  pose proof (atPosition_inRange _ _ _ Hp) as [Hp1 Hp2].
  pose proof (atPosition_inRange _ _ _ Hq) as [Hq1 Hq2].
  unfold atPosition, elementAt in Hp, Hq.
  destruct (0 <=? p - 1)%Z; [|discriminate].
  destruct (0 <=? q - 1)%Z; [|discriminate].
  assert (E : Z.to_nat (q - 1) = Z.to_nat (p - 1)).
  { apply (proj1 (NoDup_nth_error (map url l)) Hnd').
    - rewrite length_map. lia.
    - rewrite !nth_error_map, Hp, Hq. simpl. now rewrite Hu. }
  lia.
Qed.

(** C1 (amended). For every reply and every structured offer: an index
    present in the result lies in [1, length of image_details] and the
    result's URL is the URL at that position, whatever URL the reply
    carried; an in-range index of the reply is kept; an out-of-range index
    of the reply is discarded, the URL is then the reply's own unless it is
    an attachment reference, and the result's index is the position of the
    first image with that URL, absent when there is none. *)
Theorem hero_index_and_url_consistent
    (R : Runtime) (activity : JsonValue) (sourcePath : string)
    (rid : option string) (parsed : JsonValue) (r : GradingResult) :
  let offer := structureActivity activity sourcePath in
  let l := image_details offer in
  let idx0 := heroImageIndexOf (prop parsed "hero_image_index") in
  let url0 := heroImageUrlOf (prop parsed "hero_image_url") in
  reconcile offer rid parsed = Returned r ->
  (forall k, hero_image_index r = Some k ->
     inRange k l
     /\ exists d, atPosition l k = Some d /\ hero_image_url r = url d)
  /\ (forall i, idx0 = Some i -> inRange i l -> hero_image_index r = Some i)
  /\ (forall i, idx0 = Some i -> ~ inRange i l ->
        hero_image_url r = dropAttachment url0
        /\ hero_image_index r
           = match dropAttachment url0 with
             | Some u => firstPosition l u
             | None => None
             end).
Proof.
  intros offer l idx0 url0 Hrec.
  apply reconcile_Returned in Hrec.
  destruct Hrec as [_ [Hhero _]]. fold l idx0 url0 in Hhero.
  assert (Hurls : Forall hasUrl l)
    by apply structured_details_hasUrl.
  assert (Hvalid : forall i, inRange i l ->
            exists d, atPosition l i = Some d
                      /\ reconcileHero l (Some i) url0 = (Some i, url d)).
  { intros i Hi. destruct (inRange_atPosition _ _ Hi) as [d Hd].
    exists d. split; [assumption|]. rewrite (reconcileHero_valid _ _ _ _ Hd).
    rewrite Forall_forall in Hurls.
    pose proof (Hurls d (atPosition_In _ _ _ Hd)) as Hd'.
    apply hasUrl_truthy in Hd'. now rewrite Hd'. }
  assert (Hinvalid : (forall i, idx0 = Some i -> ~ inRange i l) ->
            hero_image_url r = dropAttachment url0
            /\ hero_image_index r
               = match dropAttachment url0 with
                 | Some u => firstPosition l u
                 | None => None
                 end).
  { intros Hno. rewrite (reconcileHero_invalid _ _ _ Hno) in Hhero.
    destruct (dropAttachment url0) as [u|] eqn:Hd.
    - apply dropAttachment_clean in Hd. destruct Hd as [Hd _].
      rewrite (heroImageUrlOf_nonEmpty _ _ Hd) in Hhero.
      inversion Hhero as [[Hi Hu]]. now split.
    - inversion Hhero as [[Hi Hu]]. now split. }
  split; [|split].
  - intros k Hk.
    destruct idx0 as [i|] eqn:Hidx.
    + destruct (Z_le_dec 1 i) as [H1|H1];
        [destruct (Z_le_dec i (Z.of_nat (List.length l))) as [H2|H2]|].
      * destruct (Hvalid i (conj H1 H2)) as [d [Hd Hrec]].
        rewrite Hrec in Hhero. inversion Hhero as [[Hi Hu]].
        rewrite Hk in Hi. inversion Hi; subst k.
        split; [now split | exists d; split; [assumption | congruence]].
      * destruct Hinvalid as [Hu Hi].
        { intros j Hj [_ Hj2]. inversion Hj; subst. contradiction. }
        rewrite Hk in Hi. destruct (dropAttachment url0) as [u|]; [|discriminate].
        symmetry in Hi. apply firstPosition_Some in Hi.
        destruct Hi as [[d [Hd Hdu]] _].
        split; [eapply atPosition_inRange; eauto|].
        exists d. split; [assumption | congruence].
      * destruct Hinvalid as [Hu Hi].
        { intros j Hj [Hj1 _]. inversion Hj; subst. contradiction. }
        rewrite Hk in Hi. destruct (dropAttachment url0) as [u|]; [|discriminate].
        symmetry in Hi. apply firstPosition_Some in Hi.
        destruct Hi as [[d [Hd Hdu]] _].
        split; [eapply atPosition_inRange; eauto|].
        exists d. split; [assumption | congruence].
    + destruct Hinvalid as [Hu Hi]; [discriminate|].
      rewrite Hk in Hi. destruct (dropAttachment url0) as [u|]; [|discriminate].
      symmetry in Hi. apply firstPosition_Some in Hi.
      destruct Hi as [[d [Hd Hdu]] _].
      split; [eapply atPosition_inRange; eauto|].
      exists d. split; [assumption | congruence].
  - intros i Hi Hr. destruct (Hvalid i Hr) as [d [Hd Hrec]].
    rewrite Hi, Hrec in Hhero. now inversion Hhero.
  - intros i Hi Hr. apply Hinvalid. intros j Hj.
    assert (j = i) by congruence. now subst.
Qed.

(** C1, as stated, fails: the reply's index 9 is out of range for five
    images, yet the result carries an index, 2, the position of the image
    whose URL the reply returned. *)
Lemma out_of_range_index_replaced_by_url_match :
  heroImageIndexOf
    (prop (Sample.reply (Some (JNum (Fin 9)))
                        (Some (JStr (Sample.imageUrl 2))))
          "hero_image_index") = Some 9%Z
  /\ ~ inRange 9 (image_details
                    (structureActivity (R := Sample.runtime)
                       (Sample.activity 5) "offers/101.json"))
  /\ exists r,
       reconcile (R := Sample.runtime)
         (structureActivity (R := Sample.runtime)
            (Sample.activity 5) "offers/101.json")
         None
         (Sample.reply (Some (JNum (Fin 9))) (Some (JStr (Sample.imageUrl 2))))
       = Returned r
       /\ hero_image_index r = Some 2%Z.
Proof.
  split; [reflexivity|]. split.
  - unfold inRange. vm_compute. intros [_ H]. apply H. reflexivity.
  - eexists. split; [vm_compute; reflexivity | reflexivity].
Qed.

Lemma hero_index_and_url_consistent_witness :
  exists r,
    reconcile (R := Sample.runtime)
      (structureActivity (R := Sample.runtime)
         (Sample.activity 5) "offers/101.json")
      None
      (Sample.reply (Some (JNum (Fin 3))) (Some (JStr "https://elsewhere/x.jpg")))
    = Returned r
    /\ hero_image_index r = Some 3%Z
    /\ hero_image_url r = Some (Sample.imageUrl 3).
Proof.
  eexists. split; [vm_compute; reflexivity|].
  match goal with
  | |- hero_image_index ?r = _ /\ _ =>
      pose proof (hero_index_and_url_consistent Sample.runtime
                    (Sample.activity 5) "offers/101.json" None
                    (Sample.reply (Some (JNum (Fin 3)))
                                  (Some (JStr "https://elsewhere/x.jpg")))
                    r eq_refl) as [Hpos _]
  end.
  split; [reflexivity|].
  destruct (Hpos 3%Z eq_refl) as [_ [d [Hd Hu]]].
  rewrite Hu. vm_compute in Hd. inversion Hd. reflexivity.
Defined.

(** C3 (amended). The result's URL uses the attachment-reference scheme
    only when it is the URL of the offer's own image at the result's index;
    so it never does when no image of the offer has such a URL; and a reply
    that carries an attachment-reference URL and no index the reconciler
    accepts yields neither index nor URL. *)
Theorem attachment_reference_discarded
    (R : Runtime) (offer : StructuredOffer) (rid : option string)
    (parsed : JsonValue) (r : GradingResult) :
  let l := image_details offer in
  let idx0 := heroImageIndexOf (prop parsed "hero_image_index") in
  let url0 := heroImageUrlOf (prop parsed "hero_image_url") in
  reconcile offer rid parsed = Returned r ->
  (forall u, hero_image_url r = Some u -> isAttachment u = true ->
     exists k d, hero_image_index r = Some k
                 /\ atPosition l k = Some d /\ url d = Some u)
  /\ ((forall d u, In d l -> url d = Some u -> isAttachment u = false) ->
      forall u, hero_image_url r = Some u -> isAttachment u = false)
  /\ (forall u, url0 = Some u -> isAttachment u = true ->
        (forall i, idx0 = Some i -> ~ inRange i l) ->
        hero_image_index r = None /\ hero_image_url r = None).
Proof.
  intros l idx0 url0 Hrec.
  apply reconcile_Returned in Hrec.
  destruct Hrec as [_ [Hhero _]]. fold l idx0 url0 in Hhero.
  assert (Hown : forall u, hero_image_url r = Some u -> isAttachment u = true ->
            exists k d, hero_image_index r = Some k
                        /\ atPosition l k = Some d /\ url d = Some u).
  { intros u Hu Ha.
    assert (Hcases : (exists i, idx0 = Some i /\ inRange i l)
                     \/ (forall i, idx0 = Some i -> ~ inRange i l)).
    { destruct idx0 as [i|]; [|right; discriminate].
      destruct (Z_le_dec 1 i) as [H1|H1];
        [destruct (Z_le_dec i (Z.of_nat (List.length l))) as [H2|H2]|].
      - left. exists i. split; [reflexivity | now split].
      - right. intros j Hj [_ Hj2]. inversion Hj; subst. contradiction.
      - right. intros j Hj [Hj1 _]. inversion Hj; subst. contradiction. }
    destruct Hcases as [[i [Hi Hr]] | Hno].
    - destruct (inRange_atPosition _ _ Hr) as [d Hd].
      rewrite Hi, (reconcileHero_valid _ _ _ _ Hd) in Hhero.
      inversion Hhero as [[Hidx Hurl]].
      exists i, d. split; [exact Hidx|]. split; [assumption|].
      destruct (truthyS (url d)); [congruence|].
      rewrite Hu in Hurl. symmetry in Hurl.
      apply dropAttachment_clean in Hurl. destruct Hurl as [_ Hc]. congruence.
    - rewrite (reconcileHero_invalid _ _ _ Hno) in Hhero.
      inversion Hhero as [[Hidx Hurl]]. rewrite Hu in Hurl. symmetry in Hurl.
      apply dropAttachment_clean in Hurl. destruct Hurl as [_ Hc]. congruence. }
  split; [exact Hown|]. split.
  - intros Hclean u Hu. destruct (isAttachment u) eqn:Ha; [|reflexivity].
    destruct (Hown u Hu Ha) as [k [d [_ [Hd Hdu]]]].
    rewrite <- Ha. apply (Hclean d); [eapply atPosition_In; eauto | assumption].
  - intros u Hu0 Ha Hno.
    rewrite (reconcileHero_invalid _ _ _ Hno), Hu0 in Hhero.
    rewrite (dropAttachment_drops _ Ha) in Hhero. now inversion Hhero.
Qed.

(** C3, as stated, fails: the offer's own first image has an
    attachment-reference URL, the reply picks index 1, and the result's
    URL is that attachment reference. *)
Lemma own_attachment_url_survives :
  exists r,
    reconcile (R := Sample.runtime)
      (structureActivity (R := Sample.runtime)
         (Sample.activityWith 102 [Sample.imageEntry "attachment://file-1"])
         "offers/102.json")
      None
      (Sample.reply (Some (JNum (Fin 1))) None)
    = Returned r
    /\ hero_image_url r = Some "attachment://file-1"
    /\ isAttachment "attachment://file-1" = true.
Proof.
  eexists. split; [vm_compute; reflexivity|]. split; reflexivity.
Qed.

Lemma attachment_reference_discarded_witness :
  exists r,
    reconcile (R := Sample.runtime)
      (structureActivity (R := Sample.runtime)
         (Sample.activity 5) "offers/101.json")
      None
      (Sample.reply None (Some (JStr " attachment://file-7 ")))
    = Returned r
    /\ hero_image_index r = None /\ hero_image_url r = None.
Proof.
  eexists. split; [vm_compute; reflexivity|].
  match goal with
  | |- hero_image_index ?r = _ /\ _ =>
      pose proof (attachment_reference_discarded Sample.runtime
                    (structureActivity (R := Sample.runtime)
                       (Sample.activity 5) "offers/101.json")
                    None
                    (Sample.reply None (Some (JStr " attachment://file-7 ")))
                    r eq_refl) as [_ [_ Hdrop]]
  end.
  apply (Hdrop "attachment://file-7"); [reflexivity | reflexivity |].
  intros i Hi. discriminate Hi.
Defined.

(** C4. When the reply's URL survives (non-empty, not an attachment
    reference) and the reply has no index the reconciler accepts, and the
    URL is that of some image of the offer, the result's index is the
    1-based position of the first image with that URL and the result's URL
    is that URL; in a structured offer any position holding the URL is the
    first, so a URL matching position 2 yields index 2. *)
Theorem url_match_sets_index (R : Runtime) :
  (forall (offer : StructuredOffer) (rid : option string)
          (parsed : JsonValue) (u : string) (p : Z),
      let l := image_details offer in
      parsed <> JNull ->
      heroImageUrlOf (prop parsed "hero_image_url") = Some u ->
      isAttachment u = false ->
      (forall i, heroImageIndexOf (prop parsed "hero_image_index") = Some i ->
                 ~ inRange i l) ->
      (exists d, atPosition l p = Some d /\ url d = Some u) ->
      (forall q c, (1 <= q < p)%Z -> atPosition l q = Some c ->
                   url c <> Some u) ->
      exists r, reconcile offer rid parsed = Returned r
                /\ hero_image_index r = Some p
                /\ hero_image_url r = Some u)
  /\ (forall (activity : JsonValue) (sourcePath : string)
             (rid : option string) (parsed : JsonValue) (u : string) (p : Z),
         let offer := structureActivity activity sourcePath in
         let l := image_details offer in
         parsed <> JNull ->
         heroImageUrlOf (prop parsed "hero_image_url") = Some u ->
         isAttachment u = false ->
         (forall i, heroImageIndexOf (prop parsed "hero_image_index") = Some i ->
                    ~ inRange i l) ->
         (exists d, atPosition l p = Some d /\ url d = Some u) ->
         exists r, reconcile offer rid parsed = Returned r
                   /\ hero_image_index r = Some p
                   /\ hero_image_url r = Some u).
Proof.
  assert (Hgeneral :
    forall (offer : StructuredOffer) (rid : option string)
           (parsed : JsonValue) (u : string) (p : Z),
      parsed <> JNull ->
      heroImageUrlOf (prop parsed "hero_image_url") = Some u ->
      isAttachment u = false ->
      (forall i, heroImageIndexOf (prop parsed "hero_image_index") = Some i ->
                 ~ inRange i (image_details offer)) ->
      (exists d, atPosition (image_details offer) p = Some d /\ url d = Some u) ->
      (forall q c, (1 <= q < p)%Z -> atPosition (image_details offer) q = Some c ->
                   url c <> Some u) ->
      exists r, reconcile offer rid parsed = Returned r
                /\ hero_image_index r = Some p
                /\ hero_image_url r = Some u).
  { intros offer rid parsed u p Hnn Hu Ha Hno Hat Hfirst.
    destruct (reconcile_defined offer rid parsed Hnn) as [r Hr].
    exists r. split; [assumption|].
    apply reconcile_Returned in Hr. destruct Hr as [_ [Hhero _]].
    rewrite (reconcileHero_invalid _ _ _ Hno), Hu in Hhero.
    rewrite (dropAttachment_keeps _ Ha) in Hhero.
    rewrite (heroImageUrlOf_nonEmpty _ _ Hu) in Hhero.
    assert (Hp : firstPosition (image_details offer) u = Some p)
      by (apply firstPosition_Some; split; assumption).
    rewrite Hp in Hhero. now inversion Hhero. }
  split; [exact Hgeneral|].
  intros activity sourcePath rid parsed u p offer l Hnn Hu Ha Hno Hat.
  apply Hgeneral; auto.
  intros q c Hq Hc Hcu. destruct Hat as [d [Hd Hdu]].
  assert (E : q = p).
  { apply (structured_position_unique R activity sourcePath p q d c);
      [exact Hd | exact Hc | congruence]. }
  lia.
Qed.

Lemma url_match_sets_index_witness :
  exists r,
    reconcile (R := Sample.runtime)
      (structureActivity (R := Sample.runtime)
         (Sample.activity 5) "offers/101.json")
      None
      (Sample.reply None (Some (JStr (Sample.imageUrl 2))))
    = Returned r
    /\ hero_image_index r = Some 2%Z
    /\ hero_image_url r = Some (Sample.imageUrl 2).
Proof.
  apply (proj2 (url_match_sets_index Sample.runtime)
               (Sample.activity 5) "offers/101.json" None
               (Sample.reply None (Some (JStr (Sample.imageUrl 2))))
               (Sample.imageUrl 2) 2%Z).
  - discriminate.
  - reflexivity.
  - reflexivity.
  - intros i Hi. discriminate Hi.
  - eexists. split; [vm_compute; reflexivity | reflexivity].
Defined.

Lemma definedUrls_length (l : list ImageDetail) :
  Forall hasUrl l -> List.length (definedUrls l) = List.length l.
Proof.
  intros H. rewrite <- (length_map Some), (definedUrls_hasUrl _ H).
  apply length_map.
Qed.

Lemma NoDup_app_disjoint {A : Type} (l1 l2 : list A) (x : A) :
  NoDup (l1 ++ l2) -> In x l2 -> ~ In x l1.
Proof.
  induction l1 as [|a l1 IH]; simpl; intros Hnd Hx; [tauto|].
  inversion Hnd as [|? ? Hna Hnd']; subst. intros [-> | Hin].
  - apply Hna. apply in_or_app. now right.
  - now apply IH.
Qed.

(** C10. The index is validated against the offer's full image list: for a
    structured offer with more than 8 images and a reply whose index [i]
    satisfies 8 < i <= length, the result keeps [i] and takes the URL at
    position [i] of the full list, although the request attaches only the
    first 8 URLs and the prompt lists only the first 8 images, none of
    which is that image. *)
Theorem index_beyond_slice_accepted
    (R : Runtime) (activity : JsonValue) (sourcePath : string)
    (rid : option string) (parsed : JsonValue) (i : Z) :
  let offer := structureActivity activity sourcePath in
  let l := image_details offer in
  parsed <> JNull ->
  heroImageIndexOf (prop parsed "hero_image_index") = Some i ->
  (Z.of_nat MAX_IMAGES_TO_REVIEW < i <= Z.of_nat (List.length l))%Z ->
  exists r d u,
    reconcile offer rid parsed = Returned r
    /\ hero_image_index r = Some i
    /\ atPosition l i = Some d /\ url d = Some u
    /\ hero_image_url r = Some u
    /\ request_images (requestOf offer)
       = definedUrls (sliceFirst MAX_IMAGES_TO_REVIEW l)
    /\ List.length (request_images (requestOf offer)) = MAX_IMAGES_TO_REVIEW
    /\ ~ In u (request_images (requestOf offer))
    /\ ~ In d (sliceFirst MAX_IMAGES_TO_REVIEW l)
    /\ imageLines offer
       = ("Image metadata includes Klook's image_type to help avoid stylised banners."
            :: "Always reference these numbers when returning hero_image_index and use the exact URL shown."
            :: mapIndexed imageLine 0 (sliceFirst MAX_IMAGES_TO_REVIEW l)).
Proof.
  intros offer l Hnn Hidx [Hlo Hhi].
  pose proof (structured_urls_NoDup R activity sourcePath) as Hnd.
  pose proof (structured_details_hasUrl R activity sourcePath) as Hurls.
  fold offer l in Hnd, Hurls.
  assert (Hr : inRange i l) by (unfold inRange, MAX_IMAGES_TO_REVIEW in *; lia).
  destruct (inRange_atPosition _ _ Hr) as [d Hd].
  assert (Hdl : In d l) by (eapply atPosition_In; eauto).
  rewrite Forall_forall in Hurls.
  destruct (Hurls d Hdl) as [u [Hu Hne]].
  destruct (reconcile_defined offer rid parsed Hnn) as [r Hrec].
  exists r, d, u. split; [assumption|].
  apply reconcile_Returned in Hrec. destruct Hrec as [_ [Hhero _]].
  fold l in Hhero. rewrite Hidx, (reconcileHero_valid _ _ _ _ Hd) in Hhero.
  assert (Ht : truthyS (url d) = true)
    by (apply hasUrl_truthy; exists u; auto).
  rewrite Ht in Hhero.
  assert (Hi : hero_image_index r = Some i) by congruence.
  assert (Hurl : hero_image_url r = Some u) by congruence.
  clear Hhero.
  split; [exact Hi|]. split; [exact Hd|]. split; [exact Hu|].
  split; [exact Hurl|].
  assert (Hsplit : l = (sliceFirst MAX_IMAGES_TO_REVIEW l
                          ++ skipn MAX_IMAGES_TO_REVIEW l)%list)
    by (symmetry; apply firstn_skipn).
  assert (Hlen : List.length (sliceFirst MAX_IMAGES_TO_REVIEW l)
                 = MAX_IMAGES_TO_REVIEW).
  { unfold sliceFirst. rewrite length_firstn.
    unfold MAX_IMAGES_TO_REVIEW in *. lia. }
  assert (Hfirst : Forall hasUrl (sliceFirst MAX_IMAGES_TO_REVIEW l)).
  { apply Forall_forall. intros x Hx. apply Hurls. rewrite Hsplit.
    apply in_or_app. now left. }
  assert (Hlate : In d (skipn MAX_IMAGES_TO_REVIEW l)).
  { unfold atPosition, elementAt in Hd.
    destruct (0 <=? i - 1)%Z; [|discriminate].
    apply (nth_error_In _ (Z.to_nat (i - 1) - MAX_IMAGES_TO_REVIEW)).
    rewrite nth_error_skipn. rewrite <- Hd. f_equal.
    unfold MAX_IMAGES_TO_REVIEW in *. lia. }
  assert (Hnotin : ~ In u (definedUrls (sliceFirst MAX_IMAGES_TO_REVIEW l))).
  { apply (NoDup_app_disjoint _ (definedUrls (skipn MAX_IMAGES_TO_REVIEW l))).
    - unfold definedUrls in *. rewrite <- flat_map_app, <- Hsplit. exact Hnd.
    - apply definedUrls_In. split; [assumption|]. exists d. auto. }
  split; [reflexivity|].
  split; [simpl; unfold imagePayload; now rewrite definedUrls_length|].
  split; [exact Hnotin|].
  split.
  - intros Hin. apply Hnotin. apply definedUrls_In. split; [assumption|].
    exists d. auto.
  - unfold imageLines. fold l.
    destruct (sliceFirst MAX_IMAGES_TO_REVIEW l) eqn:Hs; [discriminate Hlen|].
    reflexivity.
Qed.

Lemma index_beyond_slice_accepted_witness :
  exists r,
    reconcile (R := Sample.runtime)
      (structureActivity (R := Sample.runtime)
         (Sample.activity 10) "offers/101.json")
      None
      (Sample.reply (Some (JNum (Fin 10))) None)
    = Returned r
    /\ hero_image_index r = Some 10%Z
    /\ hero_image_url r = Some (Sample.imageUrl 10)
    /\ ~ In (Sample.imageUrl 10)
            (request_images
               (requestOf (R := Sample.runtime)
                  (structureActivity (R := Sample.runtime)
                     (Sample.activity 10) "offers/101.json"))).
Proof.
  destruct (index_beyond_slice_accepted Sample.runtime
              (Sample.activity 10) "offers/101.json" None
              (Sample.reply (Some (JNum (Fin 10))) None) 10%Z)
    as [r [d [u [Hrec [Hi [Hd [Hu [Hurl [_ [_ [Hnotin _]]]]]]]]]]].
  - discriminate.
  - reflexivity.
  - vm_compute. split; [reflexivity | discriminate].
  - exists r. split; [exact Hrec|]. split; [exact Hi|].
    vm_compute in Hd. inversion Hd; subst d. vm_compute in Hu.
    inversion Hu; subst u. split; [exact Hurl | exact Hnotin].
Defined.

(* ================================================================== *)
(** ** Score normalisation *)

Lemma Qltb_true (a b : Q) : Qltb a b = true <-> (a < b)%Q.
Proof.
  unfold Qltb. rewrite negb_true_iff. split.
  - intros H. apply Qnot_le_lt. intros Hle.
    apply Qle_bool_iff in Hle. congruence.
  - intros H. destruct (Qle_bool b a) eqn:E; [|reflexivity].
    apply Qle_bool_iff in E. exfalso. exact (Qlt_not_le _ _ H E).
Qed.

Lemma Qltb_false (a b : Q) : Qltb a b = false <-> (b <= a)%Q.
Proof.
  unfold Qltb. rewrite negb_false_iff. apply Qle_bool_iff.
Qed.

(** The value kept for a finite score. *)
Lemma clamp_finite (q : Q) :
  mathMin (Fin 5) (mathMax (Fin 0) (Fin q))
  = if Qltb 0 q then (if Qltb q 5 then Fin q else Fin 5) else Fin 0.
Proof.
  unfold mathMin, mathMax. simpl.
  destruct (Qltb 0 q); simpl; [reflexivity|].
  reflexivity.
Qed.

Lemma clamp_range (n : number) :
  isNaN n = false ->
  exists q, mathMin (Fin 5) (mathMax (Fin 0) n) = Fin q
            /\ (0 <= q)%Q /\ (q <= 5)%Q.
Proof.
  destruct n as [| | |q]; simpl; intros H; try discriminate.
  - exists 5%Q. split; [reflexivity|]. split; discriminate.
  - exists 0%Q. split; [reflexivity|]. split; discriminate.
  - rewrite clamp_finite. destruct (Qltb 0 q) eqn:E0.
    + destruct (Qltb q 5) eqn:E5.
      * exists q. split; [reflexivity|].
        apply Qltb_true in E0, E5. split; apply Qlt_le_weak; assumption.
      * exists 5%Q. split; [reflexivity|]. split; discriminate.
    + exists 0%Q. split; [reflexivity|]. split; discriminate.
Qed.

(** C5 (amended). The score field is coerced to a number and clamped to
    [0, 5]: a finite number at most 0 maps to 0, one strictly between 0 and
    5 to itself, one at least 5 to 5, so -3, 0, 4.7, 5, 9 map to 0, 0, 4.7,
    5, 5; the score is absent when the coercion gives NaN, as for a missing
    field, an object or a text that is not a numeric literal; a boolean or
    a numeric text is coerced and clamped; a score that is present lies in
    [0, 5]. *)
Theorem score_coerced_and_clamped (R : Runtime) :
  (forall q, (q <= 0)%Q -> scoreOf (Some (JNum (Fin q))) = Some (Fin 0))
  /\ (forall q, (0 < q)%Q -> (q < 5)%Q ->
                scoreOf (Some (JNum (Fin q))) = Some (Fin q))
  /\ (forall q, (5 <= q)%Q -> scoreOf (Some (JNum (Fin q))) = Some (Fin 5))
  /\ (scoreOf (Some (JNum (Fin (-3)))) = Some (Fin 0)
      /\ scoreOf (Some (JNum (Fin 0))) = Some (Fin 0)
      /\ scoreOf (Some (JNum (Fin (47 # 10)))) = Some (Fin (47 # 10))
      /\ scoreOf (Some (JNum (Fin 5))) = Some (Fin 5)
      /\ scoreOf (Some (JNum (Fin 9))) = Some (Fin 5))
  /\ (forall v, toNumber v = NaN -> scoreOf v = None)
  /\ (scoreOf None = None
      /\ (forall fields, scoreOf (Some (JObj fields)) = None)
      /\ (forall s, StringToNumber s = NaN -> scoreOf (Some (JStr s)) = None))
  /\ (scoreOf (Some (JBool true)) = Some (Fin 1)
      /\ scoreOf (Some (JBool false)) = Some (Fin 0)
      /\ (forall s q, StringToNumber s = Fin q ->
                      scoreOf (Some (JStr s)) = scoreOf (Some (JNum (Fin q)))))
  /\ (forall v n, scoreOf v = Some n ->
        exists q, n = Fin q /\ (0 <= q)%Q /\ (q <= 5)%Q).
Proof.
  assert (Hfin : forall q, scoreOf (Some (JNum (Fin q)))
                 = Some (if Qltb 0 q
                         then (if Qltb q 5 then Fin q else Fin 5)
                         else Fin 0)).
  { intros q. unfold scoreOf. simpl toNumber. simpl isNaN. simpl negb.
    cbv iota. now rewrite clamp_finite. }
  split; [|split; [|split; [|split; [|split; [|split; [|split]]]]]].
  - intros q Hq. rewrite Hfin. apply Qltb_false in Hq. now rewrite Hq.
  - intros q H0 H5. rewrite Hfin. apply Qltb_true in H0, H5.
    now rewrite H0, H5.
  - intros q Hq. rewrite Hfin.
    assert (H0 : Qltb 0 q = true).
    { apply Qltb_true. apply Qlt_le_trans with (y := 5%Q); [reflexivity | exact Hq]. }
    apply Qltb_false in Hq. now rewrite H0, Hq.
  - repeat split; rewrite Hfin; reflexivity.
  - intros v Hv. unfold scoreOf. now rewrite Hv.
  - split; [reflexivity|]. split; [reflexivity|].
    intros s Hs. unfold scoreOf. simpl. now rewrite Hs.
  - split; [reflexivity|]. split; [reflexivity|].
    intros s q Hs. unfold scoreOf. simpl. now rewrite Hs.
  - intros v n. unfold scoreOf.
    destruct (isNaN (toNumber v)) eqn:E; simpl; [discriminate|].
    intros H. inversion H; subst.
    destruct (clamp_range _ E) as [q [Hq Hr]]. exists q. now split.
Qed.

(** C5, as stated, fails: the boolean [true] is no number, yet its score
    is not absent but 1. *)
Lemma boolean_score_is_not_absent :
  scoreOf (R := Sample.runtime) (Some (JBool true)) = Some (Fin 1)
  /\ scoreOf (R := Sample.runtime) (Some (JBool true)) <> None.
Proof. split; [reflexivity | discriminate]. Qed.

Lemma score_coerced_and_clamped_witness :
  scoreOf (R := Sample.runtime) (Some (JNum (Fin (47 # 10))))
  = Some (Fin (47 # 10))
  /\ scoreOf (R := Sample.runtime) (Some (JStr "abc")) = None.
Proof.
  destruct (score_coerced_and_clamped Sample.runtime)
    as [_ [Hmid [_ [_ [_ [[_ [_ Hnan]] _]]]]]].
  split.
  - apply Hmid; reflexivity.
  - apply Hnan. reflexivity.
Defined.

(* ================================================================== *)
(** ** Replies that are not JSON *)

(** C2. For a reply whose text is empty or is not JSON, neither as a whole
    nor from its first opening brace to its last closing brace, [gradeOffer]
    returns a result, so the batch goes on; the result records the request
    identifier and its reason is the fixed empty-reply sentence or embeds
    the raw text; but its score, read back from the [null] placeholder by
    [Number], is 0 and not absent. *)
Theorem parse_failure_scored_zero
    (R : Runtime) (client : Client) (offer : StructuredOffer)
    (response : JsonValue) (text : string) :
  client (requestOf offer) = Returned response ->
  collectResponseText response = Returned text ->
  text = ""
  \/ (JSON_parse text = None
      /\ forall m, braceMatch text = Some m -> JSON_parse m = None) ->
  exists r,
    gradeOffer (Returned client) offer = Returned r
    /\ score r = Some (Fin 0)
    /\ reason r = (if nonEmpty text
                   then "Failed to parse JSON: " ++ text
                   else "Empty response from model.")
    /\ response_id r = responseIdOf response
    /\ hero_image_index r = None
    /\ hero_image_url r = None.
Proof.
  intros Hcall Htext Hfail. unfold gradeOffer. rewrite Hcall, Htext.
  assert (Hparsed :
    parseJsonResponse text
    = JObj [("score", JNull);
            ("reason", JStr (if nonEmpty text
                             then "Failed to parse JSON: " ++ text
                             else "Empty response from model."))]).
  { unfold parseJsonResponse, parseFailure.
    destruct Hfail as [-> | [Hwhole Hbrace]]; [reflexivity|].
    destruct (nonEmpty text); [simpl | reflexivity].
    rewrite Hwhole. destruct (braceMatch text) as [m|]; [|reflexivity].
    now rewrite (Hbrace m eq_refl). }
  rewrite Hparsed.
  eexists. split; [reflexivity|]. simpl.
  repeat split; reflexivity.
Qed.

Lemma parse_failure_scored_zero_witness :
  exists r,
    gradeOffer (R := Sample.runtime)
      (Returned
         (fun _ => Returned (Sample.response "resp_1" "I cannot grade this.")))
      (structureActivity (R := Sample.runtime)
         (Sample.activity 2) "offers/101.json")
    = Returned r
    /\ score r = Some (Fin 0)
    /\ reason r = "Failed to parse JSON: I cannot grade this."
    /\ response_id r = Some "resp_1".
Proof.
  destruct (parse_failure_scored_zero Sample.runtime
              (fun _ => Returned (Sample.response "resp_1" "I cannot grade this."))
              (structureActivity (R := Sample.runtime)
                 (Sample.activity 2) "offers/101.json")
              (Sample.response "resp_1" "I cannot grade this.")
              "I cannot grade this.")
    as [r [Hr [Hs [Hreason [Hid _]]]]].
  - reflexivity.
  - reflexivity.
  - right. split; [reflexivity|]. intros m Hm. discriminate Hm.
  - exists r. repeat split; assumption.
Defined.

(* ================================================================== *)
(** ** Description Renderer *)

Section Renderer.
Context {R : Runtime}.

(** A loop that pushes at most one block per item is a filter and a map. *)
Lemma flat_map_guarded {A B C : Type} (p : A -> bool) (f : A -> B)
    (q : B -> bool) (g : B -> C) (l : list A) :
flat_map (fun x => if p x then (if q (f x) then [g (f x)] else []) else []) l
= map g (filter q (map f (filter p l))).
Proof.
induction l as [|x l IH]; [reflexivity|]. simpl.
destruct (p x); simpl; [|exact IH].
destruct (q (f x)); simpl; now rewrite IH.
Qed.

Lemma filter_all {A : Type} (p : A -> bool) (l : list A) :
Forall (fun x => p x = true) l -> filter p l = l.
Proof.
induction 1 as [|x l Hx _ IH]; [reflexivity|].
simpl. now rewrite Hx, IH.
Qed.

Lemma nonEmpty_append_l (s t : string) :
nonEmpty s = true -> nonEmpty (s ++ t) = true.
Proof. destruct s; [discriminate | reflexivity]. Qed.

Lemma describedGroup_nonEmpty (g : GroupText) :
nonEmpty (groupContent g) = true -> nonEmpty (describedGroup g) = true.
Proof.
intros H. unfold describedGroup. destruct (nonEmpty (groupName g)); auto.
Qed.

Lemma describedSection_nonEmpty (s : SectionText) :
nonEmpty (describedBody s) = true -> nonEmpty (describedSection s) = true.
Proof.
intros H. unfold describedSection. destruct (nonEmpty (sectionName s)); auto.
Qed.

Lemma groupBlock_described (group : JsonValue) :
groupBlock group
= if truthy group
  then (let g := {| groupName := trimmedText (prop group "group_name");
                    groupContent := trimmedText (prop group "content") |} in
        if nonEmpty (groupContent g) then [describedGroup g] else [])
  else [].
Proof.
unfold groupBlock, describedGroup. simpl.
destruct (truthy group); [|reflexivity].
destruct (nonEmpty (trimmedText (prop group "content"))); simpl;
  [|reflexivity].
destruct (nonEmpty (trimmedText (prop group "group_name"))); reflexivity.
Qed.

Lemma groupBlocks_described (section : JsonValue) :
filter nonEmpty (flat_map groupBlock (arrayOrEmpty (prop section "groups")))
= map describedGroup
      (filter (fun g => nonEmpty (groupContent g))
              (groupsOf trimmedText section)).
Proof.
unfold groupsOf.
rewrite (flat_map_ext _ _ groupBlock_described).
rewrite (flat_map_guarded truthy
           (fun group => {| groupName := trimmedText (prop group "group_name");
                            groupContent := trimmedText (prop group "content") |})
           (fun g => nonEmpty (groupContent g)) describedGroup).
apply filter_all. apply Forall_forall. intros b Hb.
apply in_map_iff in Hb. destruct Hb as [g [<- Hg]].
apply filter_In in Hg. apply describedGroup_nonEmpty. tauto.
Qed.

Lemma sectionChunk_described (section : JsonValue) :
sectionChunk section
= if isObjectLike section
  then (let s := {| sectionName := trimmedText (prop section "section_name");
                    sectionGroups := groupsOf trimmedText section |} in
        if nonEmpty (describedBody s) then [describedSection s] else [])
  else [].
Proof.
unfold sectionChunk. destruct (isObjectLike section); [|reflexivity].
cbv zeta. rewrite groupBlocks_described.
unfold describedSection, describedBody, blankLine. simpl.
destruct (nonEmpty (join _ _)); simpl; [|reflexivity].
destruct (nonEmpty (trimmedText (prop section "section_name"))); reflexivity.
Qed.

Lemma renderSections_described (sectionInfo : value) :
renderSections sectionInfo
= describedRendering (sectionsOf trimmedText sectionInfo).
Proof.
unfold renderSections, describedRendering, sectionsOf.
assert (Harr : forall sections,
          join (newline ++ newline)
               (filter nonEmpty (flat_map sectionChunk sections))
          = join blankLine
              (map describedSection
                 (filter (fun s => nonEmpty (describedBody s))
                    (map (fun s => {| sectionName := trimmedText (prop s "section_name");
                                      sectionGroups := groupsOf trimmedText s |})
                         (filter isObjectLike sections))))).
{ intros sections.
  rewrite (flat_map_ext _ _ sectionChunk_described).
  rewrite (flat_map_guarded isObjectLike
             (fun s => {| sectionName := trimmedText (prop s "section_name");
                          sectionGroups := groupsOf trimmedText s |})
             (fun s => nonEmpty (describedBody s)) describedSection).
  unfold blankLine. f_equal.
  apply filter_all. apply Forall_forall. intros b Hb.
  apply in_map_iff in Hb. destruct Hb as [s [<- Hs]].
  apply filter_In in Hs. apply describedSection_nonEmpty. tauto. }
destruct sectionInfo as [[]|]; try reflexivity. apply Harr.
Qed.

End Renderer.

(** C7 (amended). The renderer reads every section, group, name and
    content through a coercion to text that trims surrounding white space,
    skipping sections that are not objects and groups that are falsy; on
    the section tree so read it drops groups with empty content, gives a
    named group a level-3 heading and leaves an unnamed one bare, joins the
    groups of a section by a blank line, drops sections whose body is
    empty, gives a named section a level-2 heading and leaves an unnamed
    one bare, and joins the sections by a blank line; the output is the
    empty string for an absent input, for an empty sequence and for any
    input that is not a sequence. *)
Theorem renderSections_as_described (R : Runtime) :
  (forall sectionInfo,
      renderSections sectionInfo
      = describedRendering (sectionsOf trimmedText sectionInfo))
  /\ renderSections None = ""
  /\ renderSections (Some (JArr [])) = ""
  /\ (forall v, (forall items, v <> JArr items) -> renderSections (Some v) = "").
Proof.
  split; [apply renderSections_described|].
  split; [reflexivity|]. split; [reflexivity|].
  intros v Hv. destruct v; try reflexivity. now destruct (Hv items).
Qed.

(** C7, as stated, fails: a group whose content is a single space has a
    content that is not empty, yet the renderer drops it, and with it the
    section; read as given, the description yields the heading and the
    space. *)
Lemma blank_content_is_dropped :
  renderSections (R := Sample.runtime)
    (Some (JArr [JObj [("section_name", JStr "Good to know");
                       ("groups", JArr [JObj [("content", JStr " ")]])]]))
  = ""
  /\ describedRendering
       (sectionsOf (textAsGiven (R := Sample.runtime))
          (Some (JArr [JObj [("section_name", JStr "Good to know");
                             ("groups", JArr [JObj [("content", JStr " ")]])]])))
     = "## Good to know" ++ newline ++ " ".
Proof. split; reflexivity. Qed.

(* ================================================================== *)
(** ** Sorting *)

Section Sorting.
Variable A : Type.
Variable cmp : A -> A -> comparison.

Lemma insertSorted_Permutation (x : A) (l : list A) :
  Permutation (insertSorted cmp x l) (x :: l).
Proof.
  induction l as [|y l IH]; simpl; [reflexivity|].
  destruct (cmp x y); try reflexivity.
  rewrite IH. apply perm_swap.
Qed.

Lemma arraySort_Permutation (l : list A) : Permutation (arraySort cmp l) l.
Proof.
  induction l as [|x l IH]; simpl; [reflexivity|].
  rewrite insertSorted_Permutation. now constructor.
Qed.

(** The comparator is consistent on the elements of [dom]. *)
Variable dom : list A.
Hypothesis cmp_total : forall a b, cmp a b = Gt -> cmp b a <> Gt.
Hypothesis cmp_trans :
  forall a b c, In a dom -> In b dom -> In c dom ->
    notAfter cmp a b -> notAfter cmp b c -> notAfter cmp a c.

Lemma insertSorted_sorted (x : A) (l : list A) :
  In x dom -> incl l dom ->
  StronglySorted (notAfter cmp) l ->
  StronglySorted (notAfter cmp) (insertSorted cmp x l).
Proof.
  intros Hx Hl. induction 1 as [|y l Hs IH Hall]; simpl.
  - constructor; constructor.
  - assert (Hy : In y dom) by (apply Hl; now left).
    assert (Hl' : incl l dom) by (intros z Hz; apply Hl; now right).
    assert (Hkeep : notAfter cmp x y ->
              StronglySorted (notAfter cmp) (x :: y :: l)).
    { intros Hxy. constructor; [now constructor|]. constructor; [assumption|].
      apply Forall_forall. intros z Hz. rewrite Forall_forall in Hall.
      apply (cmp_trans x y z); auto. }
    destruct (cmp x y) eqn:E.
    + apply Hkeep. unfold notAfter. congruence.
    + apply Hkeep. unfold notAfter. congruence.
    + constructor; [now apply IH|].
      apply Forall_forall. intros z Hz.
      apply (Permutation_in _ (insertSorted_Permutation x l)) in Hz.
      destruct Hz as [<- | Hz].
      * now apply cmp_total.
      * rewrite Forall_forall in Hall. now apply Hall.
Qed.

Lemma arraySort_sorted (l : list A) :
  incl l dom -> StronglySorted (notAfter cmp) (arraySort cmp l).
Proof.
  induction l as [|x l IH]; intros Hl; simpl; [constructor|].
  apply insertSorted_sorted.
  - apply Hl. now left.
  - intros z Hz. apply Hl. right.
    now apply (Permutation_in _ (arraySort_Permutation l)).
  - apply IH. intros z Hz. apply Hl. now right.
Qed.

(** Two sorted arrangements of the same elements coincide when the order
    tells the elements apart. *)
Lemma sorted_unique (l1 : list A) :
  forall l2,
    (forall a b, In a l1 -> In b l1 ->
                 notAfter cmp a b -> notAfter cmp b a -> a = b) ->
    Permutation l1 l2 ->
    StronglySorted (notAfter cmp) l1 -> StronglySorted (notAfter cmp) l2 ->
    l1 = l2.
Proof.
  induction l1 as [|x l1 IH]; intros l2 Hanti Hperm Hs1 Hs2.
  - apply Permutation_nil in Hperm. now subst.
  - destruct l2 as [|y l2].
    + apply Permutation_sym, Permutation_nil in Hperm. discriminate.
    + inversion Hs1 as [|? ? Hs1' Hall1]; subst.
      inversion Hs2 as [|? ? Hs2' Hall2]; subst.
      rewrite Forall_forall in Hall1, Hall2.
      assert (Hxy : x = y).
      { assert (Hy : In y (x :: l1))
          by (apply (Permutation_in _ (Permutation_sym Hperm)); now left).
        assert (Hx : In x (y :: l2))
          by (apply (Permutation_in _ Hperm); now left).
        destruct Hy as [Hy | Hy]; [assumption|].
        destruct Hx as [Hx | Hx]; [now symmetry|].
        apply Hanti; [now left | now right | now apply Hall1 | now apply Hall2]. }
      subst y. f_equal. apply IH.
      * intros a b Ha Hb. apply Hanti; now right.
      * now apply Permutation_cons_inv in Hperm.
      * assumption.
      * assumption.
Qed.

Lemma arraySort_permutation_invariant (l1 l2 : list A) :
  incl l1 dom ->
  (forall a b, In a l1 -> In b l1 ->
               notAfter cmp a b -> notAfter cmp b a -> a = b) ->
  Permutation l1 l2 ->
  arraySort cmp l1 = arraySort cmp l2.
Proof.
  intros Hdom Hanti Hperm. apply sorted_unique.
  - intros a b Ha Hb. apply Hanti.
    + now apply (Permutation_in _ (arraySort_Permutation l1)).
    + now apply (Permutation_in _ (arraySort_Permutation l1)).
  - rewrite arraySort_Permutation, Hperm. symmetry. apply arraySort_Permutation.
  - now apply arraySort_sorted.
  - apply arraySort_sorted. intros z Hz. apply Hdom.
    now apply (Permutation_in _ (Permutation_sym Hperm)).
Qed.

End Sorting.

(* ================================================================== *)
(** ** The order of the results *)

Section ResultOrder.
Context {R : Runtime} {LO : LocaleOrder R}.

(** Strings that tie compare alike on both sides. *)
Lemma localeCompare_tie_r (x y z : string) :
  localeCompare x y = Eq -> localeCompare z x = localeCompare z y.
Proof.
  intros H. rewrite (localeCompare_antisym x z), (localeCompare_antisym y z).
  now rewrite (localeCompare_tie x y z H).
Qed.

Lemma localeCompare_notAfter_trans (x y z : string) :
  localeCompare x y <> Gt -> localeCompare y z <> Gt ->
  localeCompare x z <> Gt.
Proof.
  intros Hxy Hyz.
  destruct (localeCompare x y) eqn:E1; [| |congruence].
  - now rewrite (localeCompare_tie x y z E1).
  - destruct (localeCompare y z) eqn:E2; [| |congruence].
    + rewrite <- (localeCompare_tie_r y z x E2), E1. discriminate.
    + rewrite (localeCompare_trans x y z E1 E2). discriminate.
Qed.

Lemma compareResults_same_id (a b : GradingResult) :
  idString a = idString b ->
  compareResults a b = localeCompare (reason a) (reason b).
Proof.
  intros E. unfold compareResults. now rewrite E, String.eqb_refl.
Qed.

Lemma compareResults_other_id (a b : GradingResult) :
  idString a <> idString b ->
  compareResults a b = localeCompare (idString a) (idString b).
Proof.
  intros N. unfold compareResults.
  destruct (String.eqb_spec (idString a) (idString b)); [contradiction|].
  reflexivity.
Qed.

Lemma compareResults_same_key (a b : GradingResult) :
  sortKey a = sortKey b -> compareResults a b = Eq.
Proof.
  unfold sortKey. intros E. inversion E as [[Hid Hreason]].
  rewrite (compareResults_same_id a b Hid), Hreason.
  apply localeCompare_refl.
Qed.

Lemma compareResults_antisym (a b : GradingResult) :
  compareResults b a = CompOpp (compareResults a b).
Proof.
  unfold compareResults. rewrite (String.eqb_sym (idString b) (idString a)).
  destruct (String.eqb (idString a) (idString b));
    apply localeCompare_antisym.
Qed.

Lemma compareResults_total (a b : GradingResult) :
  compareResults a b = Gt -> compareResults b a <> Gt.
Proof.
  intros H. rewrite compareResults_antisym, H. simpl. discriminate.
Qed.

Lemma tiesNone_idsToldApart (l : list GradingResult) :
  tiesNone l -> idsToldApart l.
Proof.
  intros Hties a b Ha Hb Hid.
  destruct (string_dec (idString a) (idString b)) as [E | N]; [assumption|].
  assert (Hab : a = b).
  { apply Hties; auto. now rewrite (compareResults_other_id a b N). }
  now subst.
Qed.

Section OnList.
Variable l : list GradingResult.
Hypothesis Hids : idsToldApart l.

(** Distinct identifier strings of the list do not tie. *)
Lemma other_ids_ordered (a b : GradingResult) :
  In a l -> In b l -> idString a <> idString b ->
  localeCompare (idString a) (idString b) <> Eq.
Proof. intros Ha Hb N E. apply N. now apply Hids. Qed.

Lemma compareResults_notAfter_trans (a b c : GradingResult) :
  In a l -> In b l -> In c l ->
  notAfter compareResults a b -> notAfter compareResults b c ->
  notAfter compareResults a c.
Proof.
  unfold notAfter. intros Ha Hb Hc Hab Hbc.
  destruct (string_dec (idString a) (idString b)) as [Eab | Nab];
    destruct (string_dec (idString b) (idString c)) as [Ebc | Nbc].
  - rewrite compareResults_same_id in * by congruence.
    eapply localeCompare_notAfter_trans; eauto.
  - rewrite (compareResults_other_id a c) by congruence.
    rewrite (compareResults_other_id b c Nbc) in Hbc. now rewrite Eab.
  - rewrite (compareResults_other_id a c) by congruence.
    rewrite (compareResults_other_id a b Nab) in Hab. now rewrite <- Ebc.
  - rewrite (compareResults_other_id a b Nab) in Hab.
    rewrite (compareResults_other_id b c Nbc) in Hbc.
    assert (Hlt1 : localeCompare (idString a) (idString b) = Lt).
    { pose proof (other_ids_ordered a b Ha Hb Nab).
      destruct (localeCompare (idString a) (idString b)); congruence. }
    assert (Hlt2 : localeCompare (idString b) (idString c) = Lt).
    { pose proof (other_ids_ordered b c Hb Hc Nbc).
      destruct (localeCompare (idString b) (idString c)); congruence. }
    pose proof (localeCompare_trans _ _ _ Hlt1 Hlt2) as Hlt.
    destruct (string_dec (idString a) (idString c)) as [Eac | Nac].
    + rewrite Eac, localeCompare_refl in Hlt. discriminate.
    + rewrite (compareResults_other_id a c Nac), Hlt. discriminate.
Qed.

Lemma notAfter_mayPrecede (a b : GradingResult) :
  In a l -> In b l ->
  notAfter compareResults a b -> mayPrecede a b.
Proof.
  unfold notAfter, mayPrecede. intros Ha Hb H.
  destruct (string_dec (idString a) (idString b)) as [E | N].
  - right. split; [assumption|]. now rewrite <- (compareResults_same_id a b E).
  - left. split; [assumption|].
    rewrite (compareResults_other_id a b N) in H.
    pose proof (other_ids_ordered a b Ha Hb N).
    destruct (localeCompare (idString a) (idString b)); congruence.
Qed.

End OnList.

Lemma tiesNone_antisym (l : list GradingResult) :
  tiesNone l ->
  forall a b, In a l -> In b l ->
    notAfter compareResults a b -> notAfter compareResults b a -> a = b.
Proof.
  intros Hties a b Ha Hb Hab Hba. apply Hties; auto.
  unfold notAfter in *. rewrite compareResults_antisym in Hba.
  destruct (compareResults a b); simpl in *; congruence.
Qed.

(** Sorting a list whose identifiers are told apart orders it. *)
Lemma arraySort_ordered (l : list GradingResult) :
  idsToldApart l ->
  StronglySorted (notAfter compareResults) (arraySort compareResults l).
Proof.
  intros Hids. apply (arraySort_sorted _ compareResults l).
  - apply compareResults_total.
  - apply (compareResults_notAfter_trans l Hids).
  - apply incl_refl.
Qed.

End ResultOrder.

(** The code-unit order is such a collation. *)
Lemma sample_collation : LocaleOrder Sample.runtime.
Proof.
  split; simpl.
  - intros x. now apply OrderedTypeEx.String_as_OT.cmp_eq.
  - intros x y. apply OrderedTypeEx.String_as_OT.cmp_antisym.
  - intros x y z Hxy Hyz.
    apply OrderedTypeEx.String_as_OT.cmp_lt.
    apply OrderedTypeEx.String_as_OT.cmp_lt in Hxy, Hyz.
    eapply OrderedTypeEx.String_as_OT.lt_trans; eauto.
  - intros x y z Hxy.
    apply OrderedTypeEx.String_as_OT.cmp_eq in Hxy. now subst.
Qed.

(* ================================================================== *)
(** ** Worker pool *)

Lemma nth_error_split_at {A : Type} (l : list A) :
  forall k x, nth_error l k = Some x ->
    l = (firstn k l ++ x :: skipn (S k) l)%list.
Proof.
  induction l as [|a l IH]; intros [|k] x H; try discriminate.
  - simpl in H. inversion H. reflexivity.
  - simpl in H. simpl. f_equal. now apply IH.
Qed.

Lemma skipn_cons_next {A : Type} (l : list A) :
  forall n x rest, skipn n l = x :: rest ->
    skipn (S n) l = rest
    /\ firstn (S n) l = (firstn n l ++ [x])%list.
Proof.
  induction l as [|a l IH]; intros [|n] x rest H; simpl in H;
    try discriminate.
  - inversion H; subst. now split.
  - destruct (IH n x rest H) as [Hs Hf]. split; [exact Hs|].
    change (firstn (S (S n)) (a :: l)) with (a :: firstn (S n) l).
    now rewrite Hf.
Qed.

Lemma Forall2_In_l {A B : Type} (P : A -> B -> Prop) (l : list A)
      (m : list B) (x : A) :
  Forall2 P l m -> In x l -> exists y, In y m /\ P x y.
Proof.
  induction 1 as [|a b l m Hab _ IH]; intros Hin; [destruct Hin|].
  destruct Hin as [<-|Hin].
  - exists b. split; [now left | assumption].
  - destruct (IH Hin) as [y [Hy Hxy]]. exists y. split; [now right | assumption].
Qed.

Lemma Forall2_In_r {A B : Type} (P : A -> B -> Prop) (l : list A)
      (m : list B) (y : B) :
  Forall2 P l m -> In y m -> exists x, In x l /\ P x y.
Proof.
  induction 1 as [|a b l m Hab _ IH]; intros Hin; [destruct Hin|].
  destruct Hin as [<-|Hin].
  - exists a. split; [now left | assumption].
  - destruct (IH Hin) as [x [Hx Hxy]]. exists x. split; [now right | assumption].
Qed.

Lemma limiterOf_positive (concurrency : number) :
  (1 <= limiterOf concurrency)%nat.
Proof.
  unfold limiterOf. destruct concurrency; try apply Nat.le_refl. lia.
Qed.

Lemma requestsFor_app (R : Runtime) (getClient : completion Client)
      (l1 l2 : list StructuredOffer) :
  requestsFor getClient (l1 ++ l2)
  = (requestsFor getClient l1 ++ requestsFor getClient l2)%list.
Proof. destruct getClient; simpl; [apply map_app | reflexivity]. Qed.

Lemma requestsFor_In (R : Runtime) (getClient : completion Client)
      (l : list StructuredOffer) (q : Request) :
  In q (requestsFor getClient l) -> exists o, In o l /\ q = requestOf o.
Proof.
  destruct getClient; simpl; [|intros []].
  intros H. apply in_map_iff in H. destruct H as [o [<- Ho]]. eauto.
Qed.

(** Bringing an element to the front of both sides of a rearrangement. *)
Ltac perm_front x :=
  repeat (rewrite <- (Permutation_middle _ _ x) || rewrite <- app_comm_cons).

Section Pool.
Context {R : Runtime}.
Variable getClient : completion Client.
Variable limiter : nat.
Variable offers : list StructuredOffer.

Lemma launch_invariant :
  (1 <= limiter)%nat ->
  poolInvariant getClient limiter offers (launch getClient limiter offers).
Proof.
  intros Hpos. exists [], [], limiter. simpl.
  split; [constructor|]. split; [constructor|].
  split; [reflexivity|]. split; [reflexivity|]. split; [reflexivity|].
  split; [tauto|]. split; [discriminate|].
  rewrite length_firstn. split; [|split; lia].
  intros Hq.
  assert (Hlen : (limiter < List.length offers)%nat).
  { destruct (Nat.lt_ge_cases limiter (List.length offers)) as [H|H];
      [assumption|].
    now rewrite (skipn_all2 offers H) in Hq. }
  lia.
Qed.

(** One completion keeps the invariant and takes one offer off the work
    that is left. *)
Lemma completeOne_invariant (k : nat) (st : Pool) :
  (k < List.length (inFlight st))%nat ->
  poolInvariant getClient limiter offers st ->
  poolInvariant getClient limiter offers (completeOne getClient k st)
  /\ (S (List.length (inFlight (completeOne getClient k st))
         + List.length (queue (completeOne getClient k st)))
      = List.length (inFlight st) + List.length (queue st))%nat.
Proof.
  intros Hk [done [failed [n [Hres [Hfailed [Hperm [Hqueue [Hiss
    [Hrej [Herr [Hbusy [Hmax Hmin]]]]]]]]]]]].
  unfold completeOne.
  destruct (nth_error (inFlight st) k) as [offer|] eqn:Hnth;
    [|apply nth_error_None in Hnth; lia].
  pose proof (nth_error_split_at _ _ _ Hnth) as Hsplit.
  set (f1 := firstn k (inFlight st)) in *.
  set (f2 := skipn (S k) (inFlight st)) in *.
  assert (Hlen : List.length (inFlight st)
                 = S (List.length f1 + List.length f2)).
  { rewrite Hsplit at 1. rewrite length_app. simpl. lia. }
  rewrite Hsplit in Hperm.
  destruct (gradeOffer getClient offer) as [result|error] eqn:Hgrade.
  - destruct (queue st) as [|next rest] eqn:Hq;
      cbn [queue inFlight results issued rejection].
    + split; [|rewrite length_app, Hlen; simpl; lia].
      exists (done ++ [offer])%list, failed, n.
      cbn [queue inFlight results issued rejection].
      split; [apply Forall2_app; [assumption | now repeat constructor]|].
      split; [assumption|].
      split.
      { rewrite <- Hperm. rewrite <- !app_assoc. perm_front offer.
        apply perm_skip. cbn [app]. now rewrite ?app_nil_r. }
      split; [assumption|]. split; [assumption|]. split; [assumption|].
      split; [assumption|]. split; [congruence|].
      split; [rewrite length_app; lia | assumption].
    + destruct (skipn_cons_next offers n next rest (eq_sym Hqueue))
        as [Hskip Hfirst].
      split; [|rewrite !length_app, Hlen; simpl; lia].
      exists (done ++ [offer])%list, failed, (S n).
      cbn [queue inFlight results issued rejection].
      split; [apply Forall2_app; [assumption | now repeat constructor]|].
      split; [assumption|].
      split.
      { rewrite Hfirst, <- Hperm. rewrite <- !app_assoc.
        perm_front offer. apply perm_skip.
        perm_front next. apply perm_skip.
        cbn [app]. now rewrite ?app_nil_r. }
      split; [now symmetry|].
      split; [now rewrite Hfirst, requestsFor_app, Hiss|].
      split; [assumption|]. split; [assumption|].
      assert (Hsame : List.length (f1 ++ next :: f2)
                      = List.length (inFlight st))
        by (rewrite length_app, Hlen; simpl; lia).
      rewrite Hsame.
      split; [intros _; apply Hbusy; discriminate|].
      split; [assumption | lia].
  - cbn [queue inFlight results issued rejection].
    split; [|rewrite length_app, Hlen; simpl; lia].
    exists done, (failed ++ [offer])%list, n.
    cbn [queue inFlight results issued rejection].
    split; [assumption|].
    split; [apply Forall_app; split; [assumption|]; repeat constructor; eauto|].
    split.
    { rewrite <- Hperm. rewrite <- !app_assoc. perm_front offer.
      apply perm_skip. cbn [app]. now rewrite ?app_nil_r. }
    split; [assumption|]. split; [assumption|].
    split.
    { split; [destruct (rejection st); discriminate|].
      intros E. destruct failed; discriminate. }
    split.
    { intros e. destruct (rejection st) as [first|] eqn:Hr; intros E;
        inversion E; subst e.
      - destruct (Herr first eq_refl) as [o [Ho He]].
        exists o. split; [apply in_or_app; now left | assumption].
      - exists offer. split; [apply in_or_app; right; now left | assumption]. }
    rewrite !length_app. simpl.
    split; [intros Hne; specialize (Hbusy Hne); lia|].
    split; [lia | assumption].
Qed.

Lemma drain_invariant (fuel : nat) :
  forall schedule st,
    poolInvariant getClient limiter offers st ->
    poolInvariant getClient limiter offers (drain getClient fuel schedule st).
Proof.
  induction fuel as [|fuel IH]; intros schedule st Hinv; simpl;
    [assumption|].
  destruct (inFlight st) as [|o f] eqn:Hf; [assumption|].
  apply IH. apply completeOne_invariant; [|assumption].
  rewrite Hf. apply Nat.mod_upper_bound. discriminate.
Qed.

(** With one unit of fuel per offer at work, the pool runs until no call
    is awaited. *)
Lemma drain_settles (fuel : nat) :
  forall schedule st,
    poolInvariant getClient limiter offers st ->
    (List.length (inFlight st) + List.length (queue st) <= fuel)%nat ->
    inFlight (drain getClient fuel schedule st) = [].
Proof.
  induction fuel as [|fuel IH]; intros schedule st Hinv Hfuel; simpl.
  - destruct (inFlight st); [reflexivity | simpl in Hfuel; lia].
  - destruct (inFlight st) as [|o f] eqn:Hf; [assumption|].
    set (k := (hd 0%nat schedule mod List.length (o :: f))%nat).
    assert (Hk : (k < List.length (inFlight st))%nat)
      by (rewrite Hf; apply Nat.mod_upper_bound; discriminate).
    destruct (completeOne_invariant k st Hk Hinv) as [Hinv' Hm].
    apply IH; [assumption|]. rewrite Hf in Hm. simpl in *. lia.
Qed.

(** What the invariant says of a pool in which no call is awaited. *)
Lemma poolInvariant_settled (st : Pool) :
  (1 <= limiter)%nat ->
  poolInvariant getClient limiter offers st ->
  inFlight st = [] ->
  (exists n, issued st = requestsFor getClient (firstn n offers)
             /\ (Nat.min limiter (List.length offers) <= n)%nat)
  /\ (forall q, In q (issued st) -> exists o, In o offers /\ q = requestOf o)
  /\ (rejection st = None ->
      issued st = requestsFor getClient offers
      /\ exists done,
           Permutation done offers
           /\ Forall2 (gradedAs getClient) done (results st))
  /\ (forall e, rejection st = Some e ->
        exists o, In o offers /\ gradeOffer getClient o = Thrown e)
  /\ ((exists o e, In o offers /\ gradeOffer getClient o = Thrown e) ->
      rejection st <> None).
Proof.
  intros Hpos [done [failed [n [Hres [Hfailed [Hperm [Hqueue [Hiss
    [Hrej [Herr [Hbusy [Hmax Hmin]]]]]]]]]]]] Hidle.
  rewrite Hidle, app_nil_r in Hperm.
  assert (Hshifted : forall o, In o (done ++ failed)%list -> In o offers).
  { intros o Ho. apply (Permutation_in _ Hperm) in Ho.
    rewrite <- (firstn_skipn n offers). apply in_or_app. now left. }
  assert (Hall : rejection st = None ->
            failed = [] /\ firstn n offers = offers).
  { intros Hnone. apply Hrej in Hnone. split; [assumption|]. subst failed.
    destruct (queue st) as [|q0 qs] eqn:Hq.
    - rewrite <- (firstn_skipn n offers) at 2.
      now rewrite <- Hqueue, app_nil_r.
    - assert (H : (List.length (inFlight st) + List.length (@nil StructuredOffer)
                   = limiter)%nat) by (apply Hbusy; discriminate).
      rewrite Hidle in H. simpl in H. lia. }
  split; [exists n; now split|]. split; [|split; [|split]].
  - intros q Hq. rewrite Hiss in Hq.
    destruct (requestsFor_In R _ _ _ Hq) as [o [Ho ->]].
    exists o. split; [|reflexivity].
    rewrite <- (firstn_skipn n offers). apply in_or_app. now left.
  - intros Hnone. destruct (Hall Hnone) as [-> Hfirst].
    rewrite app_nil_r, Hfirst in Hperm. rewrite Hfirst in Hiss.
    split; [assumption|]. exists done. now split.
  - intros e He. destruct (Herr e He) as [o [Ho Hthrown]].
    exists o. split; [|assumption]. apply Hshifted, in_or_app. now right.
  - intros [o [e [Ho He]]] Hnone. destruct (Hall Hnone) as [-> Hfirst].
    rewrite app_nil_r, Hfirst in Hperm.
    apply (Permutation_in _ (Permutation_sym Hperm)) in Ho.
    destruct (Forall2_In_l _ _ _ _ Hres Ho) as [r [_ Hr]].
    unfold gradedAs in Hr. congruence.
Qed.

End Pool.

(** A batch run is the pool of its workers run until no call is awaited. *)
Lemma gradeOffers_final (R : Runtime) (getClient : completion Client)
      (offers : list StructuredOffer) (schedule : list nat)
      (concurrency : number) :
  exists final,
    poolInvariant getClient (limiterOf concurrency) offers final
    /\ inFlight final = []
    /\ requests (gradeOffers getClient schedule offers concurrency)
       = issued final
    /\ outcome (gradeOffers getClient schedule offers concurrency)
       = match rejection final with
         | Some error => Thrown error
         | None => Returned (arraySort compareResults (results final))
         end.
Proof.
  pose proof (launch_invariant getClient (limiterOf concurrency) offers
                (limiterOf_positive concurrency)) as Hinv0.
  unfold gradeOffers. destruct offers as [|o0 rest] eqn:Hoffers.
  - exists (launch getClient (limiterOf concurrency) []).
    split; [assumption|]. simpl. rewrite firstn_nil.
    destruct getClient; now repeat split.
  - rewrite <- Hoffers in *. cbv zeta.
    exists (drain getClient (List.length offers) schedule
              (launch getClient (limiterOf concurrency) offers)).
    split; [now apply drain_invariant|].
    split; [|split; reflexivity].
    apply drain_settles with (limiter := limiterOf concurrency)
                             (offers := offers); [assumption|].
    simpl. rewrite <- length_app, firstn_skipn. apply Nat.le_refl.
Qed.

(** What a batch run returns and sends. *)
Lemma gradeOffers_run (R : Runtime) (getClient : completion Client)
      (offers : list StructuredOffer) (schedule : list nat)
      (concurrency : number) :
  let run := gradeOffers getClient schedule offers concurrency in
  (exists n, requests run = requestsFor getClient (firstn n offers)
             /\ (Nat.min (limiterOf concurrency) (List.length offers) <= n)%nat)
  /\ (forall q, In q (requests run) -> exists o, In o offers /\ q = requestOf o)
  /\ (forall rs, outcome run = Returned rs ->
        requests run = requestsFor getClient offers
        /\ exists done raw,
             Permutation done offers
             /\ Forall2 (gradedAs getClient) done raw
             /\ rs = arraySort compareResults raw)
  /\ (forall e, outcome run = Thrown e ->
        exists o, In o offers /\ gradeOffer getClient o = Thrown e)
  /\ ((exists rs, outcome run = Returned rs)
      <-> forall o, In o offers -> exists r, gradedAs getClient o r).
Proof.
  intros run.
  destruct (gradeOffers_final R getClient offers schedule concurrency)
    as [final [Hinv [Hidle [Hreq Hout]]]].
  destruct (poolInvariant_settled getClient (limiterOf concurrency) offers
              final (limiterOf_positive concurrency) Hinv Hidle)
    as [Hprefix [Hsent [Hdone [Hthrown Hsome]]]].
  unfold run. rewrite Hreq, Hout.
  split; [exact Hprefix|]. split; [exact Hsent|]. split; [|split; [|split]].
  - intros rs. destruct (rejection final) as [e|]; [discriminate|].
    intros E. inversion E; subst rs.
    destruct (Hdone eq_refl) as [Hall [done [Hperm Hres]]].
    split; [assumption|]. exists done, (results final). now repeat split.
  - intros e. destruct (rejection final) as [e'|]; [|discriminate].
    intros E. inversion E; subst e'. now apply Hthrown.
  - intros [rs Hrs] o Ho.
    destruct (rejection final) as [e|] eqn:Hr; [discriminate|].
    destruct (Hdone eq_refl) as [_ [done [Hperm Hres]]].
    apply (Permutation_in _ (Permutation_sym Hperm)) in Ho.
    destruct (Forall2_In_l _ _ _ _ Hres Ho) as [r [_ Hgraded]]. eauto.
  - intros Hall. destruct (rejection final) as [e|] eqn:Hr; [|eauto].
    destruct (Hthrown e eq_refl) as [o [Ho He]].
    destruct (Hall o Ho) as [r Hgraded]. unfold gradedAs in Hgraded.
    congruence.
Qed.

Lemma Forall2_Permutation {A B : Type} (P : A -> B -> Prop) (l l' : list A) :
  Permutation l l' ->
  forall m, Forall2 P l m ->
    exists m', Forall2 P l' m' /\ Permutation m m'.
Proof.
  induction 1 as [|x l l' Hp IH|x y l|l l' l'' Hp1 IH1 Hp2 IH2]; intros m Hm.
  - inversion Hm; subst. exists []. split; constructor.
  - inversion Hm as [|? b ? m0 Hx Hrest]; subst.
    destruct (IH _ Hrest) as [m' [Hf Hp']].
    exists (b :: m'). split; [now constructor | now constructor].
  - inversion Hm as [|? b ? m0 Hy Hrest]; subst.
    inversion Hrest as [|? c ? m1 Hx Hrest']; subst.
    exists (c :: b :: m1). split; [now repeat constructor | apply perm_swap].
  - destruct (IH1 _ Hm) as [m' [Hf' Hp']].
    destruct (IH2 _ Hf') as [m'' [Hf'' Hp'']].
    exists m''. split; [assumption | now transitivity m'].
Qed.

Lemma gradedAs_functional (R : Runtime) (getClient : completion Client)
      (l : list StructuredOffer) :
  forall m m', Forall2 (gradedAs getClient) l m -> Forall2 (gradedAs getClient) l m' ->
               m = m'.
Proof.
  induction l as [|o l IH]; intros m m' H H'; inversion H; inversion H'; subst.
  - reflexivity.
  - f_equal; [unfold gradedAs in *; congruence | now apply IH].
Qed.

Lemma gradedAs_all (R : Runtime) (getClient : completion Client)
      (l : list StructuredOffer) :
  (forall o, In o l -> exists r, gradedAs getClient o r) ->
  exists m, Forall2 (gradedAs getClient) l m.
Proof.
  induction l as [|o l IH]; intros H; [exists []; constructor|].
  destruct (H o (or_introl eq_refl)) as [r Hr].
  destruct IH as [m Hm]; [intros; apply H; now right|].
  exists (r :: m). now constructor.
Qed.

(** C8 (amended). Under a collation that orders strings as their
    collation keys are ordered, so that distinct strings may tie, the
    sorted output is a rearrangement of the results; when identifier
    strings that tie are equal, each result may precede every later one by
    identifier string first and reason second; the output is the same for
    every arrival order of the same results provided the comparator ties
    no two distinct results; so, when every offer is graded and the
    comparator ties no two distinct results, two runs of the batch with
    any schedules and any worker counts return the same list. *)
Theorem sorted_output_independent_of_arrival
    (R : Runtime) (LO : LocaleOrder R) :
  (forall l, Permutation (arraySort compareResults l) l
             /\ (idsToldApart l ->
                 StronglySorted mayPrecede (arraySort compareResults l)))
  /\ (forall l1 l2, Permutation l1 l2 -> tiesNone l1 ->
        arraySort compareResults l1 = arraySort compareResults l2)
  /\ (forall (getClient : completion Client) (offers : list StructuredOffer)
             (schedule1 schedule2 : list nat) (workers1 workers2 : number),
        (forall o, In o offers -> exists r, gradedAs getClient o r) ->
        (forall rs, Forall2 (gradedAs getClient) offers rs -> tiesNone rs) ->
        exists rs,
          outcome (gradeOffers getClient schedule1 offers workers1)
          = Returned rs
          /\ outcome (gradeOffers getClient schedule2 offers workers2)
             = Returned rs).
Proof.
  assert (Hinv : forall l1 l2, Permutation l1 l2 -> tiesNone l1 ->
            arraySort compareResults l1 = arraySort compareResults l2).
  { intros l1 l2 Hperm Hties.
    apply (arraySort_permutation_invariant _ compareResults l1).
    - apply compareResults_total.
    - apply (compareResults_notAfter_trans l1).
      now apply tiesNone_idsToldApart.
    - apply incl_refl.
    - now apply tiesNone_antisym.
    - assumption. }
  split; [|split; [exact Hinv|]].
  - intros l. split; [apply arraySort_Permutation|]. intros Hids.
    pose proof (arraySort_ordered l Hids) as Hs.
    assert (Hin : forall x, In x (arraySort compareResults l) -> In x l).
    { intros x. apply Permutation_in, arraySort_Permutation. }
    induction Hs as [|a l' Hs IH Hall]; constructor.
    + apply IH. intros x Hx. apply Hin. now right.
    + apply Forall_forall. intros b Hb. rewrite Forall_forall in Hall.
      apply (notAfter_mayPrecede l Hids).
      * apply Hin. now left.
      * apply Hin. now right.
      * now apply Hall.
  - intros getClient offers schedule1 schedule2 workers1 workers2 Hall Hties.
    destruct (gradedAs_all R getClient offers Hall) as [rs Hrs].
    assert (Hrun : forall schedule workers,
              outcome (gradeOffers getClient schedule offers workers)
              = Returned (arraySort compareResults rs)).
    { intros schedule workers.
      destruct (gradeOffers_run R getClient offers schedule workers)
        as [_ [_ [Hret [_ Hok]]]].
      destruct (proj2 Hok Hall) as [out Hout]. rewrite Hout. f_equal.
      destruct (Hret out Hout) as [_ [done [raw [Hperm [Hraw ->]]]]].
      destruct (Forall2_Permutation _ _ _ Hperm _ Hraw) as [rs' [Hrs' Hp]].
      rewrite (gradedAs_functional R getClient offers rs rs' Hrs Hrs').
      symmetry. apply Hinv; [now symmetry|].
      exact (Hties rs' Hrs'). }
    exists (arraySort compareResults rs). split; apply Hrun.
Qed.

(** C8, as stated, fails: two results with the same identifier and the
    same reason differ in their request identifier; the sort leaves them
    in arrival order, so the run in which the second call completes first
    returns them in the other order, and the exported text differs. *)
Lemma equal_keys_keep_arrival_order :
  exists a b,
    outcome (gradeOffers (R := Sample.runtime)
               (Returned Sample.busyClient) [0%nat]
               [structureActivity (R := Sample.runtime)
                  (Sample.titled "Harbour cruise") "offers/a.json";
                structureActivity (R := Sample.runtime)
                  (Sample.titled "Harbour cruise at dusk") "offers/b.json"]
               (Fin 2))
    = Returned [a; b]
    /\ outcome (gradeOffers (R := Sample.runtime)
                  (Returned Sample.busyClient) [1%nat]
                  [structureActivity (R := Sample.runtime)
                     (Sample.titled "Harbour cruise") "offers/a.json";
                   structureActivity (R := Sample.runtime)
                     (Sample.titled "Harbour cruise at dusk") "offers/b.json"]
                  (Fin 2))
       = Returned [b; a]
    /\ sortKey (R := Sample.runtime) a = sortKey (R := Sample.runtime) b
    /\ a <> b
    /\ csvText (R := Sample.runtime) [a; b]
       <> csvText (R := Sample.runtime) [b; a].
Proof.
  do 2 eexists. split; [vm_compute; reflexivity|].
  split; [vm_compute; reflexivity|].
  split; [reflexivity|]. split; [discriminate|].
  vm_compute. discriminate.
Qed.

Lemma sorted_output_independent_of_arrival_witness :
  LocaleOrder Sample.runtime
  /\ arraySort (compareResults (R := Sample.runtime))
       [callFailed (R := Sample.runtime)
          (structureActivity (R := Sample.runtime)
             (Sample.titled "Harbour cruise") "offers/a.json")
          (JStr "timeout");
        callFailed (R := Sample.runtime)
          (structureActivity (R := Sample.runtime)
             (Sample.titled "Harbour cruise") "offers/a.json")
          (JStr "refused")]
     = arraySort (compareResults (R := Sample.runtime))
         [callFailed (R := Sample.runtime)
            (structureActivity (R := Sample.runtime)
               (Sample.titled "Harbour cruise") "offers/a.json")
            (JStr "refused");
          callFailed (R := Sample.runtime)
            (structureActivity (R := Sample.runtime)
               (Sample.titled "Harbour cruise") "offers/a.json")
            (JStr "timeout")].
Proof.
  split; [exact sample_collation|].
  apply (proj1 (proj2 (sorted_output_independent_of_arrival
                         Sample.runtime sample_collation))).
  - apply perm_swap.
  - intros x y [<- | [<- | []]] [<- | [<- | []]] H;
      try reflexivity; vm_compute in H; discriminate H.
Defined.

(* ================================================================== *)
(** ** Orchestrator entry *)

Lemma upperChar_lowerChar (c d : ascii) :
  Ascii.eqb (upperChar c) (upperChar d) = Ascii.eqb (lowerChar c) (lowerChar d).
Proof.
  assert (Hall :
    forallb (fun n =>
      forallb (fun m =>
        Bool.eqb (Ascii.eqb (upperChar (ascii_of_nat n))
                            (upperChar (ascii_of_nat m)))
                 (Ascii.eqb (lowerChar (ascii_of_nat n))
                            (lowerChar (ascii_of_nat m))))
        (seq 0 256)) (seq 0 256) = true) by (vm_compute; reflexivity).
  rewrite forallb_forall in Hall.
  assert (Hc : In (nat_of_ascii c) (seq 0 256))
    by (apply in_seq; pose proof (nat_ascii_bounded c); lia).
  assert (Hd : In (nat_of_ascii d) (seq 0 256))
    by (apply in_seq; pose proof (nat_ascii_bounded d); lia).
  specialize (Hall _ Hc). rewrite forallb_forall in Hall.
  specialize (Hall _ Hd). rewrite !ascii_nat_embedding in Hall.
  now apply Bool.eqb_prop in Hall.
Qed.

Lemma sameIgnoringCase_upper (s : string) :
  forall t, sameIgnoringCase s t
            = String.eqb (toUpperCase s) (toUpperCase t).
Proof.
  induction s as [|c s IH]; intros [|d t]; simpl; try reflexivity.
  now rewrite IH, upperChar_lowerChar.
Qed.

Lemma requiresGrading_sentinel (R : Runtime) (offer : StructuredOffer) :
  requiresGrading offer = negb (sameIgnoringCase (statusText offer) "CURATED").
Proof.
  unfold requiresGrading, statusLabel, statusText, textAsGiven.
  now rewrite sameIgnoringCase_upper.
Qed.

(** C9. The offers queued are exactly the loaded offers whose status label
    differs from the curated sentinel up to letter case, in their order:
    the requests sent are those of the first of them, at least as many as
    there are workers or such offers, and each is the request of such an
    offer; the run ends normally exactly when each of them is graded, and
    then each got its request, in order, and the export holds the sorted
    results of exactly these offers; a rejected run exports nothing and
    carries the error of one of them; an empty eligible set ends the run
    with no request sent and nothing exported, and a batch over no offers
    returns no result and sends no request. *)
Theorem curated_offers_never_graded
    (R : Runtime) (getClient : completion Client) (schedule : list nat)
    (concurrency : number) (offers : list StructuredOffer) :
  let eligible := filter requiresGrading offers in
  let run := curate getClient schedule concurrency offers in
  (forall o, In o eligible
             <-> In o offers
                 /\ sameIgnoringCase (statusText o) "CURATED" = false)
  /\ (exists n,
        sent run = requestsFor getClient (firstn n eligible)
        /\ (eligible <> [] ->
            (Nat.min (limiterOf concurrency) (List.length eligible) <= n)%nat))
  /\ (forall q, In q (sent run) -> exists o, In o eligible /\ q = requestOf o)
  /\ (ending run = Returned tt
      <-> forall o, In o eligible -> exists r, gradedAs getClient o r)
  /\ (ending run = Returned tt -> sent run = map requestOf eligible)
  /\ (ending run = Returned tt -> eligible <> [] ->
      exists done raw,
        Permutation done eligible
        /\ Forall2 (gradedAs getClient) done raw
        /\ exported run = Some (csvText (arraySort compareResults raw)))
  /\ (forall text, exported run = Some text ->
        exists done raw,
          Permutation done eligible
          /\ Forall2 (gradedAs getClient) done raw
          /\ text = csvText (arraySort compareResults raw))
  /\ (forall e, ending run = Thrown e ->
        exported run = None
        /\ exists o, In o eligible /\ gradeOffer getClient o = Thrown e)
  /\ (eligible = [] ->
      ending run = Returned tt /\ sent run = [] /\ exported run = None)
  /\ (outcome (gradeOffers getClient schedule [] concurrency) = Returned []
      /\ requests (gradeOffers getClient schedule [] concurrency) = []).
Proof.
  intros eligible run.
  split.
  { intros o. unfold eligible. rewrite filter_In, requiresGrading_sentinel.
    now rewrite negb_true_iff. }
  pose proof (gradeOffers_run R getClient eligible schedule concurrency)
    as [Hprefix [Hsent [Hret [Hthrown Hok]]]].
  cbv zeta in Hprefix, Hsent, Hret, Hthrown, Hok.
  unfold run, curate. fold eligible.
  destruct eligible as [|o0 rest] eqn:Hel.
  - cbn [ending sent exported].
    split; [exists 0%nat; split; [now destruct getClient | congruence]|].
    split; [intros q []|].
    split; [split; [intros _ o [] | reflexivity]|].
    split; [reflexivity|]. split; [congruence|].
    split; [discriminate|]. split; [discriminate|].
    split; [now repeat split | now split].
  - rewrite <- Hel in *.
    assert (Hne : eligible <> []) by (rewrite Hel; discriminate).
    assert (Hclient : (forall o, In o eligible ->
                         exists r, gradedAs getClient o r) ->
              requestsFor getClient eligible = map requestOf eligible).
    { intros Hall. destruct getClient as [client|error]; [reflexivity|].
      destruct (Hall o0) as [r Hr]; [rewrite Hel; now left|].
      discriminate Hr. }
    destruct (outcome (gradeOffers getClient schedule eligible concurrency))
      as [rs|e] eqn:Hout; cbn [ending sent exported].
    + destruct (Hret rs eq_refl) as [Hall [done [raw [Hp [Hf Hrs]]]]].
      assert (Hgraded : forall o, In o eligible ->
                exists r, gradedAs getClient o r)
        by (apply Hok; eauto).
      split.
      { destruct Hprefix as [n [Hn Hmin]]. exists n. now split. }
      split; [exact Hsent|].
      split; [split; [intros _; exact Hgraded | reflexivity]|].
      split; [intros _; now rewrite Hall, Hclient|].
      split; [intros _ _; exists done, raw; now subst rs|].
      split.
      { intros text E. inversion E; subst text. exists done, raw.
        now subst rs. }
      split; [discriminate|]. split; [contradiction | now split].
    + destruct (Hthrown e eq_refl) as [o [Ho He]].
      split.
      { destruct Hprefix as [n [Hn Hmin]]. exists n. now split. }
      split; [exact Hsent|].
      split.
      { split; [discriminate|]. intros Hall.
        destruct (proj2 Hok Hall) as [rs Hrs]. discriminate Hrs. }
      split; [discriminate|]. split; [discriminate|].
      split; [discriminate|].
      split.
      { intros e' E. inversion E; subst e'. split; [reflexivity|]. eauto. }
      split; [contradiction | now split].
Qed.

(* ================================================================== *)
(** ** Strings *)

Lemma append_assoc (a b c : string) : (a ++ b) ++ c = a ++ (b ++ c).
Proof. induction a as [|x a IH]; simpl; [reflexivity | now rewrite IH]. Qed.

Lemma append_empty_r (a : string) : a ++ "" = a.
Proof. induction a as [|x a IH]; simpl; [reflexivity | now rewrite IH]. Qed.

Lemma length_append (a b : string) :
  String.length (a ++ b) = (String.length a + String.length b)%nat.
Proof. induction a as [|x a IH]; simpl; [reflexivity | now rewrite IH]. Qed.

Lemma length_substring_0 (s : string) :
  forall n, (n <= String.length s)%nat ->
            String.length (substring 0 n s) = n.
Proof.
  induction s as [|c s IH]; intros [|n] H; simpl in *; try reflexivity; try lia.
  rewrite IH; [reflexivity | lia].
Qed.

Lemma stringExists_append (p : ascii -> bool) (a b : string) :
  stringExists p (a ++ b) = stringExists p a || stringExists p b.
Proof.
  induction a as [|x a IH]; simpl; [reflexivity|].
  now rewrite IH, orb_assoc.
Qed.

Lemma code_is (c : ascii) (n : nat) :
  (nat_of_ascii c =? n)%nat = true -> c = ascii_of_nat n.
Proof.
  intros H. apply Nat.eqb_eq in H. rewrite <- H.
  symmetry. apply ascii_nat_embedding.
Qed.

(* ================================================================== *)
(** ** Reading the export back *)

Section CsvRoundTrip.
Context {R : Runtime}.

Lemma pushText_empty (t : string * list string * list (list string)) :
  pushText "" t = t.
Proof. now destruct t as [[cell cells] records]. Qed.

Lemma scan_plain_text (s rest : string) :
  stringExists csvSpecial s = false ->
  scanCsv Plain (s ++ rest) = pushText s (scanCsv Plain rest).
Proof.
  induction s as [|c s IH]; intros H; simpl in *.
  - now rewrite pushText_empty.
  - apply orb_false_iff in H. destruct H as [Hc Hs].
    unfold csvSpecial in Hc. cbv zeta in Hc.
    apply orb_false_iff in Hc. destruct Hc as [Hc H10].
    apply orb_false_iff in Hc. destruct Hc as [H34 H44].
    rewrite H34, H44, H10, (IH Hs).
    now destruct (scanCsv Plain rest) as [[cell cells] records].
Qed.

Lemma scan_quoted_body (s rest : string) :
  scanCsv Quoted (doubleQuotes s ++ quote ++ rest)
  = pushText s (scanCsv QuoteSeen rest).
Proof.
  induction s as [|c s IH].
  - simpl. now rewrite pushText_empty.
  - simpl doubleQuotes. destruct (nat_of_ascii c =? 34)%nat eqn:Hc.
    + rewrite (code_is _ _ Hc). cbn in IH |- *. rewrite IH.
      now destruct (scanCsv QuoteSeen rest) as [[cell cells] records].
    + cbn in IH |- *. rewrite Hc, IH.
      now destruct (scanCsv QuoteSeen rest) as [[cell cells] records].
Qed.

Lemma scan_after_quote (rest : string) :
  noQuoteAhead rest -> scanCsv QuoteSeen rest = scanCsv Plain rest.
Proof.
  destruct rest as [|c rest]; simpl; [reflexivity|].
  intros H. now rewrite H.
Qed.

Lemma scan_open_quote (x : string) :
  scanCsv Plain (quote ++ x) = scanCsv Quoted x.
Proof. reflexivity. Qed.

Lemma scan_comma (x : string) :
  scanCsv Plain ("," ++ x)
  = let '(cell, cells, records) := scanCsv Plain x in
    ("", cell :: cells, records).
Proof. reflexivity. Qed.

Lemma scan_line_feed (x : string) :
  scanCsv Plain (newline ++ x)
  = let '(cell, cells, records) := scanCsv Plain x in
    ("", [], (cell :: cells) :: records).
Proof. reflexivity. Qed.

(** One escaped cell is read back as its text. *)
Lemma scan_cell (cell : CsvCell) (rest : string) :
  noQuoteAhead rest ->
  scanCsv Plain (escapeCsvValue cell ++ rest)
  = pushText (cellText cell) (scanCsv Plain rest).
Proof.
  intros Hrest. unfold escapeCsvValue.
  change (stringExists _ _) with (stringExists csvSpecial (cellText cell)).
  change (match cell with
          | CellString s => s
          | CellNumber n => Number_toString n
          | CellNull => ""
          end) with (cellText cell).
  destruct (stringExists csvSpecial (cellText cell)) eqn:E.
  - rewrite !append_assoc, scan_open_quote.
    now rewrite scan_quoted_body, (scan_after_quote _ Hrest).
  - now apply scan_plain_text.
Qed.

(** One record is read back as the texts of its cells. *)
Lemma scan_row (cells : list CsvCell) :
  forall (cell : CsvCell) (rest : string) (records : list (list string)),
    noQuoteAhead rest ->
    scanCsv Plain rest = ("", [], records) ->
    scanCsv Plain (rowText (cell :: cells) ++ rest)
    = (cellText cell, map cellText cells, records).
Proof.
  unfold rowText.
  induction cells as [|next cells IH]; intros cell rest records Hrest Hscan.
  - simpl. rewrite (scan_cell _ _ Hrest), Hscan. simpl.
    now rewrite append_empty_r.
  - change (join "," (map escapeCsvValue (cell :: next :: cells)))
      with (escapeCsvValue cell
              ++ "," ++ join "," (map escapeCsvValue (next :: cells))).
    rewrite !append_assoc.
    rewrite scan_cell by reflexivity.
    rewrite scan_comma, (IH next rest records Hrest Hscan). simpl.
    now rewrite append_empty_r.
Qed.

(** Records joined by line feeds are read back one by one. *)
Lemma scan_records (rows : list (CsvCell * list CsvCell)) :
  forall (cell : CsvCell) (cells : list CsvCell),
    scanCsv Plain
      (join newline
            (map (fun row => rowText (fst row :: snd row))
                 ((cell, cells) :: rows)))
    = (cellText cell, map cellText cells,
       map (fun row => map cellText (fst row :: snd row)) rows).
Proof.
  induction rows as [|[next nexts] rows IH]; intros cell cells.
  - simpl join. rewrite <- (append_empty_r (rowText (cell :: cells))).
    now apply scan_row.
  - change (join newline
              (map (fun row => rowText (fst row :: snd row))
                   ((cell, cells) :: (next, nexts) :: rows)))
      with (rowText (cell :: cells)
              ++ newline
              ++ join newline
                   (map (fun row => rowText (fst row :: snd row))
                        ((next, nexts) :: rows))).
    apply scan_row; [reflexivity|].
    now rewrite scan_line_feed, (IH next nexts).
Qed.

End CsvRoundTrip.

(** X1. Read back by a reader that ends cells at commas and records at
    line feeds outside double quotes and takes a doubled quote inside
    quotes for one quote, the exported text gives the header and then,
    for each result in order, the texts of its ten cells as they were
    before escaping. *)
Theorem export_reads_back (R : Runtime) (results : list GradingResult) :
  readCsv (csvText results)
  = CSV_COLUMNS :: map (fun r => map cellText (orderedCells r)) results.
Proof.
  unfold readCsv, csvText.
  assert (E : join newline (join "," CSV_COLUMNS :: map buildCsvRow results)
              = join newline
                  (map (fun row => rowText (fst row :: snd row))
                       ((CellString "activity_id",
                         map CellString (tl CSV_COLUMNS))
                          :: map (fun r => (hd CellNull (orderedCells r),
                                            tl (orderedCells r)))
                                 results))).
  { rewrite map_cons, map_map. f_equal. }
  rewrite E, scan_records, !map_map. f_equal.
Qed.

(* ================================================================== *)
(** ** The pool, step by step *)

Section PoolSteps.
Context {R : Runtime}.
Variable getClient : completion Client.




End PoolSteps.


(* ================================================================== *)
(** ** How a grading call can end *)

Lemma startsWith_append (p s : string) : startsWith (p ++ s) p = true.
Proof.
  unfold startsWith. induction p as [|a p IH]; simpl.
  - now destruct s.
  - destruct (ascii_dec a a); [assumption | congruence].
Qed.

Section GradingOutcomes.
Context {R : Runtime}.

(** With a client, [gradeOffer] rejects on a reply that parsed to
    [null]: reading its [categories] throws past the [catch] block. *)
Lemma gradeOffer_null_reply (client : Client) (offer : StructuredOffer)
      (response : JsonValue) (text : string) :
  client (requestOf offer) = Returned response ->
  collectResponseText response = Returned text ->
  parseJsonResponse text = JNull ->
  exists e, gradeOffer (Returned client) offer = Thrown e.
Proof.
  intros Hcall Htext Hnull. unfold gradeOffer.
  rewrite Hcall, Htext, Hnull. simpl. eauto.
Qed.

(** A batch is rejected exactly when the call of one of its offers is. *)
Lemma gradeOffers_Thrown (getClient : completion Client)
      (schedule : list nat) (offers : list StructuredOffer)
      (concurrency : number) :
  (exists e,
     outcome (gradeOffers getClient schedule offers concurrency) = Thrown e)
  <-> exists o e, In o offers /\ gradeOffer getClient o = Thrown e.
Proof.
  destruct (gradeOffers_run R getClient offers schedule concurrency)
    as [_ [_ [_ [Hthrown Hok]]]].
  split.
  - intros [e He]. destruct (Hthrown e He) as [o [Ho Hg]]. eauto.
  - intros [o [e [Ho Hg]]].
    destruct (outcome (gradeOffers getClient schedule offers concurrency))
      as [rs|e'] eqn:Hout; [|eauto].
    destruct (proj1 Hok (ex_intro _ rs eq_refl) o Ho) as [r Hr].
    unfold gradedAs in Hr. congruence.
Qed.

(** The results of a batch that returned are the grades of its offers. *)
Lemma gradeOffers_Returned (getClient : completion Client)
      (schedule : list nat) (offers : list StructuredOffer)
      (concurrency : number) (rs : list GradingResult) :
  outcome (gradeOffers getClient schedule offers concurrency) = Returned rs ->
  List.length rs = List.length offers
  /\ (forall r, In r rs ->
        exists o, In o offers /\ gradeOffer getClient o = Returned r)
  /\ (forall o, In o offers ->
        exists r, In r rs /\ gradeOffer getClient o = Returned r).
Proof.
  intros Hout.
  destruct (gradeOffers_run R getClient offers schedule concurrency)
    as [_ [_ [Hret _]]].
  destruct (Hret rs Hout) as [_ [done [raw [Hperm [Hall ->]]]]].
  pose proof (arraySort_Permutation _ compareResults raw) as Hsort.
  split; [|split].
  - rewrite (Permutation_length Hsort), <- (Permutation_length Hperm).
    symmetry. eapply Forall2_length; eauto.
  - intros r Hr. apply (Permutation_in _ Hsort) in Hr.
    destruct (Forall2_In_r _ _ _ _ Hall Hr) as [o [Ho Hg]].
    exists o. split; [apply (Permutation_in _ Hperm Ho) | exact Hg].
  - intros o Ho. apply Permutation_sym in Hperm.
    apply (Permutation_in _ Hperm) in Ho.
    destruct (Forall2_In_l _ _ _ _ Hall Ho) as [r [Hr Hg]].
    exists r. split; [|exact Hg].
    apply Permutation_sym in Hsort. apply (Permutation_in _ Hsort Hr).
Qed.

End GradingOutcomes.

(** X3. Two things reject a run.  When no API key is found and some
    loaded offer is not curated, the run is rejected with the error of the
    lookup and no request is sent.  When, for some loaded offer that is
    not curated, the service answers and the text of the answer parses to
    the JSON value null, the run is rejected whatever the other calls do.
    A rejected run exports no table, and a run that ends normally with an
    offer to grade exports one. *)
Theorem missing_key_or_null_reply_rejects_run
    (R : Runtime) (getClient : completion Client) (schedule : list nat)
    (concurrency : number) (offers : list StructuredOffer) :
  let run := curate getClient schedule concurrency offers in
  (forall error,
     getClient = Thrown error ->
     (exists o, In o offers /\ requiresGrading o = true) ->
     ending run = Thrown error /\ sent run = [] /\ exported run = None)
  /\ (forall client o response text,
        getClient = Returned client ->
        In o offers -> requiresGrading o = true ->
        client (requestOf o) = Returned response ->
        collectResponseText response = Returned text ->
        parseJsonResponse text = JNull ->
        (exists e, ending run = Thrown e) /\ exported run = None)
  /\ ((exists e, ending run = Thrown e) -> exported run = None)
  /\ (ending run = Returned tt ->
      (exists o, In o offers /\ requiresGrading o = true) ->
      exists table, exported run = Some table).
Proof.
  cbv zeta. unfold curate.
  pose proof (gradeOffers_Thrown getClient schedule
                (filter requiresGrading offers) concurrency) as Hbatch.
  pose proof (gradeOffers_run R getClient (filter requiresGrading offers)
                schedule concurrency) as [[n [Hn _]] [_ [_ [Hthrown _]]]].
  assert (Heligible : forall o, In o offers -> requiresGrading o = true ->
            In o (filter requiresGrading offers))
    by (intros o Ho Hreq; apply filter_In; now split).
  destruct (filter requiresGrading offers) as [|o0 rest] eqn:Hfilter.
  - cbn [ending sent exported].
    split; [intros error _ [o [Ho Hreq]]; destruct (Heligible o Ho Hreq)|].
    split.
    { intros client o response text _ Ho Hreq.
      destruct (Heligible o Ho Hreq). }
    split; [reflexivity|].
    intros _ [o [Ho Hreq]]. destruct (Heligible o Ho Hreq).
  - rewrite <- Hfilter in *.
    assert (Hrejected : forall o e,
              In o offers -> requiresGrading o = true ->
              gradeOffer getClient o = Thrown e ->
              exists e',
                outcome (gradeOffers getClient schedule
                           (filter requiresGrading offers) concurrency)
                = Thrown e').
    { intros o e Ho Hreq He. apply Hbatch. exists o, e.
      split; [now apply Heligible | assumption]. }
    split; [|split; [|split]].
    + intros error Hclient [o [Ho Hreq]].
      destruct (Hrejected o error Ho Hreq) as [e' He'];
        [now rewrite Hclient|].
      rewrite He'. cbn [ending sent exported].
      destruct (Hthrown e' He') as [o' [_ Ho']].
      rewrite Hclient in Ho'. simpl in Ho'. inversion Ho'; subst e'.
      split; [reflexivity|]. split; [|reflexivity].
      rewrite Hn, Hclient. reflexivity.
    + intros client o response text Hclient Ho Hreq Hcall Htext Hnull.
      destruct (gradeOffer_null_reply client o response text
                  Hcall Htext Hnull) as [e He].
      rewrite <- Hclient in He.
      destruct (Hrejected o e Ho Hreq He) as [e' He'].
      rewrite He'. cbn [ending sent exported]. split; [eauto | reflexivity].
    + destruct (outcome (gradeOffers getClient schedule
                           (filter requiresGrading offers) concurrency));
        cbn [ending sent exported]; [intros [e He]; discriminate | reflexivity].
    + destruct (outcome (gradeOffers getClient schedule
                           (filter requiresGrading offers) concurrency));
        cbn [ending sent exported]; [eauto | discriminate].
Qed.

Lemma missing_key_or_null_reply_rejects_run_witness :
  ending (curate (R := Sample.runtime)
            (getClient None (fun _ => None) (fun _ => Sample.busyClient))
            [] (Fin 4)
            [structureActivity (R := Sample.runtime)
               (Sample.titled "Harbour cruise") "offers/a.json"])
  = Thrown (errorWithMessage
              "OpenAI API key not found. Set OPENAI_API_KEY, or define it inside a local .env/.openai_api_key file.")
  /\ (exists e,
        ending (curate (R := Sample.runtime)
                  (Returned (fun _ => Returned (Sample.response "resp_1" "null")))
                  [] (Fin 4)
                  [structureActivity (R := Sample.runtime)
                     (Sample.titled "Harbour cruise") "offers/a.json"])
        = Thrown e).
Proof.
  split.
  - apply (proj1 (missing_key_or_null_reply_rejects_run Sample.runtime
                    (getClient None (fun _ => None)
                       (fun _ => Sample.busyClient))
                    [] (Fin 4)
                    [structureActivity (R := Sample.runtime)
                       (Sample.titled "Harbour cruise") "offers/a.json"])).
    + reflexivity.
    + eexists. split; [now left | vm_compute; reflexivity].
  - apply (proj1 (proj2 (missing_key_or_null_reply_rejects_run Sample.runtime
                    (Returned
                       (fun _ => Returned (Sample.response "resp_1" "null")))
                    [] (Fin 4)
                    [structureActivity (R := Sample.runtime)
                       (Sample.titled "Harbour cruise") "offers/a.json"]))
             (fun _ => Returned (Sample.response "resp_1" "null"))
             (structureActivity (R := Sample.runtime)
                (Sample.titled "Harbour cruise") "offers/a.json")
             (Sample.response "resp_1" "null") "null");
      try reflexivity.
    now left.
Defined.

(** X4. When the call fails for every offer of a batch, the batch still
    returns: one result per offer, each the failure record of one of the
    offers, with its identifier, no score, no hero image, no labels, no
    response id and a reason that carries the error. *)
Theorem failed_calls_fill_the_batch
    (R : Runtime) (client : Client) (schedule : list nat)
    (concurrency : number) (offers : list StructuredOffer) :
  (forall o, In o offers -> exists e, client (requestOf o) = Thrown e) ->
  exists rs,
    outcome (gradeOffers (Returned client) schedule offers concurrency)
    = Returned rs
    /\ List.length rs = List.length offers
    /\ (forall o, In o offers ->
          exists e, client (requestOf o) = Thrown e /\ In (callFailed o e) rs)
    /\ Forall (fun r =>
                 (exists o e, In o offers /\ client (requestOf o) = Thrown e
                              /\ r = callFailed o e)
                 /\ score r = None /\ response_id r = None
                 /\ hero_image_index r = None /\ hero_image_url r = None
                 /\ categories r = [] /\ target_audiences r = []
                 /\ startsWith (reason r) "Model call failed: " = true)
              rs.
Proof.
  intros Hfail.
  assert (Hgrade : forall o, In o offers ->
            exists e, client (requestOf o) = Thrown e
                      /\ gradeOffer (Returned client) o
                         = Returned (callFailed o e)).
  { intros o Ho. destruct (Hfail o Ho) as [e He]. exists e.
    split; [assumption|]. unfold gradeOffer. now rewrite He. }
  destruct (gradeOffers_run R (Returned client) offers schedule concurrency)
    as [_ [_ [_ [_ Hall]]]].
  destruct (proj2 Hall) as [rs Hrs].
  { intros o Ho. destruct (Hgrade o Ho) as [e [_ Hg]]. eexists. exact Hg. }
  exists rs. split; [assumption|].
  destruct (gradeOffers_Returned (Returned client) schedule offers
              concurrency rs Hrs) as [Hlen [Hfrom Hto]].
  split; [assumption|]. split.
  - intros o Ho. destruct (Hgrade o Ho) as [e [He Hg]].
    destruct (Hto o Ho) as [r [Hr Hg']]. exists e. split; [assumption|].
    congruence.
  - apply Forall_forall. intros r Hr.
    destruct (Hfrom r Hr) as [o [Ho Hg]].
    destruct (Hgrade o Ho) as [e [He Hg']].
    assert (r = callFailed o e) by congruence. subst r.
    split; [exists o, e; tauto|]. repeat split. apply startsWith_append.
Qed.

Lemma failed_calls_fill_the_batch_witness :
  exists rs,
    outcome (gradeOffers (R := Sample.runtime)
               (Returned
                  (fun _ => Thrown (errorWithMessage "Connection error.")))
               [1%nat; 0%nat]
               [structureActivity (R := Sample.runtime)
                  (Sample.titled "Harbour cruise") "offers/a.json";
                structureActivity (R := Sample.runtime)
                  (Sample.titled "Harbour cruise at night") "offers/b.json"]
               (Fin 2))
    = Returned rs
    /\ List.length rs = 2%nat.
Proof.
  destruct (failed_calls_fill_the_batch Sample.runtime
              (fun _ => Thrown (errorWithMessage "Connection error."))
              [1%nat; 0%nat] (Fin 2)
              [structureActivity (R := Sample.runtime)
                 (Sample.titled "Harbour cruise") "offers/a.json";
               structureActivity (R := Sample.runtime)
                 (Sample.titled "Harbour cruise at night") "offers/b.json"])
    as [rs [Hout [Hlen _]]].
  - intros o _. eexists. reflexivity.
  - exists rs. split; [exact Hout | exact Hlen].
Defined.

(* ================================================================== *)
(** ** JSON embedded in a reply *)

Lemma uptoLastBrace_none (s : string) :
  uptoLastBrace s = None <-> noneOf isCloseBrace s.
Proof.
  unfold noneOf, isCloseBrace. induction s as [|c s IH]; simpl; [tauto|].
  destruct (uptoLastBrace s) as [r|].
  - split; [discriminate|]. intros H. apply orb_false_iff in H.
    destruct H as [_ H]. apply IH in H. discriminate.
  - destruct (Ascii.eqb c "}"); simpl; [split; discriminate|].
    split; intros _; [now apply IH | reflexivity].
Qed.

Lemma uptoLastBrace_last (body post : string) :
  noneOf isCloseBrace post ->
  uptoLastBrace (body ++ "}" ++ post) = Some (body ++ "}").
Proof.
  intros Hpost. induction body as [|c body IH]; simpl.
  - apply uptoLastBrace_none in Hpost. now rewrite Hpost.
  - simpl in IH. now rewrite IH.
Qed.

Lemma uptoLastBrace_some (s r : string) :
  uptoLastBrace s = Some r ->
  exists body post,
    s = body ++ "}" ++ post /\ r = body ++ "}" /\ noneOf isCloseBrace post.
Proof.
  revert r. induction s as [|c s IH]; simpl; intros r; [discriminate|].
  destruct (uptoLastBrace s) as [r'|] eqn:Hs.
  - intros E. inversion E; subst r.
    destruct (IH r' eq_refl) as [body [post [-> [-> Hpost]]]].
    exists (String c body), post. now repeat split.
  - destruct (Ascii.eqb c "}") eqn:Hc; [|discriminate].
    intros E. inversion E; subst r. apply Ascii.eqb_eq in Hc. subst c.
    exists "", s. repeat split. now apply uptoLastBrace_none.
Qed.

Lemma braceMatch_found (pre body post : string) :
  noneOf isOpenBrace pre -> noneOf isCloseBrace post ->
  braceMatch (pre ++ "{" ++ body ++ "}" ++ post) = Some ("{" ++ body ++ "}").
Proof.
  intros Hpre Hpost. induction pre as [|c pre IH]; simpl.
  - pose proof (uptoLastBrace_last body post Hpost) as Hlast.
    simpl in Hlast. now rewrite Hlast.
  - unfold noneOf in Hpre. simpl in Hpre. apply orb_false_iff in Hpre.
    destruct Hpre as [Hc Hpre]. unfold isOpenBrace in Hc. rewrite Hc.
    now apply IH.
Qed.

(** X5. The text tried after a failed parse runs from the first opening
    brace of the reply to its last closing brace, and there is none
    exactly when no closing brace follows the first opening one. *)
Theorem braceMatch_first_open_to_last_close (text : string) :
  (forall m,
     braceMatch text = Some m
     <-> exists pre body post,
           text = pre ++ "{" ++ body ++ "}" ++ post
           /\ m = "{" ++ body ++ "}"
           /\ noneOf isOpenBrace pre
           /\ noneOf isCloseBrace post)
  /\ (braceMatch text = None
      <-> forall pre rest,
            text = pre ++ "{" ++ rest -> noneOf isOpenBrace pre ->
            noneOf isCloseBrace rest).
Proof.
  assert (Hshape : forall t,
            (forall m, braceMatch t = Some m ->
               exists pre body post,
                 t = pre ++ "{" ++ body ++ "}" ++ post
                 /\ m = "{" ++ body ++ "}"
                 /\ noneOf isOpenBrace pre /\ noneOf isCloseBrace post)
            /\ (braceMatch t = None ->
                forall pre rest,
                  t = pre ++ "{" ++ rest -> noneOf isOpenBrace pre ->
                  noneOf isCloseBrace rest)).
  { induction t as [|c t [IHsome IHnone]]; simpl.
    - split; [discriminate|]. intros _ pre rest E. destruct pre; discriminate.
    - destruct (Ascii.eqb c "{") eqn:Hc.
      + apply Ascii.eqb_eq in Hc. subst c.
        destruct (uptoLastBrace t) as [r|] eqn:Hr.
        * split; [|discriminate]. intros m E. inversion E; subst m.
          destruct (uptoLastBrace_some _ _ Hr) as [body [post [-> [-> Hpost]]]].
          exists "", body, post. now repeat split.
        * split; [discriminate|]. intros _ pre rest E Hpre.
          destruct pre as [|d pre]; simpl in E; inversion E; subst.
          -- now apply uptoLastBrace_none.
          -- unfold noneOf in Hpre. simpl in Hpre. discriminate.
      + split.
        * intros m E.
          destruct (IHsome m E) as [pre [body [post [-> [-> [Hpre Hpost]]]]]].
          exists (String c pre), body, post. repeat split; [|assumption].
          unfold noneOf, isOpenBrace in *. simpl. now rewrite Hc.
        * intros E pre rest Et Hpre.
          destruct pre as [|d pre]; simpl in Et; inversion Et; subst.
          -- simpl in Hc. discriminate.
          -- apply (IHnone E pre rest eq_refl).
             unfold noneOf in *. simpl in Hpre.
             apply orb_false_iff in Hpre. tauto. }
  split.
  - intros m. split; [apply Hshape|].
    intros [pre [body [post [-> [-> [Hpre Hpost]]]]]]. now apply braceMatch_found.
  - split; [apply Hshape|]. intros Hnone.
    destruct (braceMatch text) as [m|] eqn:Hm; [|reflexivity].
    destruct (proj1 (Hshape text) m Hm)
      as [pre [body [post [Et [_ [Hpre Hpost]]]]]].
    specialize (Hnone pre (body ++ "}" ++ post) Et Hpre).
    unfold noneOf in Hnone. rewrite stringExists_append in Hnone.
    simpl in Hnone. rewrite orb_true_r in Hnone. discriminate.
Qed.

(** X6. A reply that is not JSON as a whole but holds, from its first
    opening brace to its last closing brace, a text that is, is taken as
    that JSON value: words around the object do not lose the reply. *)
Theorem embedded_object_recovered
    (R : Runtime) (pre body post : string) (v : JsonValue) :
  noneOf isOpenBrace pre ->
  noneOf isCloseBrace post ->
  JSON_parse (pre ++ "{" ++ body ++ "}" ++ post) = None ->
  JSON_parse ("{" ++ body ++ "}") = Some v ->
  parseJsonResponse (pre ++ "{" ++ body ++ "}" ++ post) = v.
Proof.
  intros Hpre Hpost Hwhole Hpart. unfold parseJsonResponse.
  assert (Hne : nonEmpty (pre ++ "{" ++ body ++ "}" ++ post) = true)
    by (destruct pre; reflexivity).
  rewrite Hne, Hwhole. simpl negb. cbv iota.
  now rewrite (braceMatch_found pre body post Hpre Hpost), Hpart.
Qed.

Lemma embedded_object_recovered_witness :
  parseJsonResponse (R := Sample.runtime) "Here it is: {} (empty)" = JObj [].
Proof.
  apply (embedded_object_recovered Sample.runtime
           "Here it is: " "" " (empty)" (JObj []));
    reflexivity.
Defined.

(* ================================================================== *)
(** ** Labels of a reply *)

(** X7. The labels read from a reply: an array of strings gives its
    non-empty strings in order; a single string gives itself unless it is
    empty; nothing or null gives no label; and for every array, whatever
    its entries, no label is empty, there are no more labels than entries,
    and null entries give none.  The categories and audiences of a result
    are read this way. *)
Theorem labels_are_the_nonempty_entries (R : Runtime) :
  (forall l : list string,
     normaliseStringList (Some (JArr (map JStr l))) = filter nonEmpty l)
  /\ (forall s, normaliseStringList (Some (JStr s)) = filter nonEmpty [s])
  /\ normaliseStringList None = []
  /\ normaliseStringList (Some JNull) = []
  /\ (forall items,
        Forall (fun label => label <> "")
               (normaliseStringList (Some (JArr items)))
        /\ (List.length (normaliseStringList (Some (JArr items)))
            <= List.length items)%nat
        /\ normaliseStringList (Some (JArr (JNull :: items)))
           = normaliseStringList (Some (JArr items)))
  /\ (forall offer rid parsed r,
        reconcile offer rid parsed = Returned r ->
        categories r = normaliseStringList (prop parsed "categories")
        /\ target_audiences r
           = normaliseStringList (prop parsed "target_audiences")).
Proof.
  split; [|split; [|split; [|split; [|split]]]].
  - intros l. simpl. f_equal. induction l as [|s l IH]; simpl; [reflexivity|].
    now rewrite IH.
  - intros [|c s]; reflexivity.
  - reflexivity.
  - reflexivity.
  - intros items. split; [|split].
    + simpl. apply Forall_forall. intros label Hin.
      apply filter_In in Hin. destruct Hin as [_ Hne].
      now apply nonEmpty_true.
    + simpl.
      etransitivity; [apply filter_length_le|].
      induction items as [|item items IH]; simpl; [lia|].
      rewrite length_app. destruct item; simpl; lia.
    + reflexivity.
  - intros offer rid parsed r. unfold reconcile.
    destruct (reconcileHero (image_details offer)
                (heroImageIndexOf (prop parsed "hero_image_index"))
                (heroImageUrlOf (prop parsed "hero_image_url"))) as [i u].
    destruct parsed; intros E; try discriminate; inversion E; subst;
      split; reflexivity.
Qed.

(* ================================================================== *)
(** ** The images of the prompt *)

Lemma nth_error_mapIndexed {A B : Type} (f : A -> nat -> B) (l : list A) :
  forall start k x,
    nth_error l k = Some x ->
    nth_error (mapIndexed f start l) k = Some (f x (start + k)%nat).
Proof.
  induction l as [|a l IH]; intros start [|k] x; simpl; try discriminate.
  - intros E. inversion E. now rewrite Nat.add_0_r.
  - intros E. rewrite (IH (S start) k x E). f_equal. f_equal. lia.
Qed.

Lemma nth_error_definedUrls (l : list ImageDetail) (k : nat) (d : ImageDetail) :
  Forall hasUrl l -> nth_error l k = Some d ->
  exists u, url d = Some u /\ u <> "" /\ nth_error (definedUrls l) k = Some u.
Proof.
  intros Hall Hk.
  pose proof (definedUrls_hasUrl l Hall) as Hmap.
  assert (Hd : hasUrl d).
  { eapply Forall_forall; [exact Hall|]. eapply nth_error_In; eauto. }
  destruct Hd as [u [Hu Hne]]. exists u. split; [assumption|].
  split; [assumption|].
  assert (E : nth_error (map Some (definedUrls l)) k = nth_error (map url l) k)
    by now rewrite Hmap.
  rewrite !nth_error_map, Hk in E. simpl in E. rewrite Hu in E.
  destruct (nth_error (definedUrls l) k); simpl in E; congruence.
Qed.

(** X8. For a structured offer and each of its first eight images, the
    prompt has a line that shows the image's position, counted from 1, and
    its URL; the request attaches that URL at the same position; and the
    reconciler resolves that position to that URL.  So the number the
    model is asked to return for an image it was shown leads back to that
    image. *)
Theorem prompt_numbers_resolve
    (R : Runtime) (activity : JsonValue) (sourcePath : string)
    (k : nat) (d : ImageDetail) :
  let offer := structureActivity activity sourcePath in
  nth_error (image_details offer) k = Some d ->
  (k < MAX_IMAGES_TO_REVIEW)%nat ->
  exists u shown,
    url d = Some u /\ u <> ""
    /\ nth_error (imageLines offer) (2 + k)
       = Some ("[" ++ natStr (k + 1) ++ "] type=" ++ shown ++ " url=" ++ u)
    /\ nth_error (request_images (requestOf offer)) k = Some u
    /\ candidateUrl (image_details offer) (Z.of_nat k + 1) = Some u.
Proof.
  intros offer Hk Hlt.
  pose proof (structured_details_hasUrl R activity sourcePath) as Hall.
  fold offer in Hall.
  assert (Hslice : nth_error (sliceFirst MAX_IMAGES_TO_REVIEW
                                (image_details offer)) k = Some d).
  { unfold sliceFirst. rewrite nth_error_firstn.
    apply Nat.ltb_lt in Hlt. now rewrite Hlt. }
  assert (Hall' : Forall hasUrl (sliceFirst MAX_IMAGES_TO_REVIEW
                                   (image_details offer))).
  { apply Forall_forall. intros x Hx. eapply Forall_forall; [exact Hall|].
    unfold sliceFirst in Hx.
    rewrite <- (firstn_skipn MAX_IMAGES_TO_REVIEW (image_details offer)).
    apply in_or_app. now left. }
  destruct (nth_error_definedUrls _ k d Hall' Hslice) as [u [Hu [Hne Hnth]]].
  exists u.
  exists (strOr (type d) "UNKNOWN" ++ " alt="
            ++ strOr (Some (trim (strOr (alt d) ""))) "N/A" ++ " desc="
            ++ strOr (Some (if (120 <? String.length
                                         (trim (strOr (description d) "")))%nat
                            then slice0 117 (trim (strOr (description d) ""))
                                   ++ "..."
                            else trim (strOr (description d) "")))
                     "N/A").
  split; [assumption|]. split; [assumption|]. split; [|split].
  - unfold imageLines.
    destruct (sliceFirst MAX_IMAGES_TO_REVIEW (image_details offer))
      as [|d0 rest] eqn:Hs; [destruct k; discriminate|].
    change (nth_error (?a :: ?b :: ?l) (2 + k)) with (nth_error l k).
    rewrite (nth_error_mapIndexed imageLine _ 0 k d Hslice).
    unfold imageLine. simpl Nat.add. rewrite Hu.
    assert (Hshown : strOr (Some u) "N/A" = u).
    { apply nonEmpty_true in Hne. unfold strOr. now rewrite Hne. }
    rewrite Hshown. f_equal. rewrite !append_assoc. reflexivity.
  - exact Hnth.
  - unfold candidateUrl, elementAt.
    replace (Z.of_nat k + 1 - 1)%Z with (Z.of_nat k) by lia.
    destruct (Z.leb_spec 0 (Z.of_nat k)); [|lia].
    now rewrite Nat2Z.id, Hk.
Qed.

Lemma prompt_numbers_resolve_witness :
  exists u shown,
    nth_error (imageLines (R := Sample.runtime)
                 (structureActivity (R := Sample.runtime)
                    (Sample.activity 3) "offers/101.json")) 3
    = Some ("[" ++ natStr (R := Sample.runtime) 2 ++ "] type=" ++ shown
                ++ " url=" ++ u)
    /\ nth_error (request_images
                    (requestOf (R := Sample.runtime)
                       (structureActivity (R := Sample.runtime)
                          (Sample.activity 3) "offers/101.json"))) 1
       = Some u.
Proof.
  destruct (prompt_numbers_resolve Sample.runtime (Sample.activity 3)
              "offers/101.json" 1
              (imageDetailOf (Sample.imageEntry (Sample.imageUrl 2))
                 (Sample.imageUrl 2) "primary"))
    as [u [shown [_ [_ [Hline [Hreq _]]]]]].
  - vm_compute. reflexivity.
  - unfold MAX_IMAGES_TO_REVIEW. lia.
  - exists u, shown. split; [exact Hline | exact Hreq].
Defined.

(** X9. The description shown for an image in the prompt is never empty
    and never longer than 120 code units: a trimmed description of up to
    120 is shown whole, a longer one as its first 117 code units followed
    by three dots, and a missing or blank one as N/A. *)
Theorem shown_description_bounded
    (R : Runtime) (image : ImageDetail) (index : nat) :
  let full := trim (strOr (description image) "") in
  exists desc,
    imageLine image index
    = "[" ++ natStr (index + 1) ++ "] type=" ++ strOr (type image) "UNKNOWN"
          ++ " alt=" ++ strOr (Some (trim (strOr (alt image) ""))) "N/A"
          ++ " desc=" ++ desc ++ " url=" ++ strOr (url image) "N/A"
    /\ (1 <= String.length desc <= 120)%nat
    /\ (full = "" -> desc = "N/A")
    /\ (full <> "" -> (String.length full <= 120)%nat -> desc = full)
    /\ ((120 < String.length full)%nat ->
        desc = substring 0 117 full ++ "..."
        /\ String.length desc = 120%nat).
Proof.
  intros full. unfold imageLine. fold full.
  destruct (Nat.ltb_spec 120 (String.length full)) as [Hlong|Hshort].
  - assert (Hlen : String.length (slice0 117 full ++ "...") = 120%nat).
    { rewrite length_append. unfold slice0.
      rewrite length_substring_0; [reflexivity | lia]. }
    exists (slice0 117 full ++ "...").
    assert (Hne : nonEmpty (slice0 117 full ++ "...") = true).
    { destruct (slice0 117 full ++ "..."); [discriminate | reflexivity]. }
    unfold strOr at 4. rewrite Hne.
    split; [reflexivity|]. split; [lia|]. split; [|split].
    + intros E. rewrite E in Hlong. simpl in Hlong. lia.
    + intros _ H. lia.
    + intros _. split; [reflexivity | assumption].
  - destruct full as [|c full'] eqn:Hfull.
    + exists "N/A". split; [reflexivity|]. split; [simpl; lia|].
      split; [reflexivity|]. split; [congruence|]. simpl. lia.
    + exists (String c full'). split; [reflexivity|].
      split; [simpl in *; lia|]. split; [discriminate|].
      split; [reflexivity|]. intros H. simpl in *. lia.
Qed.

(* ================================================================== *)
(** ** Loading the offers *)

Section Loading.
Context {R : Runtime}.

Lemma loadOffers_file (path content : string) :
  loadOffers [(path, content)]
  = match loadedActivity content with
    | Some activity => [structureActivity activity path]
    | None => []
    end.
Proof.
  unfold loadOffers, loadedActivity. cbn [flat_map fst snd].
  rewrite app_nil_r.
  destruct (JSON_parse content) as [payload|]; [|reflexivity].
  destruct (optProp (Some payload) "activity") as [activity|]; [|reflexivity].
  destruct (truthy activity && negb (structureActivityThrows activity));
    reflexivity.
Qed.

Lemma loadOffers_app (files1 files2 : list (string * string)) :
  loadOffers (files1 ++ files2) = (loadOffers files1 ++ loadOffers files2)%list.
Proof. unfold loadOffers. apply flat_map_app. Qed.

Lemma loadOffers_cons (file : string * string)
      (files : list (string * string)) :
  loadOffers (file :: files)
  = (match loadedActivity (snd file) with
     | Some activity => [structureActivity activity (fst file)]
     | None => []
     end ++ loadOffers files)%list.
Proof.
  change (file :: files) with ([file] ++ files)%list.
  rewrite loadOffers_app. destruct file as [path content].
  now rewrite loadOffers_file.
Qed.

End Loading.

(** X10. Loading goes file by file: a file is skipped when its text does
    not parse, when it parses to a value without a truthy activity, and
    when [structureActivity] throws on the activity; a skipped file
    changes nothing for the other files; every other file gives one offer,
    built from its activity and carrying its path; so the offers come in
    the order of the files and their paths are a subsequence of the
    files' paths. *)
Theorem unreadable_files_are_skipped
    (R : Runtime) (files : list (string * string)) :
  Subseq (map source_path (loadOffers files)) (map fst files)
  /\ (forall o,
        In o (loadOffers files)
        <-> exists path content activity,
              In (path, content) files
              /\ loadedActivity content = Some activity
              /\ o = structureActivity activity path)
  /\ (forall before after path content,
        files = (before ++ (path, content) :: after)%list ->
        loadOffers files
        = (loadOffers before
             ++ match loadedActivity content with
                | Some activity => [structureActivity activity path]
                | None => []
                end
             ++ loadOffers after)%list)
  /\ (forall content activity,
        loadedActivity content = Some activity
        <-> exists payload,
              JSON_parse content = Some payload
              /\ optProp (Some payload) "activity" = Some activity
              /\ truthy activity = true
              /\ structureActivityThrows activity = false).
Proof.
  assert (Hin : forall o,
            In o (loadOffers files)
            <-> exists path content activity,
                  In (path, content) files
                  /\ loadedActivity content = Some activity
                  /\ o = structureActivity activity path).
  { intros o. induction files as [|[path content] files IH].
    - simpl. split; [tauto|]. intros [p [c [a [[] _]]]].
    - rewrite loadOffers_cons. simpl fst. simpl snd. rewrite in_app_iff, IH.
      split.
      + intros [Hhere | [p [c [a [Hf [Ha Ho]]]]]].
        * destruct (loadedActivity content) as [a|] eqn:Ha; [|destruct Hhere].
          destruct Hhere as [<- | []]. exists path, content, a.
          split; [now left | now split].
        * exists p, c, a. split; [now right | now split].
      + intros [p [c [a [[Hf | Hf] [Ha Ho]]]]].
        * inversion Hf; subst p c. left. rewrite Ha. now left.
        * right. exists p, c, a. now split. }
  split; [|split; [exact Hin|split]].
  - clear Hin. induction files as [|[path content] files IH]; [constructor|].
    rewrite loadOffers_cons. simpl fst. simpl snd.
    destruct (loadedActivity content) as [a|]; simpl.
    + now apply Subseq_keep.
    + now apply Subseq_skip.
  - intros before after path content ->.
    rewrite loadOffers_app, loadOffers_cons. reflexivity.
  - intros content activity. unfold loadedActivity.
    destruct (JSON_parse content) as [payload|].
    + destruct (optProp (Some payload) "activity") as [a|] eqn:Hact.
      * split.
        -- destruct (truthy a) eqn:Ht;
             destruct (structureActivityThrows a) eqn:Hs; simpl;
             intros E; try discriminate.
           inversion E; subst. exists payload. repeat split; auto.
        -- intros [p [Hp [Ha [Ht Hs]]]]. inversion Hp; subst p.
           rewrite Hact in Ha. inversion Ha; subst a.
           now rewrite Ht, Hs.
      * split; [discriminate|]. intros [p [Hp [Ha _]]].
        inversion Hp; subst p. rewrite Hact in Ha. discriminate.
    + split; [discriminate|]. intros [p [Hp _]]. discriminate.
Qed.

(** A record with a group whose content is an object with a property of
    its own named [toString] makes [structureActivity] throw; one whose
    content is an ordinary object does not. *)
Example structuring_throws_on_unreadable_content :
  structureActivityThrows
    (JObj [("activity_id", JNum (Fin 7));
           ("section_info",
            JArr [JObj [("section_name", JStr "About");
                        ("groups",
                         JArr [JObj [("content",
                                      JObj [("toString", JNull)])]])]])])
  = true
  /\ structureActivityThrows
       (JObj [("activity_id", JNum (Fin 7));
              ("section_info",
               JArr [JObj [("section_name", JStr "About");
                           ("groups",
                            JArr [JObj [("content",
                                         JObj [("text", JNull)])]])]])])
     = false.
Proof. split; reflexivity. Qed.

Lemma status_chain (R : Runtime) (a b c : value) :
  textAsGiven (Some match orElse (orElse (orElse a b) c) (Some JNull) with
                    | Some s => s
                    | None => JNull
                    end)
  = textAsGiven (if truthyV a then a
                 else if truthyV b then b
                      else if truthyV c then c else None).
Proof.
  unfold orElse. destruct (truthyV a) eqn:Ha.
  - rewrite !Ha. destruct a; [reflexivity | discriminate].
  - destruct (truthyV b) eqn:Hb.
    + rewrite !Hb. destruct b; [reflexivity | discriminate].
    + destruct (truthyV c) eqn:Hc; [|reflexivity].
      destruct c; [reflexivity | discriminate].
Qed.

(** X11. Whether a loaded record is graded is decided by the first truthy
    of its status, its curation status and the curation status of its
    category information: the record is skipped exactly when that value,
    as text, is the curated sentinel up to letter case.  A truthy status
    hides the two others, and a record with none of the three is
    graded. *)
Theorem first_truthy_status_decides
    (R : Runtime) (activity : JsonValue) (sourcePath : string) :
  let offer := structureActivity activity sourcePath in
  requiresGrading offer
  = negb (sameIgnoringCase (textAsGiven (firstStatus activity)) "CURATED")
  /\ (firstStatus activity = None -> requiresGrading offer = true)
  /\ (forall s,
        prop activity "status" = Some (JStr s) -> s <> "" ->
        requiresGrading offer = negb (sameIgnoringCase s "CURATED"))
  /\ (truthyV (prop activity "status") = false ->
      forall s,
        prop activity "curation_status" = Some (JStr s) -> s <> "" ->
        requiresGrading offer = negb (sameIgnoringCase s "CURATED")).
Proof.
  intros offer.
  assert (Hstatus : statusText offer = textAsGiven (firstStatus activity)).
  { unfold offer, statusText, structureActivity, firstStatus.
    cbn [status]. apply status_chain. }
  assert (Hdecides : requiresGrading offer
            = negb (sameIgnoringCase (textAsGiven (firstStatus activity))
                      "CURATED")).
  { now rewrite requiresGrading_sentinel, Hstatus. }
  assert (Hstring : forall s, s <> "" -> textAsGiven (Some (JStr s)) = s).
  { intros s Hs. unfold textAsGiven. simpl.
    apply nonEmpty_true in Hs. destruct s; [discriminate | reflexivity]. }
  assert (Htruthy : forall s, s <> "" -> truthyV (Some (JStr s)) = true).
  { intros s Hs. destruct s; [congruence | reflexivity]. }
  split; [exact Hdecides|]. split; [|split].
  - intros Hnone. now rewrite Hdecides, Hnone.
  - intros s Hs Hne. rewrite Hdecides. unfold firstStatus.
    rewrite Hs, (Htruthy s Hne). now rewrite (Hstring s Hne).
  - intros Hno s Hs Hne. rewrite Hdecides. unfold firstStatus.
    rewrite Hno, Hs, (Htruthy s Hne). now rewrite (Hstring s Hne).
Qed.

(* ================================================================== *)
(** ** Finding the API key *)

Section KeyText.
Variable p : ascii -> bool.

Lemma trimStart_keeps (s : string) :
  stringExists p (trimStart s) = true -> stringExists p s = true.
Proof.
  induction s as [|c s IH]; simpl; [discriminate|].
  destruct (isWhiteSpace c); [|exact (fun H => H)].
  intros H. rewrite (IH H). apply orb_true_r.
Qed.

Lemma trimEnd_keeps (s : string) :
  stringExists p (trimEnd s) = true -> stringExists p s = true.
Proof.
  induction s as [|c s IH]; simpl; [discriminate|].
  destruct (isWhiteSpace c && negb (nonEmpty (trimEnd s))); simpl;
    [discriminate|].
  intros H. apply orb_true_iff in H. destruct H as [H|H].
  - now rewrite H.
  - rewrite (IH H). apply orb_true_r.
Qed.

Lemma trim_keeps (s : string) :
  stringExists p (trim s) = true -> stringExists p s = true.
Proof. intros H. now apply trimStart_keeps, trimEnd_keeps. Qed.

Lemma dropLastQuote_keeps (s : string) :
  stringExists p (dropLastQuote s) = true -> stringExists p s = true.
Proof.
  induction s as [|c s IH]; [discriminate|].
  destruct s as [|d s].
  - simpl. destruct (nat_of_ascii c =? 34)%nat; [discriminate|].
    exact (fun H => H).
  - change (dropLastQuote (String c (String d s)))
      with (String c (dropLastQuote (String d s))).
    change (stringExists p (String c ?t)) with (p c || stringExists p t).
    intros H. apply orb_true_iff in H. destruct H as [H|H].
    + now rewrite H.
    + rewrite (IH H). apply orb_true_r.
Qed.

Lemma stripQuotes_keeps (s : string) :
  stringExists p (stripQuotes s) = true -> stringExists p s = true.
Proof.
  destruct s as [|c s]; [discriminate|]. unfold stripQuotes.
  destruct (nat_of_ascii c =? 34)%nat.
  - intros H. apply dropLastQuote_keeps in H. simpl. rewrite H.
    apply orb_true_r.
  - apply dropLastQuote_keeps.
Qed.

Lemma beforeEquals_keeps (s : string) :
  stringExists p (beforeEquals s) = true -> stringExists p s = true.
Proof.
  induction s as [|c s IH]; simpl; [discriminate|].
  destruct (isEquals c); simpl; [discriminate|].
  intros H. apply orb_true_iff in H. destruct H as [H|H].
  - now rewrite H.
  - rewrite (IH H). apply orb_true_r.
Qed.

Lemma afterEquals_keeps (s : string) :
  stringExists p (afterEquals s) = true -> stringExists p s = true.
Proof.
  induction s as [|c s IH]; simpl; [discriminate|].
  destruct (isEquals c); intros H.
  - rewrite H. apply orb_true_r.
  - rewrite (IH H). apply orb_true_r.
Qed.

End KeyText.

Lemma beforeEquals_none (s : string) : noneOf isEquals (beforeEquals s).
Proof.
  unfold noneOf. induction s as [|c s IH]; simpl; [reflexivity|].
  destruct (isEquals c) eqn:Hc; simpl; [reflexivity|]. now rewrite Hc.
Qed.

Lemma split_at_equals (s : string) :
  stringExists isEquals s = true ->
  s = beforeEquals s ++ "=" ++ afterEquals s.
Proof.
  induction s as [|c s IH]; simpl; [discriminate|].
  destruct (isEquals c) eqn:Hc; simpl.
  - intros _. apply code_is in Hc. now subst c.
  - intros H. f_equal. now apply IH.
Qed.

Lemma splitLines_no_line_feed (s : string) :
  Forall (noneOf isLineFeed) (splitLines s).
Proof.
  assert (Hboth : forall s,
            Forall (noneOf isLineFeed) (splitLines s)
            /\ (forall c, Forall (noneOf isLineFeed) (splitLines (String c s)))).
  { clear s. unfold noneOf.
    assert (Hpush : forall c s,
              isLineFeed c = false ->
              Forall (fun l => stringExists isLineFeed l = false)
                     (splitLines s) ->
              Forall (fun l => stringExists isLineFeed l = false)
                     match splitLines s with
                     | line :: lines => String c line :: lines
                     | [] => [String c EmptyString]
                     end).
    { intros c s Hc Hs. destruct (splitLines s) as [|line lines].
      - constructor; [simpl; now rewrite Hc | constructor].
      - inversion Hs; subst. constructor; [simpl; now rewrite Hc|assumption]. }
    induction s as [|d s [IH IHc]].
    - split; [repeat constructor|]. intros c.
      change (splitLines (String c ""))
        with (if (nat_of_ascii c =? 10)%nat then [""; ""]
              else if (nat_of_ascii c =? 13)%nat then [String c ""]
                   else [String c ""]).
      destruct (nat_of_ascii c =? 10)%nat eqn:Hc; [repeat constructor|].
      destruct (nat_of_ascii c =? 13)%nat;
        repeat constructor; simpl; unfold isLineFeed; now rewrite Hc.
    - split; [apply IHc|]. intros c.
      change (splitLines (String c (String d s)))
        with (if (nat_of_ascii c =? 10)%nat
              then EmptyString :: splitLines (String d s)
              else if (nat_of_ascii c =? 13)%nat
                   then if (nat_of_ascii d =? 10)%nat
                        then EmptyString :: splitLines s
                        else match splitLines (String d s) with
                             | line :: lines => String c line :: lines
                             | [] => [String c EmptyString]
                             end
                   else match splitLines (String d s) with
                        | line :: lines => String c line :: lines
                        | [] => [String c EmptyString]
                        end).
      destruct (nat_of_ascii c =? 10)%nat eqn:Hc.
      + constructor; [reflexivity | apply IHc].
      + destruct (nat_of_ascii c =? 13)%nat.
        * destruct (nat_of_ascii d =? 10)%nat.
          -- constructor; [reflexivity | apply IH].
          -- apply Hpush; [exact Hc | apply IHc].
        * apply Hpush; [exact Hc | apply IHc]. }
  apply Hboth.
Qed.

Lemma firstKeyLine_found (lines : list string) (key : string) :
  firstKeyLine lines = Some key ->
  exists skipped rawLine rest,
    lines = (skipped ++ rawLine :: rest)%list
    /\ Forall (fun l => keyLineValue l = None) skipped
    /\ keyLineValue rawLine = Some key.
Proof.
  induction lines as [|l lines IH]; simpl; [discriminate|].
  destruct (keyLineValue l) as [v|] eqn:Hl.
  - intros E. inversion E; subst v. exists [], l, lines.
    split; [reflexivity|]. split; [constructor | assumption].
  - intros E. destruct (IH E) as [skipped [rawLine [rest [-> [Hs Hk]]]]].
    exists (l :: skipped), rawLine, rest.
    split; [reflexivity|]. split; [now constructor | assumption].
Qed.

(** X12. A key read from a file comes from the first line that, once
    trimmed, is not empty, is not a comment, holds an equals sign and has
    the variable's name, up to white space, before its first equals sign.
    The key is what stands between that sign and the next equals sign,
    trimmed and without a double quote at either end: it holds no equals
    sign and no line feed, so a value with an equals sign in it is cut
    there.  Lines before it that are no such line are passed over, and a
    file that cannot be read gives no key. *)
Theorem file_key_is_first_assignment (content key : string) :
  loadApiKeyFromFile (Some content) = Some key ->
  (exists skipped rawLine rest name value,
     splitLines content = (skipped ++ rawLine :: rest)%list
     /\ Forall (fun l => keyLineValue l = None) skipped
     /\ trim rawLine = name ++ "=" ++ value
     /\ noneOf isEquals name
     /\ trim name = OPENAI_API_KEY_ENV
     /\ startsWith (trim rawLine) "#" = false
     /\ key = stripQuotes (trim (beforeEquals value)))
  /\ noneOf isEquals key
  /\ noneOf isLineFeed key
  /\ loadApiKeyFromFile None = None.
Proof.
  unfold loadApiKeyFromFile. intros Hkey.
  destruct (firstKeyLine_found _ _ Hkey)
    as [skipped [rawLine [rest [Hlines [Hskipped Hline]]]]].
  unfold keyLineValue in Hline.
  destruct (negb (nonEmpty (trim rawLine))) eqn:Hne; [discriminate|].
  destruct (startsWith (trim rawLine) "#") eqn:Hcomment; [discriminate|].
  destruct (stringExists isEquals (trim rawLine)) eqn:Heq; [|discriminate].
  simpl in Hline.
  destruct (String.eqb (trim (beforeEquals (trim rawLine)))
                       OPENAI_API_KEY_ENV) eqn:Hname; [|discriminate].
  inversion Hline as [Hvalue]. apply String.eqb_eq in Hname.
  split; [|split; [|split]].
  - exists skipped, rawLine, rest, (beforeEquals (trim rawLine)),
      (afterEquals (trim rawLine)).
    split; [assumption|]. split; [assumption|].
    split; [now apply split_at_equals|].
    split; [apply beforeEquals_none|]. now repeat split.
  - unfold noneOf.
    destruct (stringExists isEquals
                (stripQuotes (trim (beforeEquals (afterEquals (trim rawLine))))))
      eqn:E; [|reflexivity].
    apply stripQuotes_keeps, trim_keeps in E.
    now rewrite (beforeEquals_none (afterEquals (trim rawLine))) in E.
  - unfold noneOf.
    destruct (stringExists isLineFeed
                (stripQuotes (trim (beforeEquals (afterEquals (trim rawLine))))))
      eqn:E; [|reflexivity].
    apply stripQuotes_keeps, trim_keeps, beforeEquals_keeps,
      afterEquals_keeps, trim_keeps in E.
    pose proof (splitLines_no_line_feed content) as Hall.
    rewrite Hlines in Hall. rewrite Forall_forall in Hall.
    assert (Hin : In rawLine (skipped ++ rawLine :: rest)%list)
      by (apply in_or_app; right; now left).
    specialize (Hall rawLine Hin). unfold noneOf in Hall. congruence.
  - reflexivity.
Qed.

Lemma file_key_is_first_assignment_witness :
  loadApiKeyFromFile
    (Some ("# local settings" ++ newline
             ++ "OTHER=1" ++ newline
             ++ " OPENAI_API_KEY = " ++ quote ++ "sk-test" ++ quote
             ++ "=ignored" ++ newline))
  = Some "sk-test"
  /\ noneOf isEquals "sk-test".
Proof.
  split; [vm_compute; reflexivity|].
  apply (file_key_is_first_assignment
           ("# local settings" ++ newline
              ++ "OTHER=1" ++ newline
              ++ " OPENAI_API_KEY = " ++ quote ++ "sk-test" ++ quote
              ++ "=ignored" ++ newline)
           "sk-test").
  vm_compute. reflexivity.
Defined.

(** X13. The key the script settles on is never empty.  An environment
    value that is not blank wins, trimmed, whatever the files hold;
    otherwise the key is that of the first of the two candidate files, in
    their listed order, that yields a non-empty key; and the lookup
    throws exactly when the environment value is missing or blank and
    neither file yields a non-empty key. *)
Theorem api_key_lookup_order
    (envValue : option string) (readFile : string -> option string) :
  let fromFile := fun name => loadApiKeyFromFile (readFile name) in
  (forall key, loadApiKey envValue readFile = Returned key -> key <> "")
  /\ (forall e, envValue = Some e -> trim e <> "" ->
        loadApiKey envValue readFile = Returned (trim e))
  /\ (truthyS (option_map trim envValue) = false ->
      forall key, key <> "" ->
        (fromFile ".env" = Some key ->
         loadApiKey envValue readFile = Returned key)
        /\ (truthyS (fromFile ".env") = false ->
            fromFile ".openai_api_key" = Some key ->
            loadApiKey envValue readFile = Returned key))
  /\ ((exists error, loadApiKey envValue readFile = Thrown error)
      <-> truthyS (option_map trim envValue) = false
          /\ truthyS (fromFile ".env") = false
          /\ truthyS (fromFile ".openai_api_key") = false).
Proof.
  intros fromFile.
  assert (Henv : truthyS envValue && truthyS (option_map trim envValue)
                 = truthyS (option_map trim envValue)).
  { destruct envValue as [[|c e]|]; reflexivity. }
  unfold loadApiKey. rewrite Henv. unfold ENV_PRIORITIES, firstFileKey.
  fold (fromFile ".env"). fold (fromFile ".openai_api_key").
  split; [|split; [|split]].
  - intros key.
    destruct (truthyS (option_map trim envValue)) eqn:He.
    + intros E. inversion E; subst key.
      destruct envValue as [e|]; [|discriminate]. simpl in He.
      now apply nonEmpty_true.
    + destruct (truthyS (fromFile ".env")) eqn:H1.
      * destruct (fromFile ".env") as [k|]; [|discriminate].
        intros E. inversion E; subst key. now apply nonEmpty_true.
      * destruct (truthyS (fromFile ".openai_api_key")) eqn:H2;
          [|discriminate].
        destruct (fromFile ".openai_api_key") as [k|]; [|discriminate].
        intros E. inversion E; subst key. now apply nonEmpty_true.
  - intros e -> Hne. apply nonEmpty_true in Hne. simpl. now rewrite Hne.
  - intros He key Hkey. rewrite He. apply nonEmpty_true in Hkey. split.
    + intros H1. rewrite H1. simpl. now rewrite Hkey.
    + intros H1 H2. rewrite H1, H2. simpl. now rewrite Hkey.
  - destruct (truthyS (option_map trim envValue)).
    + split; [intros [error E]; discriminate | intros [E _]; discriminate].
    + destruct (truthyS (fromFile ".env")) eqn:H1.
      * destruct (fromFile ".env"); [|discriminate].
        split; [intros [error E]; discriminate|].
        intros [_ [E _]]; discriminate.
      * destruct (truthyS (fromFile ".openai_api_key")) eqn:H2.
        -- destruct (fromFile ".openai_api_key"); [|discriminate].
           split; [intros [error E]; discriminate|].
           intros [_ [_ E]]; discriminate.
        -- split; [now repeat split | eauto].
Qed.

(* ================================================================== *)
(** ** The text of a response *)

Lemma collectChunks_arrays (items : list JsonValue)
      (contents : list (list JsonValue)) :
  Forall2 (fun item cs => optProp (Some item) "content" = Some (JArr cs))
          items contents ->
  collectChunks items = Some (flat_map outputTexts contents).
Proof.
  induction 1 as [|item cs items contents Hitem _ IH]; [reflexivity|].
  cbn [collectChunks]. rewrite Hitem, IH. reflexivity.
Qed.

(** X14. The text of a response whose output is a list of items, each
    with a list of content parts, is the texts of the parts of type
    output_text that hold a string, in the order of the items and of their
    parts, joined without separator and trimmed; and a reply with that
    text is graded from it, under the identifier of the response. *)
Theorem collected_text_is_output_texts
    (R : Runtime) (client : Client) (offer : StructuredOffer)
    (response : JsonValue) (items : list JsonValue)
    (contents : list (list JsonValue)) :
  optProp (Some response) "output" = Some (JArr items) ->
  Forall2 (fun item cs => optProp (Some item) "content" = Some (JArr cs))
          items contents ->
  collectResponseText response
  = Returned (trim (join "" (flat_map outputTexts contents)))
  /\ (client (requestOf offer) = Returned response ->
      gradeOffer (Returned client) offer
      = reconcile offer (responseIdOf response)
          (parseJsonResponse
             (trim (join "" (flat_map outputTexts contents))))).
Proof.
  intros Hout Hitems.
  assert (Htext : collectResponseText response
                  = Returned (trim (join "" (flat_map outputTexts contents)))).
  { unfold collectResponseText. cbv zeta. rewrite Hout.
    cbn [orElse truthyV truthy iterate].
    now rewrite (collectChunks_arrays items contents Hitems). }
  split; [exact Htext|].
  intros Hcall. unfold gradeOffer. now rewrite Hcall, Htext.
Qed.

Lemma collected_text_is_output_texts_witness :
  collectResponseText
    (JObj [("id", JStr "resp_1");
           ("output",
            JArr [JObj [("type", JStr "reasoning"); ("content", JArr [])];
                  JObj [("type", JStr "message");
                        ("content",
                         JArr [JObj [("type", JStr "output_text");
                                     ("text", JStr " {}")];
                               JObj [("type", JStr "refusal");
                                     ("text", JStr "no")];
                               JObj [("type", JStr "output_text");
                                     ("text", JNum (Fin 1))]])]])])
  = Returned "{}".
Proof.
  apply (collected_text_is_output_texts Sample.runtime
           (fun _ => Thrown JNull)
           (structureActivity (R := Sample.runtime)
              (Sample.activity 1) "offers/101.json")
           (JObj [("id", JStr "resp_1");
                  ("output",
                   JArr [JObj [("type", JStr "reasoning"); ("content", JArr [])];
                         JObj [("type", JStr "message");
                               ("content",
                                JArr [JObj [("type", JStr "output_text");
                                            ("text", JStr " {}")];
                                      JObj [("type", JStr "refusal");
                                            ("text", JStr "no")];
                                      JObj [("type", JStr "output_text");
                                            ("text", JNum (Fin 1))]])]])])
           [JObj [("type", JStr "reasoning"); ("content", JArr [])];
            JObj [("type", JStr "message");
                  ("content",
                   JArr [JObj [("type", JStr "output_text");
                               ("text", JStr " {}")];
                         JObj [("type", JStr "refusal");
                               ("text", JStr "no")];
                         JObj [("type", JStr "output_text");
                               ("text", JNum (Fin 1))]])]]
           [[];
            [JObj [("type", JStr "output_text"); ("text", JStr " {}")];
             JObj [("type", JStr "refusal"); ("text", JStr "no")];
             JObj [("type", JStr "output_text"); ("text", JNum (Fin 1))]]]).
  - reflexivity.
  - repeat constructor.
Defined.

(* ================================================================== *)
(** ** Results that tie *)

Section Stability.
Context {R : Runtime} {LO : LocaleOrder R}.
Variable dom : list GradingResult.
Hypothesis Hids : idsToldApart dom.

Lemma tiedWith_sym (a b : GradingResult) : tiedWith a b = tiedWith b a.
Proof.
  unfold tiedWith. rewrite (compareResults_antisym a b).
  now destruct (compareResults a b).
Qed.

(** Two results of the list that tie with a third tie with each other. *)
Lemma tiedWith_both (x a b : GradingResult) :
  In x dom -> In a dom -> In b dom ->
  tiedWith x a = true -> tiedWith x b = true -> compareResults a b = Eq.
Proof.
  unfold tiedWith. intros Hx Ha Hb Hxa Hxb.
  destruct (compareResults x a) eqn:Exa; try discriminate.
  destruct (compareResults x b) eqn:Exb; try discriminate.
  assert (Eax : compareResults a x = Eq)
    by (rewrite compareResults_antisym, Exa; reflexivity).
  assert (Ebx : compareResults b x = Eq)
    by (rewrite compareResults_antisym, Exb; reflexivity).
  assert (Hab : notAfter compareResults a b).
  { apply (compareResults_notAfter_trans dom Hids a x b); auto;
      unfold notAfter; congruence. }
  assert (Hba : notAfter compareResults b a).
  { apply (compareResults_notAfter_trans dom Hids b x a); auto;
      unfold notAfter; congruence. }
  unfold notAfter in *. rewrite compareResults_antisym in Hba.
  destruct (compareResults a b); simpl in *; congruence.
Qed.

Lemma insertSorted_stable (x y : GradingResult) (l : list GradingResult) :
  In x dom -> In y dom -> incl l dom ->
  filter (tiedWith x) (insertSorted compareResults y l)
  = filter (tiedWith x) (y :: l).
Proof.
  intros Hx Hy. induction l as [|z l IH]; intros Hl; [reflexivity|].
  simpl insertSorted. destruct (compareResults y z) eqn:Hc; try reflexivity.
  assert (Hz : In z dom) by (apply Hl; now left).
  simpl in *. rewrite IH by (intros w Hw; apply Hl; now right).
  destruct (tiedWith x y) eqn:Hxy; [|reflexivity].
  destruct (tiedWith x z) eqn:Hxz; [|reflexivity].
  rewrite (tiedWith_both x y z Hx Hy Hz Hxy Hxz) in Hc. discriminate.
Qed.

Lemma arraySort_stable (x : GradingResult) (l : list GradingResult) :
  In x dom -> incl l dom ->
  filter (tiedWith x) (arraySort compareResults l) = filter (tiedWith x) l.
Proof.
  intros Hx. induction l as [|y l IH]; intros Hl; [reflexivity|].
  simpl arraySort. rewrite insertSorted_stable.
  - simpl. rewrite IH; [reflexivity|]. intros w Hw. apply Hl. now right.
  - assumption.
  - apply Hl. now left.
  - intros w Hw. apply Hl. right.
    now apply (Permutation_in _ (arraySort_Permutation _ compareResults l)).
Qed.

End Stability.

(** X15. Under a collation that orders strings as their collation keys
    are ordered, and when identifier strings of the results that tie are
    equal, the sort is by a consistent comparator and keeps the results
    it ties in the order in which they were pushed: for every result, the
    results that the comparator ties with it come out of the sort in
    their order of arrival. *)
Theorem tied_results_stay_in_arrival_order
    (R : Runtime) (LO : LocaleOrder R)
    (arrived : list GradingResult) (x : GradingResult) :
  idsToldApart arrived ->
  In x arrived ->
  filter (tiedWith x) (arraySort compareResults arrived)
  = filter (tiedWith x) arrived.
Proof.
  intros Hids Hx. apply (arraySort_stable arrived Hids x arrived Hx).
  apply incl_refl.
Qed.

Lemma tied_results_stay_in_arrival_order_witness :
  filter (tiedWith (R := Sample.runtime)
            {| result_activity_id := JNum (Fin 101);
               score := Some (Fin 0);
               reason := "Service busy.";
               categories := [];
               target_audiences := [];
               hero_image_index := None;
               hero_image_url := None;
               hero_image_reason := "";
               response_id := Some "resp_b" |})
         (arraySort (compareResults (R := Sample.runtime))
            [{| result_activity_id := JNum (Fin 101);
                score := Some (Fin 0);
                reason := "Service busy.";
                categories := [];
                target_audiences := [];
                hero_image_index := None;
                hero_image_url := None;
                hero_image_reason := "";
                response_id := Some "resp_b" |};
             {| result_activity_id := JNum (Fin 100);
                score := Some (Fin 3);
                reason := "Fine.";
                categories := [];
                target_audiences := [];
                hero_image_index := None;
                hero_image_url := None;
                hero_image_reason := "";
                response_id := Some "resp_c" |};
             {| result_activity_id := JNum (Fin 101);
                score := Some (Fin 0);
                reason := "Service busy.";
                categories := [];
                target_audiences := [];
                hero_image_index := None;
                hero_image_url := None;
                hero_image_reason := "";
                response_id := Some "resp_a" |}])
  = [{| result_activity_id := JNum (Fin 101);
        score := Some (Fin 0);
        reason := "Service busy.";
        categories := [];
        target_audiences := [];
        hero_image_index := None;
        hero_image_url := None;
        hero_image_reason := "";
        response_id := Some "resp_b" |};
     {| result_activity_id := JNum (Fin 101);
        score := Some (Fin 0);
        reason := "Service busy.";
        categories := [];
        target_audiences := [];
        hero_image_index := None;
        hero_image_url := None;
        hero_image_reason := "";
        response_id := Some "resp_a" |}].
Proof.
  rewrite (tied_results_stay_in_arrival_order Sample.runtime sample_collation).
  - vm_compute. reflexivity.
  - intros a b _ _ H.
    now apply OrderedTypeEx.String_as_OT.cmp_eq in H.
  - now left.
Defined.
